(** * Background removal of the virtual try-on backend (backend/main.py)

    A shallow embedding of the image pipeline of [backend/main.py]:
    [downscale_if_needed], [color_distance_sq], [estimate_background_color],
    [pillow_bg_remove], [remove_background] and the input selection of the
    [/upload] endpoint, followed by the properties the design document states
    about them.

    Conventions.
    - A PIL image is its [size] and its pixel access object ([im.load()]),
      indexed [x] then [y] as in [pix[x, y]].  The pixel type plays the role
      of the mode: [RGBA], [RGB] and [L].
    - Python [int] is [Z]; sizes and coordinates, which PIL keeps
      non-negative, are [nat].
    - Python [float] is an interface ([PyFloat]) with two instances: IEEE-754
      binary64 on Rocq's primitive floats (what CPython computes) and exact
      rationals.  What is proved of binary64 rests on the standard library's
      specification of the primitive floats ([SpecFloat], [FloatAxioms]),
      read over the reals.
    - A call that can raise returns a [Result]; the exceptions are the
      subclasses of [Exception] the program meets.
    - Pillow's filters, the PNG codec, rembg and the network are
      collaborators of the program: fields of the classes [Pillow] and
      [Services]. *)

From Stdlib Require Import ZArith QArith Lia List Bool String Ascii.
From Stdlib Require Import PrimFloat FloatOps SpecFloat FloatAxioms Uint63.
From Stdlib Require Import Reals Lra Psatz.
From Stdlib Require Import FunctionalExtensionality.
From Equations Require Import Equations.
Import ListNotations.

Open Scope Z_scope.

(* ===================================================================== *)
(** ** Exceptions and results *)
(* ===================================================================== *)

Inductive exn : Type :=
| ZeroDivisionError
| ValueError (msg : string)
| UnidentifiedImageError
| HTTPException (status_code : Z) (detail : string)
| OtherException (what : string).

Inductive Result (A : Type) : Type :=
| Ok (a : A)
| Raise (e : exn).
Arguments Ok {A} a.
Arguments Raise {A} e.

Definition bindR {A B} (r : Result A) (k : A -> Result B) : Result B :=
  match r with
  | Ok a => k a
  | Raise e => Raise e
  end.

Declare Scope result_scope.
Delimit Scope result_scope with result.
Notation "x <- r ;; k" := (bindR r (fun x => k))
  (at level 100, r at next level, right associativity) : result_scope.

(** A computation over a mutable store [S] that may raise: the store survives
    the exception, as the local variables of a Python frame do inside
    [try ... except]. *)
Definition Stx (S A : Type) : Type := S -> Result A * S.

Module StxM.
Section Ops.
Context {S : Type}.

Definition ret {A} (a : A) : Stx S A := fun s => (Ok a, s).

Definition raise {A} (e : exn) : Stx S A := fun s => (Raise e, s).

Definition bind {A B} (m : Stx S A) (k : A -> Stx S B) : Stx S B :=
  fun s =>
    match m s with
    | (Ok a, s') => k a s'
    | (Raise e, s') => (Raise e, s')
    end.

Definition seq_ {B} (m : Stx S unit) (k : Stx S B) : Stx S B :=
  bind m (fun _ => k).

(** [for i in range(n): body] *)
Fixpoint for_range (n : nat) (body : Stx S unit) : Stx S unit :=
  match n with
  | O => ret tt
  | Datatypes.S n' => seq_ body (for_range n' body)
  end.

(** [try: body except Exception: pass] *)
Definition try_except_pass (body : Stx S unit) : Stx S unit :=
  fun s => let '(_, s') := body s in (Ok tt, s').

(** [try: body except Exception as e: handler e] *)
Definition try_except {A} (body : Stx S A) (handler : exn -> Stx S A)
  : Stx S A :=
  fun s =>
    match body s with
    | (Ok a, s') => (Ok a, s')
    | (Raise e, s') => handler e s'
    end.
End Ops.
End StxM.

Declare Scope stx_scope.
Delimit Scope stx_scope with stx.
Notation "x <- m ;; k" := (StxM.bind m (fun x => k))
  (at level 100, m at next level, right associativity) : stx_scope.
Notation "m ;;; k" := (StxM.seq_ m k)
  (at level 100, right associativity) : stx_scope.

(* ===================================================================== *)
(** ** Python floats *)
(* ===================================================================== *)

(** The float operations the program uses.  [truediv a b] is [a / b] on two
    ints and [fdiv] is [/] on floats: both raise [ZeroDivisionError] on a zero
    divisor, which the callers below test before they divide.
    [int_of_float] is [int(x)], truncation toward zero. *)
Class PyFloat (F : Type) : Type := {
  float_of_int : Z -> F;
  truediv : Z -> Z -> F;
  fadd : F -> F -> F;
  fmul : F -> F -> F;
  fdiv : F -> F -> F;
  flt : F -> F -> bool;
  int_of_float : F -> Z
}.

Module Binary64.
(** [float(n)] for an int of magnitude below 2^63. *)
Definition of_Z (z : Z) : float :=
  if z <? 0
  then PrimFloat.opp (PrimFloat.of_uint63 (Uint63.of_Z (- z)))
  else PrimFloat.of_uint63 (Uint63.of_Z z).

(** [int(x)] of a finite float; infinities and NaN, on which [int] raises,
    are not reached by quotients and products of image dimensions. *)
Definition to_Z (x : float) : Z :=
  match Prim2SF x with
  | S754_finite s m e =>
      let v := if 0 <=? e then Z.pos m * 2 ^ e else Z.pos m / 2 ^ (- e) in
      if s then - v else v
  | _ => 0
  end.

(** CPython rounds the exact quotient of two ints once; for operands
    below 2^53 that is the float quotient of their conversions. *)
Definition truediv (a b : Z) : float := PrimFloat.div (of_Z a) (of_Z b).
End Binary64.

#[export] Instance binary64 : PyFloat float := {|
  float_of_int := Binary64.of_Z;
  truediv := Binary64.truediv;
  fadd := PrimFloat.add;
  fmul := PrimFloat.mul;
  fdiv := PrimFloat.div;
  flt := PrimFloat.ltb;
  int_of_float := Binary64.to_Z
|}.

(** Exact rational arithmetic: what the formulas of the program aim at,
    not what Python computes; the two differ where a float is rounded
    (example [strip_estimate]). *)
Module Exact.
Definition truediv (a b : Z) : Q := Qred (inject_Z a / inject_Z b).
Definition add (x y : Q) : Q := Qred (x + y).
Definition mul (x y : Q) : Q := Qred (x * y).
Definition div (x y : Q) : Q := Qred (x / y).
Definition ltb (x y : Q) : bool := negb (Qle_bool y x).
Definition to_Z (x : Q) : Z := Z.quot (Qnum x) (Z.pos (Qden x)).
End Exact.

#[export] Instance exactQ : PyFloat Q := {|
  float_of_int := inject_Z;
  truediv := Exact.truediv;
  fadd := Exact.add;
  fmul := Exact.mul;
  fdiv := Exact.div;
  flt := Exact.ltb;
  int_of_float := Exact.to_Z
|}.

(** *** The real value of a binary64 float

    What the proofs about binary64 are stated with: the float
    specification of the standard library ([SpecFloat], related to the
    primitive floats by [FloatAxioms]) read over the reals. *)

(** [2^e] *)
Definition bpow (e : Z) : R := powerRZ 2 e.

(** The value of a float; [0] for infinities and NaN, which the lemmas
    below exclude. *)
Definition SF2R (f : spec_float) : R :=
  match f with
  | S754_finite s m e =>
      if s then (- (IZR (Z.pos m) * bpow e))%R else (IZR (Z.pos m) * bpow e)%R
  | _ => 0%R
  end.

(** [x] lies in [[m, m + 1)], at the place [l] says: on [m], below, on or
    above the middle. *)
Definition inb (m : Z) (x : R) (l : location) : Prop :=
  match l with
  | loc_Exact => x = IZR m
  | loc_Inexact Lt => (IZR m < x < IZR m + / 2)%R
  | loc_Inexact Eq => x = (IZR m + / 2)%R
  | loc_Inexact Gt => (IZR m + / 2 < x < IZR m + 1)%R
  end.

(** The float of a rounded 53-bit mantissa: a carry to [2^53] moves to the
    next exponent. *)
Definition pack64 (m e : Z) : spec_float :=
  if m =? 2 ^ 53
  then S754_finite false (Z.to_pos (2 ^ 52)) (e + 1)
  else S754_finite false (Z.to_pos m) e.

(** A positive normal float. *)
Definition normal64 (f : spec_float) : Prop :=
  exists m e, f = S754_finite false m e /\
              2 ^ 52 <= Z.pos m < 2 ^ 53 /\ -1074 <= e <= 971.

(** [+0.0] or a positive normal float. *)
Definition good64 (f : spec_float) : Prop :=
  f = S754_zero false \/ normal64 f.

(** [f] is the positive real [x] rounded to nearest, ties to even: at the
    exponent [e0] where [x / 2^e0] has 53 bits before the point, the
    mantissa of [f] is [x / 2^e0] rounded to the nearest integer. *)
Definition Rounds (x : R) (f : spec_float) : Prop :=
  exists m0 e0 l0,
    2 ^ 52 <= m0 < 2 ^ 53 /\ -1074 <= e0 <= 970 /\
    inb m0 (x * bpow (- e0)) l0 /\
    f = pack64 (round_nearest_even m0 l0) e0.

(** [lo <= x <= hi] for a float [x] that is [+0.0] or normal and at least
    [2^-53], as the quotients of ints up to 2^53 and their sums are. *)
Definition between64 (lo hi : Z) (x : float) : Prop :=
  (Prim2SF x = S754_zero false \/
   (normal64 (Prim2SF x) /\ (bpow (-53) <= SF2R (Prim2SF x))%R)) /\
  (IZR lo <= SF2R (Prim2SF x) <= IZR hi)%R.

(** Integer bounds on floats.  [fbetween lo hi x] reads [lo <= x <= hi].
    Each law says that an operation on ints up to 2^53, or on floats
    between such ints, returns a float between the integer bounds of its
    exact result.  The laws are proved below for binary64
    ([binary64_bounds], from the specification of the primitive floats) and
    for exact rationals ([exact_bounds]). *)
Class FloatBounds (F : Type) `{PyFloat F} : Type := {
  fbetween : Z -> Z -> F -> Prop;
  fbetween_zero : fbetween 0 0 (float_of_int 0);
  fbetween_truediv : forall lo hi a n,
    0 < n <= 2 ^ 53 -> 0 <= a <= 2 ^ 53 -> hi <= 2 ^ 53 ->
    lo * n <= a <= hi * n ->
    fbetween lo hi (truediv a n);
  fbetween_fadd : forall lo1 hi1 lo2 hi2 x y,
    fbetween lo1 hi1 x -> fbetween lo2 hi2 y ->
    hi1 + hi2 <= 2 ^ 53 ->
    fbetween (lo1 + lo2) (hi1 + hi2) (fadd x y);
  fbetween_int_fdiv : forall lo hi n x,
    0 < n <= 2 ^ 53 -> hi * n <= 2 ^ 53 ->
    fbetween (lo * n) (hi * n) x ->
    lo <= int_of_float (fdiv x (float_of_int n)) <= hi
}.

(** [lo <= x <= hi] on exact rationals. *)
Definition Qbetween (lo hi : Z) (x : Q) : Prop :=
  (inject_Z lo <= x)%Q /\ (x <= inject_Z hi)%Q.

(** The default [min_fg_fraction = 0.001]: the float nearest to 1/1000. *)
Definition default_min_fg_fraction {F} `{PyFloat F} : F := truediv 1 1000.

(* ===================================================================== *)
(** ** Images *)
(* ===================================================================== *)

Definition RGB : Type := Z * Z * Z.
Definition RGBA : Type := Z * Z * Z * Z.
Definition L : Type := Z.

Record Image (P : Type) : Type := mkImage {
  size : nat * nat;
  load : nat -> nat -> P
}.
Arguments mkImage {P} size load.
Arguments size {P} i.
Arguments load {P} i x y.

Definition width {P} (im : Image P) : nat := fst (size im).
Definition height {P} (im : Image P) : nat := snd (size im).

(** [Image.new(mode, size, color)] *)
Definition Image_new {P} (sz : nat * nat) (color : P) : Image P :=
  mkImage sz (fun _ _ => color).

(** [m[x, y] = v] on the pixel access object of [im] *)
Definition putpixel {P} (im : Image P) (x y : nat) (v : P) : Image P :=
  mkImage (size im)
    (fun x' y' => if (x' =? x)%nat && (y' =? y)%nat then v else load im x' y').

(** [im.convert("RGB")] of an RGBA image drops the alpha band. *)
Definition convert_RGB (im : Image RGBA) : Image RGB :=
  mkImage (size im) (fun x y => let '(r, g, b, _) := load im x y in (r, g, b)).

(** [im.convert("RGBA")] of an RGBA image is a copy. *)
Definition convert_RGBA (im : Image RGBA) : Image RGBA :=
  mkImage (size im) (load im).

(** [im.putalpha(alpha)] with an [L] image: the alpha band is replaced; PIL
    raises [ValueError] when the sizes differ. *)
Definition putalpha (im : Image RGBA) (alpha : Image L) : Result (Image RGBA) :=
  if ((width im =? width alpha)%nat && (height im =? height alpha)%nat)%bool
  then Ok (mkImage (size im)
             (fun x y => let '(r, g, b, _) := load im x y in
                         (r, g, b, load alpha x y)))
  else Raise (ValueError "images do not match").

(** [im.crop((left, upper, right, lower))] *)
Definition crop {P} (im : Image P) (box : nat * nat * nat * nat) : Image P :=
  let '(x0, y0, x1, y1) := box in
  mkImage ((x1 - x0)%nat, (y1 - y0)%nat)
          (fun x y => load im (x0 + x)%nat (y0 + y)%nat).

(** The bands of an RGB pixel, [p[0]], [p[1]], [p[2]]. *)
Definition band (i : nat) (p : RGB) : Z :=
  let '(r, g, b) := p in
  match i with
  | O => r
  | 1%nat => g
  | _ => b
  end.

(** [for y in range(h): for x in range(w): acc = f acc x y] *)
Definition for_each_pixel {A} (w h : nat) (f : A -> nat -> nat -> A) (a : A) : A :=
  fold_left (fun acc y => fold_left (fun acc x => f acc x y) (seq 0 w) acc)
            (seq 0 h) a.

(** [ImageStat.Stat(c)]: per band, [count] is the number of pixels, [sum] the
    sum of the band's values and [mean] is [sum / count]. *)
Module ImageStat.
Definition count (c : Image RGB) (i : nat) : Z :=
  Z.of_nat (width c * height c).

Definition sum (c : Image RGB) (i : nat) : Z :=
  for_each_pixel (width c) (height c)
    (fun acc x y => acc + band i (load c x y)) 0.

Definition mean {F} `{PyFloat F} (c : Image RGB) (i : nat) : F :=
  truediv (sum c i) (count c i).
End ImageStat.

(** Rows of an image, for reading examples. *)
Definition to_rows {P} (im : Image P) : list (list P) :=
  map (fun y => map (fun x => load im x y) (seq 0 (width im)))
      (seq 0 (height im)).

(** The image of a list of rows of width [w]; [d] fills what the rows lack. *)
Definition of_rows {P} (d : P) (w : nat) (rows : list (list P)) : Image P :=
  mkImage (w, List.length rows) (fun x y => nth x (nth y rows []) d).

(** A well-formed 8-bit image: every band of every pixel is in [0, 255]. *)
Definition rgb_in_range (p : RGB) : Prop :=
  let '(r, g, b) := p in
  0 <= r <= 255 /\ 0 <= g <= 255 /\ 0 <= b <= 255.

Definition wf_rgb (im : Image RGB) : Prop :=
  forall x y, (x < width im)%nat -> (y < height im)%nat ->
              rgb_in_range (load im x y).

(* ===================================================================== *)
(** ** backend/main.py: colour distance and background estimate *)
(* ===================================================================== *)

Definition MAX_UPLOAD_BYTES : Z := 8 * 1024 * 1024.
Definition MAX_DIMENSION : Z := 2048.

Definition color_distance_sq (c1 c2 : RGB) : Z :=
  let dr := band 0 c1 - band 0 c2 in
  let dg := band 1 c1 - band 1 c2 in
  let db := band 2 c1 - band 2 c2 in
  dr * dr + dg * dg + db * db.

Section Estimate.
Context {F : Type} `{PyFloat F}.

(** The four crops of [estimate_background_color]; on [nat] the
    subtraction [w - sample_size] already stops at 0. *)
Definition corner_crops (im : Image RGB) (sample_size : nat)
  : list (Image RGB) :=
  let '(w, h) := size im in
  [ crop im (0, 0, Nat.min sample_size w, Nat.min sample_size h);
    crop im (Nat.max 0 (w - sample_size), 0, w, Nat.min sample_size h);
    crop im (0, Nat.max 0 (h - sample_size), Nat.min sample_size w, h);
    crop im (Nat.max 0 (w - sample_size), Nat.max 0 (h - sample_size), w, h)
  ]%nat.

(** One turn of [for c in corners]: the state is [(sums, count)]. *)
Definition add_corner (st : (F * F * F) * Z) (c : Image RGB)
  : (F * F * F) * Z :=
  let '((s0, s1, s2), count) := st in
  if 0 <? ImageStat.count c 0
  then ((fadd s0 (ImageStat.mean c 0),
         fadd s1 (ImageStat.mean c 1),
         fadd s2 (ImageStat.mean c 2)), count + 1)
  else st.

Definition estimate_background_color (im : Image RGB) (sample_size : nat)
  : RGB :=
  let corners := corner_crops im sample_size in
  let sums := (float_of_int 0, float_of_int 0, float_of_int 0) in
  let '((s0, s1, s2), count) := fold_left add_corner corners (sums, 0) in
  if count =? 0
  then (255, 255, 255)
  else (int_of_float (fdiv s0 (float_of_int count)),
        int_of_float (fdiv s1 (float_of_int count)),
        int_of_float (fdiv s2 (float_of_int count))).

(** The sub-rectangle of [im] of [cw] by [ch] pixels whose top-left pixel
    is [(x0, y0)]. *)
Definition sub_rectangle (im : Image RGB) (x0 y0 cw ch : nat) : Image RGB :=
  mkImage (cw, ch) (fun x y => load im (x0 + x)%nat (y0 + y)%nat).

(** The four corners, each [min(S, W)] by [min(S, H)]: top-left,
    top-right, bottom-left, bottom-right. *)
Definition spec_corners (im : Image RGB) (S : nat) : list (Image RGB) :=
  let W := width im in
  let H := height im in
  let cw := Nat.min S W in
  let ch := Nat.min S H in
  [ sub_rectangle im 0 0 cw ch;
    sub_rectangle im (W - cw) 0 cw ch;
    sub_rectangle im 0 (H - ch) cw ch;
    sub_rectangle im (W - cw) (H - ch) cw ch ]%nat.

Definition has_pixels (c : Image RGB) : bool :=
  (0 <? width c * height c)%nat.

(** The average of a list of floats, summed from the left. *)
Definition average (l : list F) : F :=
  fdiv (fold_left fadd l (float_of_int 0))
       (float_of_int (Z.of_nat (List.length l))).

(** The estimate as the design document words it: the average, over the
    corners that have a pixel, of the corners' mean colours; white when
    no corner has one. *)
Definition spec_estimate (im : Image RGB) (S : nat) : RGB :=
  let valid := filter has_pixels (spec_corners im S) in
  match valid with
  | [] => (255, 255, 255)
  | _ :: _ =>
      (int_of_float (average (map (fun c => ImageStat.mean c 0) valid)),
       int_of_float (average (map (fun c => ImageStat.mean c 1) valid)),
       int_of_float (average (map (fun c => ImageStat.mean c 2) valid)))
  end.

End Estimate.

(* ===================================================================== *)
(** ** Collaborators: Pillow, the PNG codec, rembg, the network *)
(* ===================================================================== *)

Definition bytes : Type := list Byte.byte.

(** What [mask.filter(k)] computes from the size and the pixels of [mask]. *)
Definition Kernel : Type := nat * nat -> (nat -> nat -> L) -> Result (nat -> nat -> L).

(** Pillow.  The rank filters may raise (the design document lets them be
    unsupported on a platform); the Gaussian blur and the resampling always
    return pixels. *)
Class Pillow : Type := {
  MaxFilter3 : Kernel;
  MinFilter3 : Kernel;
  GaussianBlur1 : nat * nat -> (nat -> nat -> L) -> nat -> nat -> L;
  LANCZOS : Image RGBA -> nat * nat -> nat -> nat -> RGBA
}.

(** [im.filter(k)]: an image of the same size, or the kernel's exception. *)
Definition Image_filter (k : Kernel) (im : Image L) : Result (Image L) :=
  match k (size im) (load im) with
  | Ok px => Ok (mkImage (size im) px)
  | Raise e => Raise e
  end.

(** [im.resize((new_w, new_h), Image.LANCZOS)]: an image of the requested
    size; Pillow raises [ValueError] unless both are positive. *)
Definition Image_resize `{Pillow} (im : Image RGBA) (new_size : Z * Z)
  : Result (Image RGBA) :=
  let '(new_w, new_h) := new_size in
  if (new_w <? 1) || (new_h <? 1)
  then Raise (ValueError "height and width must be > 0")
  else let sz := (Z.to_nat new_w, Z.to_nat new_h) in
       Ok (mkImage sz (LANCZOS im sz)).

(** The services behind the endpoint.  [Image_open_RGBA] is
    [Image.open(io.BytesIO(b)).convert("RGBA")], [requests_get] is
    [requests.get] followed by [raise_for_status] and gives the body. *)
Class Services : Type := {
  REMBG_AVAILABLE : bool;
  rembg_remove : bytes -> Result bytes;
  save_PNG : Image RGBA -> Result bytes;
  Image_open_RGBA : bytes -> Result (Image RGBA);
  requests_get : string -> Result bytes;
  urlparse_scheme : string -> string;
  b64decode : string -> Result bytes;
  b64encode : bytes -> string
}.

(* ===================================================================== *)
(** ** backend/main.py: downscale_if_needed *)
(* ===================================================================== *)

Section Downscale.
Context {F : Type} `{PyFloat F} `{Pillow}.

Definition downscale_if_needed (im : Image RGBA) (max_dim : Z)
  : Result (Image RGBA) :=
  let '(w, h) := (Z.of_nat (width im), Z.of_nat (height im)) in
  if Z.max w h <=? max_dim then Ok im
  else if Z.max w h =? 0 then Raise ZeroDivisionError
  else
    let scale := truediv max_dim (Z.max w h) in
    let '(new_w, new_h) :=
      (int_of_float (fmul (float_of_int w) scale),
       int_of_float (fmul (float_of_int h) scale)) in
    Image_resize im (new_w, new_h).
End Downscale.

(* ===================================================================== *)
(** ** backend/main.py: pillow_bg_remove *)
(* ===================================================================== *)

(** The body of the two loops: classify the pixel at [(x, y)].  The state is
    the mask being written and [fg_count]. *)
Definition classify_pixel (pix : nat -> nat -> RGB) (bg_color : RGB)
    (thr_sq : Z) (st : Image L * Z) (x y : nat) : Image L * Z :=
  let '(mask, fg_count) := st in
  let '(r, g, b) := pix x y in
  if thr_sq <? color_distance_sq (r, g, b) bg_color
  then (putpixel mask x y 255, fg_count + 1)
  else (putpixel mask x y 0, fg_count).

(** The mask and the count of foreground pixels after the loops. *)
Definition build_mask (rgb : Image RGB) (bg_color : RGB) (threshold : Z)
    (w h : nat) : Image L * Z :=
  let pix := load rgb in
  let mask := Image_new (w, h) 0 in
  let thr_sq := threshold * threshold in
  for_each_pixel w h (classify_pixel pix bg_color thr_sq) (mask, 0).

(** The class of a pixel: 255 when it is farther from the background colour
    than the threshold, 0 otherwise. *)
Definition pixel_class (rgb : Image RGB) (bg_color : RGB) (threshold : Z)
    (x y : nat) : L :=
  if threshold * threshold <? color_distance_sq (load rgb x y) bg_color
  then 255 else 0.

Definition rgb_of (p : RGBA) : RGB := let '(r, g, b, _) := p in (r, g, b).
Definition alpha_of (p : RGBA) : Z := let '(_, _, _, a) := p in a.

Section Heuristic.
Context {F : Type} `{PyFloat F} `{Pillow}.

(** [fg_fraction = fg_count / (w * h)] *)
Definition fg_fraction_of (fg_count : Z) (w h : nat) : Result F :=
  if Z.of_nat (w * h) =? 0 then Raise ZeroDivisionError
  else Ok (truediv fg_count (Z.of_nat (w * h))).

(** [mask = mask.filter(k)]: the variable is assigned when the call
    returns. *)
Definition filter_step (k : Kernel) : Stx (Image L) unit :=
  fun mask =>
    match Image_filter k mask with
    | Ok mask' => (Ok tt, mask')
    | Raise e => (Raise e, mask)
    end.

(** The body of the [try]: [smooth_radius] dilations, then as many
    erosions. *)
Definition closing_body (smooth_radius : Z) : Stx (Image L) unit :=
  (StxM.for_range (Z.to_nat smooth_radius) (filter_step MaxFilter3) ;;;
   StxM.for_range (Z.to_nat smooth_radius) (filter_step MinFilter3))%stx.

(** The [try ... except Exception: pass] around it; the result is the
    value of [mask] when the Gaussian blur is reached. *)
Definition closing (smooth_radius : Z) (mask : Image L) : Image L :=
  snd (StxM.try_except_pass (closing_body smooth_radius) mask).

Definition gaussian_blur (mask : Image L) : Image L :=
  mkImage (size mask) (GaussianBlur1 (size mask) (load mask)).

(** From the [try] to the [return]: refine the mask and put it into the
    alpha band of the input. *)
Definition refine_and_composite (im : Image RGBA) (mask : Image L)
    (smooth_radius : Z) : Result (Image RGBA) :=
  let mask := closing smooth_radius mask in
  let mask := gaussian_blur mask in
  let rgba := convert_RGBA im in
  putalpha rgba mask.

(** The test of the adaptive retry. *)
Definition retry_test (fg_fraction min_fg_fraction : F) (threshold : Z)
  : bool :=
  flt fg_fraction min_fg_fraction && (20 <? threshold).

(** The arguments of one call of [pillow_bg_remove] and the background
    colour it estimated: the call log below is ghost state, the Python
    function returns the image only. *)
Record Call : Type := mkCall {
  call_threshold : Z;
  call_smooth_radius : Z;
  call_min_fg_fraction : F;
  call_bg_color : RGB
}.

(** [pillow_bg_remove] with the log of its calls, outermost first. *)
Equations? pillow_bg_remove_calls (im : Image RGBA) (threshold : Z)
    (smooth_radius : Z) (min_fg_fraction : F)
  : list Call * Result (Image RGBA)
  by wf (Z.to_nat (threshold - 20)) lt :=
  pillow_bg_remove_calls im threshold smooth_radius min_fg_fraction :=
    let rgb := convert_RGB im in
    let bg_color := estimate_background_color rgb 10 in
    let this := mkCall threshold smooth_radius min_fg_fraction bg_color in
    let w := width im in
    let h := height im in
    let mask_count := build_mask rgb bg_color threshold w h in
    match fg_fraction_of (snd mask_count) w h with
    | Raise e => ([this], Raise e)
    | Ok fg_fraction =>
        match Sumbool.sumbool_of_bool
                (retry_test fg_fraction min_fg_fraction threshold) with
        | left _ =>
            let inner :=
              pillow_bg_remove_calls im (Z.max 20 (threshold - 15))
                                     smooth_radius min_fg_fraction in
            (this :: fst inner, snd inner)
        | right _ =>
            ([this], refine_and_composite im (fst mask_count) smooth_radius)
        end
    end.
Proof.
  unfold retry_test in *.
  apply andb_prop in e as [_ Hthr].
  apply Z.ltb_lt in Hthr. lia.
Qed.

Definition pillow_bg_remove (im : Image RGBA) (threshold : Z)
    (smooth_radius : Z) (min_fg_fraction : F) : Result (Image RGBA) :=
  snd (pillow_bg_remove_calls im threshold smooth_radius min_fg_fraction).

(** The background colour every call of [pillow_bg_remove] on [im]
    estimates, and the foreground fraction of its mask at a threshold. *)
Definition bg_color_of (im : Image RGBA) : RGB :=
  estimate_background_color (convert_RGB im) 10.

Definition mask_at (im : Image RGBA) (threshold : Z) : Image L * Z :=
  build_mask (convert_RGB im) (bg_color_of im) threshold
             (width im) (height im).

Definition fraction_at (im : Image RGBA) (threshold : Z) : Result F :=
  fg_fraction_of (snd (mask_at im threshold)) (width im) (height im).

(** The thresholds of the calls, outermost first. *)
Definition thresholds_tried (im : Image RGBA) (threshold smooth_radius : Z)
    (min_fg_fraction : F) : list Z :=
  map call_threshold
      (fst (pillow_bg_remove_calls im threshold smooth_radius
                                   min_fg_fraction)).

(** The filters of the closing, in the order of their application. *)
Definition closing_filters (smooth_radius : Z) : list Kernel :=
  repeat MaxFilter3 (Z.to_nat smooth_radius)
  ++ repeat MinFilter3 (Z.to_nat smooth_radius).

(** All the filters of a list applied in turn. *)
Fixpoint apply_filters (ks : list Kernel) (mask : Image L)
  : Result (Image L) :=
  match ks with
  | [] => Ok mask
  | k :: ks' =>
      match Image_filter k mask with
      | Ok mask' => apply_filters ks' mask'
      | Raise e => Raise e
      end
  end.

End Heuristic.

(* ===================================================================== *)
(** ** backend/main.py: remove_background *)
(* ===================================================================== *)

Section Orchestrator.
Context {F : Type} `{PyFloat F} `{Pillow} `{Services}.

(** The body of the [try]: encode, call rembg, decode its output. *)
Definition rembg_attempt (im : Image RGBA) : Result (Image RGBA) :=
  (buf_in <- save_PNG im ;;
   out_bytes <- rembg_remove buf_in ;;
   Image_open_RGBA out_bytes)%result.

Definition remove_background (im : Image RGBA) (do_rembg : bool)
  : Result (Image RGBA) :=
  if REMBG_AVAILABLE && do_rembg
  then match rembg_attempt im with
       | Ok out_im => Ok out_im
       | Raise _ => pillow_bg_remove im 45 3 default_min_fg_fraction
       end
  else pillow_bg_remove im 45 3 default_min_fg_fraction.
End Orchestrator.

(* ===================================================================== *)
(** ** backend/main.py: the /upload endpoint *)
(* ===================================================================== *)

(** What the endpoint does to its sources, in order. *)
Inductive Event : Type :=
| FileRead
| Fetch (url : string)
| B64Decode (s : string).

Definition IO (A : Type) : Type := Stx (list Event) A.

Definition emit (ev : Event) : IO unit := fun log => (Ok tt, log ++ [ev]).

Definition lift {A} (r : Result A) : IO A := fun log => (r, log).

Record UploadFile : Type := { file_content : bytes }.

Inductive Content : Type :=
| Garment (garment_png_b64 garment_data_url garment_type gender : string)
| Error (error : string).

Inductive Response : Type :=
| JSONResponse (content : Content) (status_code : Z).

(** [str(e)] *)
Definition str_exn (e : exn) : string :=
  match e with
  | ZeroDivisionError => "division by zero"
  | ValueError msg => msg
  | UnidentifiedImageError => "cannot identify image file"
  | HTTPException _ detail => detail
  | OtherException what => what
  end.

(** Truth value of an [Optional[str]]: [None] and the empty string are
    false. *)
Definition truthy (s : option string) : bool :=
  match s with
  | Some s => negb (String.eqb s EmptyString)
  | None => false
  end.

(** [s.split(",", 1)] unpacked into two names: the parts around the first
    comma, or [ValueError] when there is none. *)
Fixpoint split_comma (s : string) : option (string * string) :=
  match s with
  | EmptyString => None
  | String c rest =>
      if Ascii.eqb c ","%char then Some (EmptyString, rest)
      else match split_comma rest with
           | Some (a, b) => Some (String c a, b)
           | None => None
           end
  end.

Section Upload.
Context {F : Type} `{PyFloat F} `{Pillow} `{Services}.

(** [await file.read()] *)
Definition file_read (file : UploadFile) : IO bytes :=
  (emit FileRead ;;; StxM.ret (file_content file))%stx.

Definition fetch_image_from_url (url : string) : IO bytes :=
  (emit (Fetch url) ;;;
   match requests_get url with
   | Ok content => StxM.ret content
   | Raise e =>
       StxM.raise (HTTPException 400
                     ("Failed to fetch remote image: " ++ str_exn e)%string)
   end)%stx.

Definition base64_b64decode (s : string) : IO bytes :=
  (emit (B64Decode s) ;;; lift (b64decode s))%stx.

Definition pil_open_image (img_bytes : bytes) : Result (Image RGBA) :=
  match Image_open_RGBA img_bytes with
  | Ok im => Ok im
  | Raise UnidentifiedImageError =>
      Raise (HTTPException 400 "File is not a valid image")
  | Raise e => Raise e
  end.

Definition pil_to_base64_png (im : Image RGBA) : Result string :=
  (png_bytes <- save_PNG im ;; Ok (b64encode png_bytes))%result.

(** The [if file is not None: ... elif image_url: ... elif base64_image:
    ... else: ...] that sets [img_bytes]. *)
Definition read_input (file : option UploadFile)
    (image_url base64_image : option string) : IO bytes :=
  match file with
  | Some file =>
      (data <- file_read file ;;
       if (Z.of_nat (List.length data) =? 0)
       then StxM.raise (HTTPException 400 "Empty file")
       else if MAX_UPLOAD_BYTES <? Z.of_nat (List.length data)
       then StxM.raise (HTTPException 413 "Uploaded file too large")
       else StxM.ret data)%stx
  | None =>
      if truthy image_url then
        let image_url := match image_url with Some u => u | None => EmptyString end in
        let scheme := urlparse_scheme image_url in
        if negb (String.eqb scheme "http" || String.eqb scheme "https")
        then StxM.raise (HTTPException 400 "image_url must be http(s)")
        else
          (img_bytes <- fetch_image_from_url image_url ;;
           if MAX_UPLOAD_BYTES <? Z.of_nat (List.length img_bytes)
           then StxM.raise (HTTPException 413 "Remote image too large")
           else StxM.ret img_bytes)%stx
      else if truthy base64_image then
        let base64_image :=
          match base64_image with Some b => b | None => EmptyString end in
        if String.prefix "data:" base64_image
        then match split_comma base64_image with
             | None => StxM.raise (HTTPException 400 "Invalid data URL")
             | Some (_, b64) => base64_b64decode b64
             end
        else StxM.try_except (base64_b64decode base64_image)
               (fun _ => StxM.raise
                  (HTTPException 400
                     "Provided base64_image is not valid base64"))
      else
        StxM.raise
          (HTTPException 400 "No file/image_url/base64_image provided")
  end.

(** [s or default] on an [Optional[str]] *)
Definition or_default (s : option string) (d : string) : string :=
  if truthy s then match s with Some s => s | None => d end else d.

Definition upload_garment (file : option UploadFile)
    (image_url base64_image garment_type gender : option string)
    (do_remove_bg : option bool) : IO Response :=
  StxM.try_except
    (img_bytes <- read_input file image_url base64_image ;;
     im <- lift (pil_open_image img_bytes) ;;
     im <- lift (downscale_if_needed im MAX_DIMENSION) ;;
     im <- (match do_remove_bg with
            | Some true => lift (remove_background im true)
            | _ => StxM.ret im
            end) ;;
     b64_png <- lift (pil_to_base64_png im) ;;
     let data_url := ("data:image/png;base64," ++ b64_png)%string in
     StxM.ret (JSONResponse
                 (Garment b64_png data_url
                          (or_default garment_type "upper")
                          (or_default gender "male")) 200))%stx
    (fun exc =>
       match exc with
       | HTTPException _ _ => StxM.raise exc
       | _ => StxM.ret (JSONResponse (Error (str_exn exc)) 500)
       end).
End Upload.

(* ===================================================================== *)
(** ** Reference collaborators, for running the definitions *)
(* ===================================================================== *)

Module Reference.
(** Coordinate [i] brought back into [0, n - 1]: Pillow's rank filters
    replicate the border pixels. *)
Definition clamp (n : nat) (i : Z) : nat :=
  Z.to_nat (Z.max 0 (Z.min (Z.of_nat n - 1) i)).

Definition window (sz : nat * nat) (px : nat -> nat -> L) (x y : nat)
  : list L :=
  let '(w, h) := sz in
  flat_map (fun dy =>
    map (fun dx => px (clamp w (Z.of_nat x + dx)) (clamp h (Z.of_nat y + dy)))
        [-1; 0; 1]) [-1; 0; 1].

(** Pixels computed once, row by row, and read back. *)
Definition tabulate (sz : nat * nat) (f : nat -> nat -> L) : nat -> nat -> L :=
  let rows := map (fun y => map (fun x => f x y) (seq 0 (fst sz)))
                  (seq 0 (snd sz)) in
  fun x y => nth x (nth y rows []) 0.

(** [ImageFilter.MaxFilter(3)] and [ImageFilter.MinFilter(3)] *)
Definition max3 : Kernel :=
  fun sz px => Ok (tabulate sz (fun x y => fold_left Z.max (window sz px x y) 0)).

Definition min3 : Kernel :=
  fun sz px => Ok (tabulate sz (fun x y => fold_left Z.min (window sz px x y) 255)).

(** A 3x3 binomial kernel, standing for Pillow's Gaussian blur of radius 1. *)
Definition blur3 (sz : nat * nat) (px : nat -> nat -> L) : nat -> nat -> L :=
  tabulate sz (fun x y =>
    match window sz px x y with
    | [a; b; c; d; e; f; g; h; i] =>
        (a + 2 * b + c + 2 * d + 4 * e + 2 * f + g + 2 * h + i) / 16
    | _ => 0
    end).

(** Nearest-neighbour sampling, standing for the Lanczos resampling. *)
Definition nearest (im : Image RGBA) (sz : nat * nat) : nat -> nat -> RGBA :=
  fun x y => load im (x * width im / fst sz)%nat (y * height im / snd sz)%nat.

Definition unsupported : Kernel :=
  fun _ _ => Raise (OtherException "filter not supported").

Definition pillow : Pillow :=
  {| MaxFilter3 := max3; MinFilter3 := min3;
     GaussianBlur1 := blur3; LANCZOS := nearest |}.

(** A platform whose erosion raises. *)
Definition pillow_without_min : Pillow :=
  {| MaxFilter3 := max3; MinFilter3 := unsupported;
     GaussianBlur1 := blur3; LANCZOS := nearest |}.

(** A platform without rank filters. *)
Definition pillow_without_rank : Pillow :=
  {| MaxFilter3 := unsupported; MinFilter3 := unsupported;
     GaussianBlur1 := blur3; LANCZOS := nearest |}.

(** The text before the first colon, standing for [urlparse(u).scheme]. *)
Fixpoint scheme (u : string) : string :=
  match u with
  | EmptyString => EmptyString
  | String c rest =>
      if Ascii.eqb c ":"%char then EmptyString else String c (scheme rest)
  end.

(** A host without rembg and without network; its codec knows one image,
    encoded as no bytes at all. *)
Definition offline : Services :=
  {| REMBG_AVAILABLE := false;
     rembg_remove := fun _ => Raise (OtherException "rembg is not installed");
     save_PNG := fun _ => Ok [];
     Image_open_RGBA := fun _ => Raise UnidentifiedImageError;
     requests_get := fun _ => Raise (OtherException "network is unreachable");
     urlparse_scheme := scheme;
     b64decode := fun _ => Raise (OtherException "Incorrect padding");
     b64encode := fun _ => EmptyString |}.

(** A host whose rembg is installed and raises on every call. *)
Definition failing_rembg : Services :=
  {| REMBG_AVAILABLE := true;
     rembg_remove := fun _ => Raise (OtherException "onnxruntime error");
     save_PNG := fun _ => Ok [];
     Image_open_RGBA := fun _ => Raise UnidentifiedImageError;
     requests_get := fun _ => Raise (OtherException "network is unreachable");
     urlparse_scheme := scheme;
     b64decode := fun _ => Raise (OtherException "Incorrect padding");
     b64encode := fun _ => EmptyString |}.

(** A host whose codec shows which bytes it was given: an image file of
    [n] bytes is one pixel of red [n], saved as [n] bytes and encoded as
    [n] letters.  Its network delivers two bytes and its base64 decoder
    three. *)
Definition studio : Services :=
  {| REMBG_AVAILABLE := false;
     rembg_remove := fun _ => Raise (OtherException "rembg is not installed");
     save_PNG := fun im =>
       let '(r, _, _, _) := load im 0 0 in Ok (repeat Byte.x00 (Z.to_nat r));
     Image_open_RGBA := fun img_bytes =>
       Ok (Image_new (1, 1)%nat
             (Z.of_nat (List.length img_bytes), 0, 0, 255));
     requests_get := fun _ => Ok [Byte.x89; Byte.x50];
     urlparse_scheme := scheme;
     b64decode := fun _ => Ok [Byte.x89; Byte.x50; Byte.x4e];
     b64encode := fun png_bytes =>
       string_of_list_ascii (repeat "A"%char (List.length png_bytes)) |}.

Definition white : RGBA := (255, 255, 255, 255).
Definition red : RGBA := (255, 0, 0, 255).

(** A 4x4 white image with a red 2x2 square in the middle. *)
Definition red_square : Image RGBA :=
  of_rows white 4
    [ [white; white; white; white];
      [white; red; red; white];
      [white; red; red; white];
      [white; white; white; white] ].

(** A strip of 6x1 pixels whose corner means, at sample size 3, are 4/3
    and 2/3. *)
Definition strip : Image RGB :=
  of_rows (0, 0, 0) 6
    [ [(0, 0, 0); (1, 0, 0); (3, 0, 0); (0, 0, 0); (0, 0, 0); (2, 0, 0)] ].

(** A 3x3 mask with one foreground pixel in the middle. *)
Definition dot_mask : Image L :=
  of_rows 0 3 [ [0; 0; 0]; [0; 255; 0]; [0; 0; 0] ].
End Reference.

(* ===================================================================== *)
(** ** Notions used by the further properties *)
(* ===================================================================== *)

(** The number of pixels of value 255 in a mask of [w] by [h] pixels. *)
Definition count_foreground (mask : Image L) (w h : nat) : Z :=
  for_each_pixel w h
    (fun acc x y => acc + (if load mask x y =? 255 then 1 else 0)) 0.

(** The pixels the four crops of [estimate_background_color] read: within
    [sample_size] of the left or right border, and of the top or bottom
    border. *)
Definition in_corner (w h sample_size x y : nat) : Prop :=
  ((x < sample_size)%nat \/ (w - sample_size <= x)%nat) /\
  ((y < sample_size)%nat \/ (h - sample_size <= y)%nat).

(** [int(m * (MAX_DIMENSION / m))] on Python's floats: the side that
    [downscale_if_needed] requests for the larger side [m]. *)
Definition requested_larger_side (m : Z) : Z :=
  int_of_float (PyFloat := binary64)
    (fmul (float_of_int m) (truediv MAX_DIMENSION m)).

(** The requested side is 2047 or 2048 for the [n] sides from [m] on. *)
Fixpoint requested_sides_near_max (n : nat) (m : Z) : bool :=
  match n with
  | O => true
  | S n' =>
      ((requested_larger_side m =? 2047) || (requested_larger_side m =? 2048))
      && requested_sides_near_max n' (m + 1)
  end.

(** A call that does not raise [HTTPException]: true of Pillow, rembg,
    [base64] and [requests], which know nothing of FastAPI. *)
Definition no_HTTPException {A} (r : Result A) : Prop :=
  forall status_code detail, r <> Raise (HTTPException status_code detail).

(** What a client of [/upload] can observe: a JSON body with status 200 or
    500, or an [HTTPException] with status 400 or 413. *)
Definition upload_outcome (r : Result Response) : Prop :=
  match r with
  | Ok (JSONResponse (Garment _ _ _ _) 200) => True
  | Ok (JSONResponse (Error _) 500) => True
  | Raise (HTTPException 400 _) => True
  | Raise (HTTPException 413 _) => True
  | _ => False
  end.

(** An exception the endpoint lets through with a status it chose itself,
    or turns into the status 500: anything but an [HTTPException] with a
    status other than 400 and 413. *)
Definition expected_exception (e : exn) : Prop :=
  match e with
  | HTTPException status_code _ => status_code = 400 \/ status_code = 413
  | _ => True
  end.

(** A string without comma. *)
Fixpoint no_comma (s : string) : Prop :=
  match s with
  | EmptyString => True
  | String c rest => c <> ","%char /\ no_comma rest
  end.

(** The text of [base64_image] that is decoded: what follows the first
    comma of a data URL, the whole field otherwise; none for a data URL
    without comma. *)
Definition base64_payload (base64_image : string) : option string :=
  if String.prefix "data:" base64_image
  then match split_comma base64_image with
       | Some (_, b64) => Some b64
       | None => None
       end
  else Some base64_image.

Section UploadNotions.
Context {F : Type} `{PyFloat F} `{Pillow} `{Services}.

(** The endpoint once [img_bytes] is set, from
    [im = pil_open_image(img_bytes)] to the two [except] clauses. *)
Definition upload_from_bytes (img_bytes : bytes)
    (garment_type gender : option string) (do_remove_bg : option bool)
  : IO Response :=
  StxM.try_except
    (im <- lift (pil_open_image img_bytes) ;;
     im <- lift (downscale_if_needed im MAX_DIMENSION) ;;
     im <- (match do_remove_bg with
            | Some true => lift (remove_background im true)
            | _ => StxM.ret im
            end) ;;
     b64_png <- lift (pil_to_base64_png im) ;;
     let data_url := ("data:image/png;base64," ++ b64_png)%string in
     StxM.ret (JSONResponse
                 (Garment b64_png data_url
                          (or_default garment_type "upper")
                          (or_default gender "male")) 200))%stx
    (fun exc =>
       match exc with
       | HTTPException _ _ => StxM.raise exc
       | _ => StxM.ret (JSONResponse (Error (str_exn exc)) 500)
       end).
End UploadNotions.

(* ===================================================================== *)
(** ** Binary64 arithmetic: rounding is monotone *)
(* ===================================================================== *)

(** The float specification is written with the kernel's integer functions;
    [zstd] turns them into the library's, which they are convertible to. *)
Ltac zstd :=
  repeat match goal with
  | |- context [IntDef.Z.eqb ?a ?b] => change (IntDef.Z.eqb a b) with (Z.eqb a b)
  | |- context [IntDef.Z.leb ?a ?b] => change (IntDef.Z.leb a b) with (Z.leb a b)
  | |- context [IntDef.Z.compare ?a ?b] =>
      change (IntDef.Z.compare a b) with (Z.compare a b)
  | |- context [IntDef.Z.mul ?a ?b] => change (IntDef.Z.mul a b) with (Z.mul a b)
  | |- context [IntDef.Z.add ?a ?b] => change (IntDef.Z.add a b) with (Z.add a b)
  | |- context [IntDef.Z.sub ?a ?b] => change (IntDef.Z.sub a b) with (Z.sub a b)
  | |- context [IntDef.Z.min ?a ?b] => change (IntDef.Z.min a b) with (Z.min a b)
  | |- context [IntDef.Z.max ?a ?b] => change (IntDef.Z.max a b) with (Z.max a b)
  | |- context [IntDef.Z.even ?a] => change (IntDef.Z.even a) with (Z.even a)
  | |- context [IntDef.Z.shiftl ?a ?b] =>
      change (IntDef.Z.shiftl a b) with (Z.shiftl a b)
  | |- context [IntDef.Z.div_eucl ?a ?b] =>
      change (IntDef.Z.div_eucl a b) with (Z.div_eucl a b)
  end.

Lemma bpow_gt_0 e : (0 < bpow e)%R.
Proof. apply powerRZ_lt; lra. Qed.

Lemma bpow_add a b : bpow (a + b) = (bpow a * bpow b)%R.
Proof. apply powerRZ_add; lra. Qed.

Lemma bpow_IZR n : 0 <= n -> bpow n = IZR (2 ^ n).
Proof.
  intros Hn. unfold bpow. rewrite <- (Z2Nat.id n Hn).
  rewrite <- pow_powerRZ, pow_IZR. reflexivity.
Qed.

Lemma bpow_0 : bpow 0 = 1%R.
Proof. reflexivity. Qed.

Lemma bpow_opp_l e : (bpow (- e) * bpow e = 1)%R.
Proof. rewrite <- bpow_add. replace (- e + e) with 0 by lia. reflexivity. Qed.

Lemma bpow_opp_r e : (bpow e * bpow (- e) = 1)%R.
Proof. rewrite Rmult_comm. apply bpow_opp_l. Qed.

Lemma bpow_le a b : a <= b -> (bpow a <= bpow b)%R.
Proof.
  intros Hab. replace b with (a + (b - a)) by lia. rewrite bpow_add.
  rewrite (bpow_IZR (b - a)) by lia.
  assert (H1 : (1 <= IZR (2 ^ (b - a)))%R).
  { apply IZR_le. assert (0 < 2 ^ (b - a)) by (apply Z.pow_pos_nonneg; lia). lia. }
  pose proof (bpow_gt_0 a). nra.
Qed.

Lemma bpow_lt a b : a < b -> (bpow a < bpow b)%R.
Proof.
  intros Hab. replace b with (a + (b - a)) by lia. rewrite bpow_add.
  rewrite (bpow_IZR (b - a)) by lia.
  assert (H1 : (2 <= IZR (2 ^ (b - a)))%R).
  { apply IZR_le. replace (b - a) with (Z.succ (b - a - 1)) by lia.
    rewrite Z.pow_succ_r by lia.
    assert (0 < 2 ^ (b - a - 1)) by (apply Z.pow_pos_nonneg; lia). lia. }
  pose proof (bpow_gt_0 a). nra.
Qed.

(** Number of binary digits. *)
Lemma digits2_pos_bounds p :
  2 ^ (Z.pos (digits2_pos p) - 1) <= Z.pos p < 2 ^ Z.pos (digits2_pos p).
Proof.
  induction p as [p IH|p IH|]; cbn [digits2_pos].
  - rewrite Pos2Z.inj_succ.
    replace (Z.succ (Z.pos (digits2_pos p)) - 1)
      with (Z.succ (Z.pos (digits2_pos p) - 1)) by lia.
    rewrite !Z.pow_succ_r by lia. lia.
  - rewrite Pos2Z.inj_succ.
    replace (Z.succ (Z.pos (digits2_pos p)) - 1)
      with (Z.succ (Z.pos (digits2_pos p) - 1)) by lia.
    rewrite !Z.pow_succ_r by lia. lia.
  - simpl. lia.
Qed.

Lemma digits2_pos_unique p k :
  2 ^ (k - 1) <= Z.pos p < 2 ^ k -> Z.pos (digits2_pos p) = k.
Proof.
  intros [Hlo Hhi]. pose proof (digits2_pos_bounds p) as [Hlo' Hhi'].
  set (d := Z.pos (digits2_pos p)) in *.
  assert (Hk : 0 < k).
  { destruct (Z.ltb_spec 0 k); [assumption|].
    destruct (Z.eqb_spec k 0) as [->|]; [simpl in Hhi; lia|].
    rewrite (Z.pow_neg_r 2 k) in Hhi by lia. lia. }
  destruct (Z.lt_trichotomy d k) as [Hlt|[Heq|Hgt]]; [|exact Heq|].
  - assert (2 ^ d <= 2 ^ (k - 1)) by (apply Z.pow_le_mono_r; lia). lia.
  - assert (2 ^ k <= 2 ^ (d - 1)) by (apply Z.pow_le_mono_r; lia). lia.
Qed.

Lemma inb_bounds m x l : inb m x l -> (IZR m <= x < IZR m + 1)%R.
Proof. destruct l as [|[]]; simpl; lra. Qed.

Lemma inb_int m x l k : inb m x l -> x = IZR k -> m = k.
Proof.
  intros H ->. apply inb_bounds in H. destruct H as [Hl Hu].
  apply le_IZR in Hl.
  assert (k < m + 1) by (apply lt_IZR; rewrite plus_IZR; exact Hu).
  lia.
Qed.

Lemma loc_of_shr_record_of_loc m l :
  loc_of_shr_record (shr_record_of_loc m l) = l /\
  shr_m (shr_record_of_loc m l) = m.
Proof. destruct l as [|[]]; split; reflexivity. Qed.

Lemma shr_1_correct mrs x :
  0 <= shr_m mrs ->
  inb (shr_m mrs) x (loc_of_shr_record mrs) ->
  shr_m (shr_1 mrs) = shr_m mrs / 2 /\
  inb (shr_m (shr_1 mrs)) (x * / 2) (loc_of_shr_record (shr_1 mrs)).
Proof.
  destruct mrs as [m r s]. cbn [shr_m]. intros Hm Hx.
  destruct m as [|p|p]; [| |lia].
  - split; [reflexivity|].
    destruct r, s; simpl in *; lra.
  - destruct p as [p|p|].
    + split.
      { cbn [shr_1 shr_m]. rewrite Pos2Z.inj_xI.
        apply (Z.div_unique _ _ _ 1); lia. }
      assert (E : IZR (Z.pos p~1) = (2 * IZR (Z.pos p) + 1)%R).
      { rewrite Pos2Z.inj_xI, plus_IZR, mult_IZR. reflexivity. }
      destruct r, s; cbn [shr_1 shr_m loc_of_shr_record orb inb] in *;
        rewrite E in Hx; lra.
    + split.
      { cbn [shr_1 shr_m]. rewrite Pos2Z.inj_xO.
        apply (Z.div_unique _ _ _ 0); lia. }
      assert (E : IZR (Z.pos p~0) = (2 * IZR (Z.pos p))%R).
      { rewrite Pos2Z.inj_xO, mult_IZR. reflexivity. }
      destruct r, s; cbn [shr_1 shr_m loc_of_shr_record orb inb] in *;
        rewrite E in Hx; lra.
    + split; [reflexivity|].
      destruct r, s; cbn [shr_1 shr_m loc_of_shr_record orb inb] in *; lra.
Qed.

Lemma iter_pos_inv {A} (f : A -> A) (P : Z -> A -> Prop) :
  (forall k a, 0 <= k -> P k a -> P (k + 1) (f a)) ->
  forall p k a, 0 <= k -> P k a -> P (k + Z.pos p) (SpecFloat.iter_pos f p a).
Proof.
  intros Hstep. induction p as [p IH|p IH|]; intros k a Hk Ha; cbn [SpecFloat.iter_pos].
  - replace (k + Z.pos p~1) with (k + 1 + Z.pos p + Z.pos p) by lia.
    apply IH; [lia|]. apply IH; [lia|]. apply Hstep; assumption.
  - replace (k + Z.pos p~0) with (k + Z.pos p + Z.pos p) by lia.
    apply IH; [lia|]. apply IH; assumption.
  - apply Hstep; assumption.
Qed.

Lemma shr_correct m l e n x :
  0 <= m -> 0 <= n ->
  inb m x l ->
  exists mrs,
    shr (shr_record_of_loc m l) e n = (mrs, e + n) /\
    shr_m mrs = m / 2 ^ n /\
    inb (shr_m mrs) (x * bpow (- n)) (loc_of_shr_record mrs).
Proof.
  intros Hm Hn Hx.
  destruct (loc_of_shr_record_of_loc m l) as [El Em].
  destruct n as [|p|p]; [| |lia].
  - exists (shr_record_of_loc m l). cbn [shr].
    rewrite Z.add_0_r, El, Em, Z.pow_0_r, Z.div_1_r.
    change (bpow (- 0)) with 1%R. rewrite Rmult_1_r. auto.
  - exists (SpecFloat.iter_pos shr_1 p (shr_record_of_loc m l)). cbn [shr].
    split; [reflexivity|].
    pose (P := fun (k : Z) (mrs : shr_record) =>
                 shr_m mrs = m / 2 ^ k /\
                 inb (shr_m mrs) (x * bpow (- k)) (loc_of_shr_record mrs)).
    assert (HP : P (0 + Z.pos p) (SpecFloat.iter_pos shr_1 p (shr_record_of_loc m l))).
    { apply iter_pos_inv; [|lia|].
      - intros k a Hk [Ea Hina].
        assert (Hnn : 0 <= shr_m a).
        { rewrite Ea. apply Z.div_pos; [lia|]. apply Z.pow_pos_nonneg; lia. }
        destruct (shr_1_correct a _ Hnn Hina) as [E1 H1]. split.
        + rewrite E1, Ea, Z.pow_add_r, Z.pow_1_r by lia.
          rewrite Z.div_div; try lia.
        + replace (- (k + 1)) with (- k + - 1) by lia.
          rewrite bpow_add, <- Rmult_assoc.
          replace (bpow (- 1)) with (/ 2)%R; [exact H1|].
          unfold bpow. simpl. lra.
      - unfold P. rewrite El, Em, Z.pow_0_r, Z.div_1_r.
        change (bpow (- 0)) with 1%R. rewrite Rmult_1_r. auto. }
    exact HP.
Qed.

(** Rounding to nearest, ties to even, on a located integer. *)
Lemma rne_cases m l :
  round_nearest_even m l = m \/ round_nearest_even m l = m + 1.
Proof. destruct l as [|[]]; simpl; auto. destruct (Z.even m); auto. Qed.

Lemma rne_mono m1 x1 l1 m2 x2 l2 :
  inb m1 x1 l1 -> inb m2 x2 l2 -> (x1 <= x2)%R ->
  round_nearest_even m1 l1 <= round_nearest_even m2 l2.
Proof.
  intros H1 H2 Hx.
  destruct (Z.lt_trichotomy m1 m2) as [Hlt|[Heq|Hgt]].
  - destruct (rne_cases m1 l1), (rne_cases m2 l2); lia.
  - subst m2.
    destruct l1 as [|[]], l2 as [|[]]; simpl in *;
      try (exfalso; lra); destruct (Z.even m1); lia.
  - exfalso. apply inb_bounds in H1, H2.
    assert (IZR (m2 + 1) <= IZR m1)%R by (apply IZR_le; lia).
    rewrite plus_IZR in *. lra.
Qed.

Lemma rne_le_int m x l N :
  inb m x l -> (x <= IZR N)%R -> round_nearest_even m l <= N.
Proof.
  intros H Hx. destruct (Z_lt_le_dec m N) as [Hlt|Hge].
  - destruct (rne_cases m l); lia.
  - assert (IZR N <= IZR m)%R by (apply IZR_le; lia).
    assert (N = m).
    { apply eq_IZR. apply inb_bounds in H. lra. }
    subst N. destruct l as [|[]]; simpl in *; try (exfalso; lra). lia.
Qed.

Lemma rne_ge_int m x l N :
  inb m x l -> (IZR N <= x)%R -> N <= round_nearest_even m l.
Proof.
  intros H Hx.
  assert (N < m + 1).
  { apply lt_IZR. rewrite plus_IZR. apply inb_bounds in H. lra. }
  destruct (rne_cases m l); lia.
Qed.

Lemma fexp_normal e : -1021 <= e -> fexp prec emax e = e - 53.
Proof. intros He. unfold fexp, SpecFloat.emin, prec, emax. lia. Qed.

Lemma shr_fexp_correct p e l x :
  53 <= Z.pos (digits2_pos p) ->
  -1021 <= Z.pos (digits2_pos p) + e ->
  inb (Z.pos p) (x * bpow (- e)) l ->
  exists mrs,
    shr_fexp prec emax (Z.pos p) e l
    = (mrs, Z.pos (digits2_pos p) + e - 53) /\
    2 ^ 52 <= shr_m mrs < 2 ^ 53 /\
    inb (shr_m mrs) (x * bpow (- (Z.pos (digits2_pos p) + e - 53)))
        (loc_of_shr_record mrs).
Proof.
  intros Hd He Hx. unfold shr_fexp. cbn [Zdigits2].
  set (d := Z.pos (digits2_pos p)) in *.
  rewrite fexp_normal by exact He.
  replace (d + e - 53 - e) with (d - 53) by lia.
  destruct (shr_correct (Z.pos p) l e (d - 53) _ ltac:(lia) ltac:(lia) Hx)
    as [mrs [E [Em Hin]]].
  exists mrs. replace (d + e - 53) with (e + (d - 53)) by lia.
  split; [exact E|]. split.
  - rewrite Em. pose proof (digits2_pos_bounds p) as [Hlo Hhi]. fold d in Hlo, Hhi.
    assert (Hn : 0 < 2 ^ (d - 53)) by (apply Z.pow_pos_nonneg; lia).
    split.
    + apply Z.div_le_lower_bound; [exact Hn|].
      rewrite <- Z.pow_add_r by lia.
      replace (d - 53 + 52) with (d - 1) by lia. exact Hlo.
    + apply Z.div_lt_upper_bound; [exact Hn|].
      rewrite <- Z.pow_add_r by lia.
      replace (d - 53 + 53) with d by lia. exact Hhi.
  - replace (- (e + (d - 53))) with (- e + - (d - 53)) by lia.
    rewrite bpow_add, <- Rmult_assoc. exact Hin.
Qed.

Lemma binary_round_aux_correct p e l x :
  53 <= Z.pos (digits2_pos p) ->
  -1021 <= Z.pos (digits2_pos p) + e <= 1023 ->
  inb (Z.pos p) (x * bpow (- e)) l ->
  exists m0 l0,
    2 ^ 52 <= m0 < 2 ^ 53 /\
    inb m0 (x * bpow (- (Z.pos (digits2_pos p) + e - 53))) l0 /\
    binary_round_aux prec emax false (Z.pos p) e l
    = pack64 (round_nearest_even m0 l0) (Z.pos (digits2_pos p) + e - 53).
Proof.
  intros Hd He Hx.
  destruct (shr_fexp_correct p e l x Hd ltac:(lia) Hx) as [mrs [E [Hb Hin]]].
  set (e0 := Z.pos (digits2_pos p) + e - 53) in *.
  exists (shr_m mrs), (loc_of_shr_record mrs).
  split; [exact Hb|]. split; [exact Hin|].
  unfold binary_round_aux. rewrite E.
  remember (round_nearest_even (shr_m mrs) (loc_of_shr_record mrs)) as m2 eqn:Em2.
  assert (Hm2 : 2 ^ 52 <= m2 <= 2 ^ 53).
  { destruct (rne_cases (shr_m mrs) (loc_of_shr_record mrs)); lia. }
  destruct m2 as [|p2|p2]; [lia| |lia].
  assert (Hx2 : inb (Z.pos p2) ((IZR (Z.pos p2) * bpow e0) * bpow (- e0)) loc_Exact).
  { simpl. rewrite Rmult_assoc, bpow_opp_r. lra. }
  unfold pack64.
  destruct (Z.eqb_spec (Z.pos p2) (2 ^ 53)) as [Eq|Hne].
  - assert (Ed : Z.pos (digits2_pos p2) = 54).
    { apply digits2_pos_unique. rewrite Eq. simpl. lia. }
    destruct (shr_fexp_correct p2 e0 loc_Exact _ ltac:(lia) ltac:(lia) Hx2)
      as [mrs2 [E2 [Hb2 Hin2]]].
    rewrite E2, Ed.
    assert (Em : shr_m mrs2 = 2 ^ 52).
    { apply (inb_int _ _ _ _ Hin2). rewrite Ed, Eq.
      replace (- (54 + e0 - 53)) with (- e0 + - 1) by lia.
      rewrite bpow_add, <- Rmult_assoc, (Rmult_assoc _ (bpow e0)),
        bpow_opp_r, Rmult_1_r.
      replace (bpow (- 1)) with (/ 2)%R by (unfold bpow; simpl; lra).
      replace (IZR (2 ^ 53)) with (2 * IZR (2 ^ 52))%R
        by (rewrite <- mult_IZR; reflexivity).
      lra. }
    rewrite Em.
    change (2 ^ 52) with (Z.pos (Z.to_pos (2 ^ 52))).
    cbv iota beta.
    replace (54 + e0 - 53) with (e0 + 1) by lia.
    destruct (Z.leb_spec (e0 + 1) (emax - prec)) as [_|Hbad]; [reflexivity|].
    unfold emax, prec in Hbad. lia.
  - assert (Ed : Z.pos (digits2_pos p2) = 53).
    { apply digits2_pos_unique. simpl in *. lia. }
    destruct (shr_fexp_correct p2 e0 loc_Exact _ ltac:(lia) ltac:(lia) Hx2)
      as [mrs2 [E2 [Hb2 Hin2]]].
    rewrite E2, Ed.
    assert (Em : shr_m mrs2 = Z.pos p2).
    { apply (inb_int _ _ _ _ Hin2). rewrite Ed.
      replace (53 + e0 - 53) with e0 by lia.
      rewrite Rmult_assoc, bpow_opp_r, Rmult_1_r. reflexivity. }
    rewrite Em. cbv iota beta.
    replace (53 + e0 - 53) with e0 by lia.
    destruct (Z.leb_spec e0 (emax - prec)) as [_|Hbad]; [reflexivity|].
    unfold emax, prec in Hbad. lia.
Qed.

Lemma bpow_succ e : bpow (e + 1) = (2 * bpow e)%R.
Proof. rewrite bpow_add. unfold bpow at 2. simpl. lra. Qed.

Lemma IZR_2_53 : IZR (2 ^ 53) = (2 * IZR (2 ^ 52))%R.
Proof. rewrite <- mult_IZR. reflexivity. Qed.

Lemma IZR_2_52_pos : (0 < IZR (2 ^ 52))%R.
Proof. apply IZR_lt. reflexivity. Qed.

Lemma pack_spec m e :
  2 ^ 52 <= m <= 2 ^ 53 -> -1074 <= e <= 970 ->
  normal64 (pack64 m e) /\ SF2R (pack64 m e) = (IZR m * bpow e)%R.
Proof.
  intros Hm He. unfold pack64.
  destruct (Z.eqb_spec m (2 ^ 53)) as [->|Hne].
  - split.
    + exists (Z.to_pos (2 ^ 52)), (e + 1). split; [reflexivity|].
      split; [simpl; lia | lia].
    + cbn [SF2R]. change (Z.pos (Z.to_pos (2 ^ 52))) with (2 ^ 52).
      rewrite bpow_succ, IZR_2_53. lra.
  - assert (Hpos : Z.pos (Z.to_pos m) = m) by (apply Z2Pos.id; lia).
    split.
    + exists (Z.to_pos m), e. split; [reflexivity|]. rewrite Hpos. lia.
    + cbn [SF2R]. rewrite Hpos. reflexivity.
Qed.

Lemma inb_scale m x e l :
  inb m (x * bpow (- e)) l ->
  (IZR m * bpow e <= x < (IZR m + 1) * bpow e)%R.
Proof.
  intros H. apply inb_bounds in H.
  pose proof (bpow_gt_0 (- e)) as Hp.
  split.
  - apply Rmult_le_reg_r with (bpow (- e)); [exact Hp|].
    rewrite Rmult_assoc, bpow_opp_r. lra.
  - apply Rmult_lt_reg_r with (bpow (- e)); [exact Hp|].
    rewrite (Rmult_assoc (IZR m + 1)), bpow_opp_r. lra.
Qed.

Lemma Rounds_inv x f :
  Rounds x f ->
  exists m0 e0 l0,
    2 ^ 52 <= m0 < 2 ^ 53 /\ -1074 <= e0 <= 970 /\
    inb m0 (x * bpow (- e0)) l0 /\
    normal64 f /\
    SF2R f = (IZR (round_nearest_even m0 l0) * bpow e0)%R /\
    m0 <= round_nearest_even m0 l0 <= m0 + 1.
Proof.
  intros [m0 [e0 [l0 [Hm [He [Hin ->]]]]]].
  exists m0, e0, l0.
  assert (Hr : m0 <= round_nearest_even m0 l0 <= m0 + 1)
    by (destruct (rne_cases m0 l0); lia).
  destruct (pack_spec (round_nearest_even m0 l0) e0 ltac:(lia) He) as [Hn Hv].
  repeat split; try assumption; lia.
Qed.

Lemma Rounds_normal x f : Rounds x f -> normal64 f.
Proof.
  intros H. destruct (Rounds_inv x f H) as [? [? [? [_ [_ [_ [Hn _]]]]]]].
  exact Hn.
Qed.

(** Rounding is monotone. *)
Lemma Rounds_mono x1 f1 x2 f2 :
  Rounds x1 f1 -> Rounds x2 f2 -> (x1 <= x2)%R -> (SF2R f1 <= SF2R f2)%R.
Proof.
  intros H1 H2 Hx.
  destruct (Rounds_inv _ _ H1) as [m1 [e1 [l1 [Hm1 [He1 [Hin1 [_ [-> Hr1]]]]]]]].
  destruct (Rounds_inv _ _ H2) as [m2 [e2 [l2 [Hm2 [He2 [Hin2 [_ [-> Hr2]]]]]]]].
  pose proof (inb_scale _ _ _ _ Hin1) as Hs1.
  pose proof (inb_scale _ _ _ _ Hin2) as Hs2.
  pose proof (bpow_gt_0 e1) as Hp1. pose proof (bpow_gt_0 e2) as Hp2.
  pose proof IZR_2_53 as E53. pose proof IZR_2_52_pos as P52.
  assert (B1l : (IZR (2 ^ 52) <= IZR m1)%R) by (apply IZR_le; lia).
  assert (B1u : (IZR m1 + 1 <= IZR (2 ^ 53))%R)
    by (rewrite <- plus_IZR; apply IZR_le; lia).
  assert (B2l : (IZR (2 ^ 52) <= IZR m2)%R) by (apply IZR_le; lia).
  assert (B2u : (IZR m2 + 1 <= IZR (2 ^ 53))%R)
    by (rewrite <- plus_IZR; apply IZR_le; lia).
  assert (R1u : (IZR (round_nearest_even m1 l1) <= IZR m1 + 1)%R)
    by (rewrite <- plus_IZR; apply IZR_le; lia).
  assert (R2l : (IZR m2 <= IZR (round_nearest_even m2 l2))%R)
    by (apply IZR_le; lia).
  destruct (Z.lt_trichotomy e1 e2) as [Hlt|[Heq|Hgt]].
  - assert (Hb : (2 * bpow e1 <= bpow e2)%R).
    { rewrite <- bpow_succ. apply bpow_le. lia. }
    apply Rle_trans with (IZR (2 ^ 53) * bpow e1)%R.
    + apply Rmult_le_compat_r; lra.
    + apply Rle_trans with (IZR (2 ^ 52) * bpow e2)%R.
      * rewrite E53. nra.
      * apply Rmult_le_compat_r; lra.
  - subst e2. apply Rmult_le_compat_r; [lra|]. apply IZR_le.
    apply (rne_mono _ _ _ _ _ _ Hin1 Hin2).
    apply Rmult_le_compat_r; [|exact Hx]. pose proof (bpow_gt_0 (- e1)). lra.
  - exfalso.
    assert (Hb : (2 * bpow e2 <= bpow e1)%R).
    { rewrite <- bpow_succ. apply bpow_le. lia. }
    assert (x2 < IZR (2 ^ 53) * bpow e2)%R.
    { apply Rlt_le_trans with ((IZR m2 + 1) * bpow e2)%R; [lra|].
      apply Rmult_le_compat_r; lra. }
    assert (IZR (2 ^ 52) * bpow e1 <= x1)%R.
    { apply Rle_trans with (IZR m1 * bpow e1)%R; [|lra].
      apply Rmult_le_compat_r; lra. }
    rewrite E53 in *. nra.
Qed.

(** A rounded value stays on its side of a float [N * 2^k]. *)
Lemma Rounds_le x f N k :
  Rounds x f -> 0 <= N <= 2 ^ 53 -> (x <= IZR N * bpow k)%R ->
  (SF2R f <= IZR N * bpow k)%R.
Proof.
  intros H HN Hx.
  destruct (Rounds_inv _ _ H) as [m0 [e0 [l0 [Hm [He [Hin [_ [-> Hr]]]]]]]].
  pose proof (inb_scale _ _ _ _ Hin) as Hs.
  pose proof (bpow_gt_0 e0) as Hp. pose proof (bpow_gt_0 k) as Hpk.
  pose proof IZR_2_53 as E53. pose proof IZR_2_52_pos as P52.
  assert (Bl : (IZR (2 ^ 52) <= IZR m0)%R) by (apply IZR_le; lia).
  assert (BN : (IZR N <= IZR (2 ^ 53))%R) by (apply IZR_le; lia).
  assert (BN0 : (0 <= IZR N)%R) by (apply IZR_le; lia).
  destruct (Z_le_gt_dec e0 k) as [Hle|Hgt].
  - assert (E : (IZR N * bpow k = IZR (N * 2 ^ (k - e0)) * bpow e0)%R).
    { rewrite mult_IZR, <- bpow_IZR by lia. rewrite Rmult_assoc, <- bpow_add.
      replace (k - e0 + e0) with k by lia. reflexivity. }
    rewrite E. apply Rmult_le_compat_r; [lra|]. apply IZR_le.
    apply (rne_le_int _ _ _ _ Hin).
    rewrite mult_IZR, <- bpow_IZR by lia.
    replace (k - e0) with (k + - e0) by lia. rewrite bpow_add, <- Rmult_assoc.
    apply Rmult_le_compat_r; [|exact Hx]. pose proof (bpow_gt_0 (- e0)). lra.
  - assert (Hb : (2 * bpow k <= bpow e0)%R).
    { rewrite <- bpow_succ. apply bpow_le. lia. }
    assert (Hy : (IZR N * bpow k <= IZR (2 ^ 52) * bpow e0)%R).
    { rewrite E53 in BN. nra. }
    assert (Hx0 : (x * bpow (- e0) <= IZR (2 ^ 52))%R).
    { apply Rmult_le_reg_r with (bpow e0); [exact Hp|].
      rewrite Rmult_assoc, bpow_opp_l. lra. }
    pose proof (rne_le_int _ _ _ _ Hin Hx0) as Hrn.
    apply IZR_le in Hrn.
    assert (IZR (round_nearest_even m0 l0) * bpow e0 <= IZR (2 ^ 52) * bpow e0)%R
      by (apply Rmult_le_compat_r; lra).
    assert (IZR (2 ^ 52) * bpow e0 <= IZR m0 * bpow e0)%R
      by (apply Rmult_le_compat_r; lra).
    lra.
Qed.

Lemma Rounds_ge x f N k :
  Rounds x f -> 0 <= N <= 2 ^ 53 -> (IZR N * bpow k <= x)%R ->
  (IZR N * bpow k <= SF2R f)%R.
Proof.
  intros H HN Hx.
  destruct (Rounds_inv _ _ H) as [m0 [e0 [l0 [Hm [He [Hin [_ [-> Hr]]]]]]]].
  pose proof (inb_scale _ _ _ _ Hin) as Hs.
  pose proof (bpow_gt_0 e0) as Hp. pose proof (bpow_gt_0 k) as Hpk.
  pose proof IZR_2_53 as E53. pose proof IZR_2_52_pos as P52.
  assert (Bl : (IZR (2 ^ 52) <= IZR m0)%R) by (apply IZR_le; lia).
  assert (BN : (IZR N <= IZR (2 ^ 53))%R) by (apply IZR_le; lia).
  assert (BN0 : (0 <= IZR N)%R) by (apply IZR_le; lia).
  assert (Rl : (IZR m0 <= IZR (round_nearest_even m0 l0))%R)
    by (apply IZR_le; lia).
  destruct (Z_le_gt_dec e0 k) as [Hle|Hgt].
  - assert (E : (IZR N * bpow k = IZR (N * 2 ^ (k - e0)) * bpow e0)%R).
    { rewrite mult_IZR, <- bpow_IZR by lia. rewrite Rmult_assoc, <- bpow_add.
      replace (k - e0 + e0) with k by lia. reflexivity. }
    rewrite E. apply Rmult_le_compat_r; [lra|]. apply IZR_le.
    apply (rne_ge_int _ _ _ _ Hin).
    rewrite mult_IZR, <- bpow_IZR by lia.
    replace (k - e0) with (k + - e0) by lia. rewrite bpow_add, <- Rmult_assoc.
    apply Rmult_le_compat_r; [|exact Hx]. pose proof (bpow_gt_0 (- e0)). lra.
  - assert (Hb : (2 * bpow k <= bpow e0)%R).
    { rewrite <- bpow_succ. apply bpow_le. lia. }
    assert (Hy : (IZR N * bpow k <= IZR (2 ^ 52) * bpow e0)%R).
    { rewrite E53 in BN. nra. }
    assert (IZR (2 ^ 52) * bpow e0 <= IZR (round_nearest_even m0 l0) * bpow e0)%R
      by (apply Rmult_le_compat_r; lra).
    lra.
Qed.

Lemma normal_pos f : normal64 f -> (0 < SF2R f)%R.
Proof.
  intros [m [e [-> [Hm _]]]]. cbn [SF2R].
  apply Rmult_lt_0_compat; [apply IZR_lt; lia | apply bpow_gt_0].
Qed.

Lemma good_nonneg f : good64 f -> (0 <= SF2R f)%R.
Proof.
  intros [->|Hn]; [simpl; lra|]. apply normal_pos in Hn. lra.
Qed.

(** On such floats the comparison is the comparison of the values. *)
Lemma SFcompare_normal f1 f2 :
  normal64 f1 -> normal64 f2 ->
  match SFcompare f1 f2 with
  | Some Lt => (SF2R f1 < SF2R f2)%R
  | Some Eq => SF2R f1 = SF2R f2
  | Some Gt => (SF2R f2 < SF2R f1)%R
  | None => False
  end.
Proof.
  intros [m1 [e1 [-> [Hm1 _]]]] [m2 [e2 [-> [Hm2 _]]]].
  cbn [SFcompare SF2R].
  pose proof (bpow_gt_0 e1) as Hp1. pose proof (bpow_gt_0 e2) as Hp2.
  pose proof IZR_2_53 as E53. pose proof IZR_2_52_pos as P52.
  assert (B1l : (IZR (2 ^ 52) <= IZR (Z.pos m1))%R) by (apply IZR_le; lia).
  assert (B1u : (IZR (Z.pos m1) < IZR (2 ^ 53))%R) by (apply IZR_lt; lia).
  assert (B2l : (IZR (2 ^ 52) <= IZR (Z.pos m2))%R) by (apply IZR_le; lia).
  assert (B2u : (IZR (Z.pos m2) < IZR (2 ^ 53))%R) by (apply IZR_lt; lia).
  destruct (Z.compare_spec e1 e2) as [Heq|Hlt|Hgt].
  - subst e2. change (Pos.compare_cont Eq m1 m2) with (Pos.compare m1 m2).
    destruct (Pos.compare_spec m1 m2) as [Hm|Hm|Hm].
    + subst m2. reflexivity.
    + apply Rmult_lt_compat_r; [exact Hp1|]. apply IZR_lt. lia.
    + apply Rmult_lt_compat_r; [exact Hp1|]. apply IZR_lt. lia.
  - assert (Hb : (2 * bpow e1 <= bpow e2)%R).
    { rewrite <- bpow_succ. apply bpow_le. lia. }
    rewrite E53 in *. nra.
  - assert (Hb : (2 * bpow e2 <= bpow e1)%R).
    { rewrite <- bpow_succ. apply bpow_le. lia. }
    rewrite E53 in *. nra.
Qed.

Lemma SFcompare_good f1 f2 :
  good64 f1 -> good64 f2 ->
  match SFcompare f1 f2 with
  | Some Lt => (SF2R f1 < SF2R f2)%R
  | Some Eq => SF2R f1 = SF2R f2
  | Some Gt => (SF2R f2 < SF2R f1)%R
  | None => False
  end.
Proof.
  intros [->|H1] [->|H2].
  - simpl. reflexivity.
  - pose proof (normal_pos _ H2). destruct H2 as [m [e [-> _]]].
    cbn [SFcompare]. exact H.
  - pose proof (normal_pos _ H1). destruct H1 as [m [e [-> _]]].
    cbn [SFcompare]. exact H.
  - apply SFcompare_normal; assumption.
Qed.

Lemma SFltb_false f1 f2 :
  good64 f1 -> good64 f2 -> (SF2R f2 <= SF2R f1)%R -> SFltb f1 f2 = false.
Proof.
  intros H1 H2 Hle. pose proof (SFcompare_good f1 f2 H1 H2) as Hc.
  unfold SFltb. destruct (SFcompare f1 f2) as [[]|]; try reflexivity.
  exfalso. lra.
Qed.

Lemma SFleb_true f1 f2 :
  good64 f1 -> good64 f2 -> (SF2R f1 <= SF2R f2)%R -> SFleb f1 f2 = true.
Proof.
  intros H1 H2 Hle. pose proof (SFcompare_good f1 f2 H1 H2) as Hc.
  unfold SFleb. destruct (SFcompare f1 f2) as [[]|]; try reflexivity.
  - exfalso. lra.
  - contradiction.
Qed.

(** Shifting a mantissa to the left. *)
Lemma iter_xO p k : Z.pos (Pos.iter xO p k) = Z.pos p * 2 ^ Z.pos k.
Proof.
  induction k as [|k IH] using Pos.peano_ind.
  - simpl. lia.
  - rewrite Pos.iter_succ, Pos2Z.inj_xO, IH, Pos2Z.inj_succ.
    rewrite Z.pow_succ_r by lia. lia.
Qed.

Lemma shl_align_fst m e e' :
  e' <= e -> Z.pos (fst (shl_align m e e')) = Z.pos m * 2 ^ (e - e') /\
             snd (shl_align m e e') = e'.
Proof.
  intros Hle. unfold shl_align.
  destruct (e' - e) as [|d|d] eqn:Ed; try lia.
  - assert (e' = e) by lia. subst e'. cbn [fst snd].
    rewrite Z.sub_diag. simpl. lia.
  - cbn [fst snd]. rewrite iter_xO. replace (e - e') with (Z.pos d) by lia. auto.
Qed.

(** [binary_round] rounds [m * 2^e] to the nearest float. *)
Lemma binary_round_correct p e :
  -1021 <= Z.pos (digits2_pos p) + e <= 1023 ->
  Rounds (IZR (Z.pos p) * bpow e) (binary_round prec emax false p e).
Proof.
  intros He. unfold binary_round.
  rewrite fexp_normal by lia.
  set (d := Z.pos (digits2_pos p)) in *.
  destruct (Z_lt_le_dec d 53) as [Hlt|Hge].
  - destruct (shl_align_fst p e (d + e - 53) ltac:(lia)) as [Ef Es].
    destruct (shl_align p e (d + e - 53)) as [mz ez]. cbn [fst snd] in Ef, Es.
    subst ez. replace (e - (d + e - 53)) with (53 - d) in Ef by lia.
    assert (Hdz : Z.pos (digits2_pos mz) = 53).
    { apply digits2_pos_unique. rewrite Ef.
      pose proof (digits2_pos_bounds p) as [Hlo Hhi]. fold d in Hlo, Hhi.
      replace (2 ^ (53 - 1)) with (2 ^ (d - 1) * 2 ^ (53 - d))
        by (rewrite <- Z.pow_add_r by lia; f_equal; lia).
      replace (2 ^ 53) with (2 ^ d * 2 ^ (53 - d))
        by (rewrite <- Z.pow_add_r by lia; f_equal; lia).
      assert (0 < 2 ^ (53 - d)) by (apply Z.pow_pos_nonneg; lia). nia. }
    destruct (binary_round_aux_correct mz (d + e - 53) loc_Exact
                (IZR (Z.pos p) * bpow e)) as [m0 [l0 [Hm [Hin E]]]].
    + lia.
    + lia.
    + cbn [inb]. rewrite Ef, mult_IZR, <- bpow_IZR by lia.
      rewrite Rmult_assoc, <- bpow_add.
      replace (e + - (d + e - 53)) with (53 - d) by lia. reflexivity.
    + rewrite E. exists m0, (Z.pos (digits2_pos mz) + (d + e - 53) - 53), l0.
      repeat split; try assumption; lia.
  - unfold shl_align.
    destruct (d + e - 53 - e) as [|k|k] eqn:Ek; try lia.
    + destruct (binary_round_aux_correct p e loc_Exact
                  (IZR (Z.pos p) * bpow e)) as [m0 [l0 [Hm [Hin E]]]].
      * exact Hge.
      * exact He.
      * cbn [inb]. rewrite Rmult_assoc, bpow_opp_r. lra.
      * rewrite E. exists m0, (Z.pos (digits2_pos p) + e - 53), l0.
        repeat split; try assumption; fold d; lia.
    + destruct (binary_round_aux_correct p e loc_Exact
                  (IZR (Z.pos p) * bpow e)) as [m0 [l0 [Hm [Hin E]]]].
      * exact Hge.
      * exact He.
      * cbn [inb]. rewrite Rmult_assoc, bpow_opp_r. lra.
      * rewrite E. exists m0, (Z.pos (digits2_pos p) + e - 53), l0.
        repeat split; try assumption; fold d; lia.
Qed.

(** An integer below 2^53 is its own float. *)
Lemma Rounds_exact x f N :
  Rounds x f -> 0 <= N <= 2 ^ 53 -> x = IZR N -> SF2R f = IZR N.
Proof.
  intros H HN ->.
  pose proof (Rounds_le _ _ N 0 H HN) as Hle.
  pose proof (Rounds_ge _ _ N 0 H HN) as Hge.
  rewrite bpow_0, Rmult_1_r in Hle, Hge.
  apply Rle_antisym; [apply Hle | apply Hge]; lra.
Qed.

Lemma binary_normalize_int z :
  0 < z <= 2 ^ 53 ->
  normal64 (binary_normalize prec emax z 0 false) /\
  SF2R (binary_normalize prec emax z 0 false) = IZR z.
Proof.
  intros Hz. destruct z as [|p|p]; try lia. cbn [binary_normalize].
  assert (Hd : 1 <= Z.pos (digits2_pos p) <= 54).
  { pose proof (digits2_pos_bounds p) as [Hlo Hhi].
    assert (Z.pos (digits2_pos p) - 1 < 54).
    { apply (Z.pow_lt_mono_r_iff 2); [lia|lia|].
      change (2 ^ 54) with (2 * 2 ^ 53). lia. }
    lia. }
  pose proof (binary_round_correct p 0 ltac:(lia)) as Hr.
  rewrite bpow_0, Rmult_1_r in Hr.
  split; [exact (Rounds_normal _ _ Hr)|].
  apply (Rounds_exact _ _ _ Hr); [lia | reflexivity].
Qed.

Lemma new_location_correct n q r :
  0 < n -> 0 <= r < n ->
  inb q (IZR q + IZR r / IZR n) (new_location n r).
Proof.
  intros Hn Hr.
  assert (Pn : (0 < IZR n)%R) by (apply IZR_lt; lia).
  assert (Ey : (IZR r / IZR n * IZR n = IZR r)%R) by (field; lra).
  set (y := (IZR r / IZR n)%R) in *. clearbody y.
  assert (Hlt : forall a b : Z, a < b -> (IZR a < IZR b)%R) by (intros; apply IZR_lt; assumption).
  assert (Hy1 : (y < 1)%R).
  { apply Rmult_lt_reg_r with (IZR n); [exact Pn|]. rewrite Ey, Rmult_1_l.
    apply IZR_lt. lia. }
  assert (Hhalf : forall c, (2 * r ?= n) = c ->
            match c with
            | Lt => (y < / 2)%R
            | Eq => y = (/ 2)%R
            | Gt => (/ 2 < y)%R
            end).
  { intros c <-. destruct (Z.compare_spec (2 * r) n) as [H|H|H].
    - apply Rmult_eq_reg_r with (IZR n); [|lra]. rewrite Ey, <- H, mult_IZR. lra.
    - apply Rmult_lt_reg_r with (IZR n); [exact Pn|]. rewrite Ey.
      apply IZR_lt in H. rewrite mult_IZR in H. lra.
    - apply Rmult_lt_reg_r with (IZR n); [exact Pn|]. rewrite Ey.
      apply IZR_lt in H. rewrite mult_IZR in H. lra. }
  unfold new_location. zstd.
  destruct (Z.even n) eqn:Hev; unfold new_location_even, new_location_odd; zstd.
  - destruct (Z.eqb_spec r 0) as [E0|Hne].
    + assert (y = 0%R)
        by (apply Rmult_eq_reg_r with (IZR n); [rewrite Ey, E0; lra | lra]).
      cbn [inb]. lra.
    + assert (Hy0 : (0 < y)%R).
      { apply Rmult_lt_reg_r with (IZR n); [exact Pn|]. rewrite Ey, Rmult_0_l.
        apply IZR_lt. lia. }
      pose proof (Hhalf _ eq_refl) as Hh.
      destruct (2 * r ?= n); cbn [inb]; lra.
  - destruct (Z.eqb_spec r 0) as [E0|Hne].
    + assert (y = 0%R)
        by (apply Rmult_eq_reg_r with (IZR n); [rewrite Ey, E0; lra | lra]).
      cbn [inb]. lra.
    + assert (Hy0 : (0 < y)%R).
      { apply Rmult_lt_reg_r with (IZR n); [exact Pn|]. rewrite Ey, Rmult_0_l.
        apply IZR_lt. lia. }
      assert (Hodd : 2 * r <> n).
      { intros <-. rewrite Z.even_mul in Hev. discriminate. }
      pose proof (Hhalf _ eq_refl) as Hh.
      destruct (Z.compare_spec (2 * r + 1) n) as [H|H|H];
        destruct (Z.compare_spec (2 * r) n) as [H'|H'|H'];
        try lia; cbn [inb]; lra.
Qed.

Lemma normal_digits m : 2 ^ 52 <= Z.pos m < 2 ^ 53 -> Z.pos (digits2_pos m) = 53.
Proof. intros H. apply digits2_pos_unique. exact H. Qed.

(** The quotient of two normal64 floats is rounded to the nearest float. *)
Lemma SFdiv_correct m1 e1 m2 e2 :
  2 ^ 52 <= Z.pos m1 < 2 ^ 53 -> 2 ^ 52 <= Z.pos m2 < 2 ^ 53 ->
  -1021 <= e1 - e2 <= 1022 ->
  Rounds (IZR (Z.pos m1) * bpow e1 / (IZR (Z.pos m2) * bpow e2))
         (SFdiv prec emax (S754_finite false m1 e1) (S754_finite false m2 e2)).
Proof.
  intros Hm1 Hm2 He.
  cbn [SFdiv xorb]. unfold SFdiv_core_binary. cbn [Zdigits2].
  rewrite (normal_digits m1 Hm1), (normal_digits m2 Hm2).
  rewrite fexp_normal by lia.
  rewrite Z.min_l by lia.
  replace (e1 - e2 - (53 + e1 - (53 + e2) - 53)) with 53 by lia.
  cbv iota beta.
  rewrite Z.shiftl_mul_pow2 by lia.
  pose proof (Z_div_mod (Z.pos m1 * 2 ^ 53) (Z.pos m2) ltac:(lia)) as Hdm.
  destruct (Z.div_eucl (Z.pos m1 * 2 ^ 53) (Z.pos m2)) as [q r].
  destruct Hdm as [Eq Hr].
  assert (Hq : 2 ^ 52 <= q < 2 ^ 54).
  { change (2 ^ 54) with (2 * 2 ^ 53). change (2 ^ 53) with (2 * 2 ^ 52) in *.
    nia. }
  destruct q as [|pq|pq]; try lia.
  assert (Hd : 53 <= Z.pos (digits2_pos pq) <= 54).
  { pose proof (digits2_pos_bounds pq) as [Hlo Hhi].
    assert (52 < Z.pos (digits2_pos pq)).
    { apply (Z.pow_lt_mono_r_iff 2); lia. }
    assert (Z.pos (digits2_pos pq) - 1 < 54).
    { apply (Z.pow_lt_mono_r_iff 2); lia. }
    lia. }
  set (x := (IZR (Z.pos m1) * bpow e1 / (IZR (Z.pos m2) * bpow e2))%R).
  destruct (binary_round_aux_correct pq (53 + e1 - (53 + e2) - 53)
              (new_location (Z.pos m2) r) x) as [m0 [l0 [Hm0 [Hin E]]]].
  - lia.
  - lia.
  - assert (Ex : (x * bpow (- (53 + e1 - (53 + e2) - 53))
                  = IZR (Z.pos pq) + IZR r / IZR (Z.pos m2))%R).
    { unfold x.
      replace (- (53 + e1 - (53 + e2) - 53)) with (- e1 + e2 + 53) by lia.
      rewrite !bpow_add, (bpow_IZR 53) by lia.
      pose proof (bpow_gt_0 e1). pose proof (bpow_gt_0 e2).
      pose proof (bpow_opp_l e1).
      assert (0 < IZR (Z.pos m2))%R by (apply IZR_lt; lia).
      assert (Em : (IZR (Z.pos m1) * IZR (2 ^ 53)
                    = IZR (Z.pos m2) * IZR (Z.pos pq) + IZR r)%R).
      { rewrite <- !mult_IZR, <- plus_IZR. f_equal. exact Eq. }
      replace (bpow (- e1)) with (/ bpow e1)%R
        by (symmetry; apply powerRZ_neg').
      transitivity (IZR (Z.pos m1) * IZR (2 ^ 53) / IZR (Z.pos m2))%R;
        [field; lra|].
      rewrite Em. field. lra. }
    rewrite Ex. apply new_location_correct; lia.
  - rewrite E. exists m0, (Z.pos (digits2_pos pq) + (53 + e1 - (53 + e2) - 53) - 53), l0.
    repeat split; try assumption; lia.
Qed.

(** The sum of two normal64 floats is rounded to the nearest float. *)
Lemma SFadd_correct m1 e1 m2 e2 :
  2 ^ 52 <= Z.pos m1 < 2 ^ 53 -> 2 ^ 52 <= Z.pos m2 < 2 ^ 53 ->
  -1074 <= e1 <= 968 -> -1074 <= e2 <= 968 ->
  Rounds (IZR (Z.pos m1) * bpow e1 + IZR (Z.pos m2) * bpow e2)
         (SFadd prec emax (S754_finite false m1 e1) (S754_finite false m2 e2)).
Proof.
  intros Hm1 Hm2 He1 He2. cbn [SFadd cond_Zopp]. zstd.
  set (ez := Z.min e1 e2).
  destruct (shl_align_fst m1 e1 ez ltac:(lia)) as [Ea _].
  destruct (shl_align_fst m2 e2 ez ltac:(lia)) as [Eb _].
  set (a := fst (shl_align m1 e1 ez)) in *.
  set (b := fst (shl_align m2 e2 ez)) in *.
  change (Z.pos a + Z.pos b) with (Z.pos (a + b)). cbn [binary_normalize].
  assert (Es : Z.pos (a + b) = Z.pos m1 * 2 ^ (e1 - ez) + Z.pos m2 * 2 ^ (e2 - ez)).
  { rewrite Pos2Z.inj_add, Ea, Eb. reflexivity. }
  assert (Ex : (IZR (Z.pos m1) * bpow e1 + IZR (Z.pos m2) * bpow e2
                = IZR (Z.pos (a + b)) * bpow ez)%R).
  { rewrite Es, plus_IZR, !mult_IZR, <- !bpow_IZR by lia.
    rewrite Rmult_plus_distr_r, !Rmult_assoc, <- !bpow_add.
    replace (e1 - ez + ez) with e1 by lia.
    replace (e2 - ez + ez) with e2 by lia. reflexivity. }
  rewrite Ex. apply binary_round_correct.
  pose proof (digits2_pos_bounds (a + b)) as [Hlo Hhi].
  set (d := Z.pos (digits2_pos (a + b))) in *.
  set (K := Z.max e1 e2 - ez).
  assert (H1 : 0 < 2 ^ (e1 - ez)) by (apply Z.pow_pos_nonneg; lia).
  assert (H2 : 0 < 2 ^ (e2 - ez)) by (apply Z.pow_pos_nonneg; lia).
  assert (K1 : 2 ^ (e1 - ez) <= 2 ^ K) by (apply Z.pow_le_mono_r; lia).
  assert (K2 : 2 ^ (e2 - ez) <= 2 ^ K) by (apply Z.pow_le_mono_r; lia).
  assert (K3 : 2 ^ K <= 2 ^ (e1 - ez) \/ 2 ^ K <= 2 ^ (e2 - ez)).
  { destruct (Z.max_spec e1 e2) as [[_ E]|[_ E]]; unfold K; rewrite E; [right|left]; lia. }
  assert (Hd1 : 52 + K < d).
  { apply (Z.pow_lt_mono_r_iff 2); [lia|lia|].
    rewrite Z.pow_add_r by lia. nia. }
  assert (Hd2 : d - 1 < 54 + K).
  { apply (Z.pow_lt_mono_r_iff 2); [lia|lia|].
    rewrite Z.pow_add_r by lia. change (2 ^ 54) with (2 * 2 ^ 53). nia. }
  lia.
Qed.

Lemma normal_exp_le m e k :
  2 ^ 52 <= m -> (IZR m * bpow e <= bpow k)%R -> e <= k - 52.
Proof.
  intros Hm Hle. destruct (Z_le_gt_dec e (k - 52)) as [|Hgt]; [assumption|].
  exfalso.
  assert (Hb : (bpow (k - 51) <= bpow e)%R) by (apply bpow_le; lia).
  assert (E : (IZR (2 ^ 52) * bpow (k - 51) = 2 * bpow k)%R).
  { rewrite <- (bpow_IZR 52), <- bpow_add, <- bpow_succ by lia. f_equal. lia. }
  assert (IZR (2 ^ 52) <= IZR m)%R by (apply IZR_le; lia).
  pose proof (bpow_gt_0 k). pose proof (bpow_gt_0 (k - 51)).
  pose proof IZR_2_52_pos. nra.
Qed.

Lemma normal_exp_ge m e k :
  0 < m < 2 ^ 53 -> (bpow k <= IZR m * bpow e)%R -> k - 52 <= e.
Proof.
  intros Hm Hle. destruct (Z_le_gt_dec (k - 52) e) as [|Hgt]; [assumption|].
  exfalso.
  assert (Hb : (bpow e <= bpow (k - 53))%R) by (apply bpow_le; lia).
  assert (E : (IZR (2 ^ 53) * bpow (k - 53) = bpow k)%R).
  { rewrite <- (bpow_IZR 53), <- bpow_add by lia. f_equal. lia. }
  assert (IZR m < IZR (2 ^ 53))%R by (apply IZR_lt; lia).
  assert (0 < IZR m)%R by (apply IZR_lt; lia).
  pose proof (bpow_gt_0 e). pose proof (bpow_gt_0 (k - 53)). nra.
Qed.

(** [int(x)] lies between the integer bounds of [x]. *)
Lemma to_Z_bounds x lo hi :
  good64 (Prim2SF x) ->
  (IZR lo <= SF2R (Prim2SF x) <= IZR hi)%R ->
  lo <= Binary64.to_Z x <= hi.
Proof.
  unfold Binary64.to_Z. intros [E|[m [e [E [Hm He]]]]] Hb; rewrite E in *.
  - simpl in Hb. destruct Hb as [H1 H2]. apply le_IZR in H1, H2. lia.
  - cbn [SF2R] in Hb. cbv zeta.
    destruct (Z.leb_spec 0 e) as [Hpos|Hneg].
    + rewrite (bpow_IZR e Hpos), <- mult_IZR in Hb.
      destruct Hb as [H1 H2]. apply le_IZR in H1, H2. lia.
    + assert (Hk : 0 < 2 ^ (- e)) by (apply Z.pow_pos_nonneg; lia).
      assert (Eb : (bpow e * IZR (2 ^ (- e)) = 1)%R).
      { rewrite <- bpow_IZR by lia. apply bpow_opp_r. }
      assert (Pk : (0 < IZR (2 ^ (- e)))%R) by (apply IZR_lt; exact Hk).
      destruct Hb as [H1 H2]. split.
      * apply Z.div_le_lower_bound; [exact Hk|].
        apply le_IZR. rewrite mult_IZR.
        apply Rmult_le_compat_r with (r := IZR (2 ^ (- e))) in H1; [|lra].
        rewrite Rmult_assoc, Eb in H1. lra.
      * apply Z.div_le_upper_bound; [exact Hk|].
        apply le_IZR. rewrite mult_IZR.
        apply Rmult_le_compat_r with (r := IZR (2 ^ (- e))) in H2; [|lra].
        rewrite Rmult_assoc, Eb in H2. lra.
Qed.

(** [float(z)] is exact up to 2^53. *)
Lemma of_Z_0 : Prim2SF (Binary64.of_Z 0) = S754_zero false.
Proof. reflexivity. Qed.

Lemma of_Z_pos z :
  0 < z <= 2 ^ 53 ->
  exists m e, Prim2SF (Binary64.of_Z z) = S754_finite false m e /\
              2 ^ 52 <= Z.pos m < 2 ^ 53 /\ -52 <= e <= 1 /\
              (IZR (Z.pos m) * bpow e)%R = IZR z.
Proof.
  intros Hz. unfold Binary64.of_Z.
  destruct (Z.ltb_spec z 0) as [|_]; [lia|].
  rewrite FloatAxioms.of_uint63_spec, Uint63.of_Z_spec.
  rewrite Z.mod_small
    by (split; [lia|]; apply Z.le_lt_trans with (2 ^ 53); [lia|reflexivity]).
  destruct (binary_normalize_int z Hz) as [[m [e [E [Hm He]]]] Hv].
  rewrite E in Hv |- *. cbn [SF2R] in Hv.
  exists m, e. repeat split; try lia; try exact Hv.
  - apply normal_exp_ge with (m := Z.pos m) (k := 0); [lia|].
    rewrite Hv, bpow_0. apply IZR_le. lia.
  - apply Z.le_trans with (53 - 52); [|lia].
    apply normal_exp_le with (m := Z.pos m); [lia|].
    rewrite Hv, bpow_IZR by lia. apply IZR_le. lia.
Qed.

Lemma Rounds_ge_int x f N :
  Rounds x f -> N <= 2 ^ 53 -> (IZR N <= x)%R -> (IZR N <= SF2R f)%R.
Proof.
  intros H HN Hx. destruct (Z_le_gt_dec 0 N) as [Hpos|Hneg].
  - pose proof (Rounds_ge _ _ N 0 H ltac:(lia)) as Hge.
    rewrite bpow_0, Rmult_1_r in Hge. auto.
  - pose proof (normal_pos _ (Rounds_normal _ _ H)).
    assert (IZR N <= 0)%R by (apply IZR_le; lia). lra.
Qed.

Lemma Rounds_le_int x f N :
  Rounds x f -> N <= 2 ^ 53 -> (x <= IZR N)%R -> (SF2R f <= IZR N)%R.
Proof.
  intros H HN Hx.
  assert (0 <= N).
  { destruct (Rounds_inv _ _ H) as [m0 [e0 [l0 [Hm [_ [Hin _]]]]]].
    pose proof (inb_scale _ _ _ _ Hin) as [Hs _].
    pose proof (bpow_gt_0 e0). pose proof IZR_2_52_pos.
    assert (IZR (2 ^ 52) <= IZR m0)%R by (apply IZR_le; lia).
    apply le_IZR. nra. }
  pose proof (Rounds_le _ _ N 0 H ltac:(lia)) as Hle.
  rewrite bpow_0, Rmult_1_r in Hle. auto.
Qed.

(** [a / n] on ints up to 2^53 is the float nearest to the quotient. *)
Lemma truediv_rounds a n :
  0 < a <= 2 ^ 53 -> 0 < n <= 2 ^ 53 ->
  Rounds (IZR a / IZR n) (Prim2SF (Binary64.truediv a n)).
Proof.
  intros Ha Hn. unfold Binary64.truediv. rewrite FloatAxioms.div_spec.
  destruct (of_Z_pos a Ha) as [m1 [e1 [E1 [Hm1 [He1 V1]]]]].
  destruct (of_Z_pos n Hn) as [m2 [e2 [E2 [Hm2 [He2 V2]]]]].
  rewrite E1, E2, <- V1, <- V2.
  apply SFdiv_correct; try assumption. lia.
Qed.

Lemma truediv_zero n :
  0 < n <= 2 ^ 53 -> Prim2SF (Binary64.truediv 0 n) = S754_zero false.
Proof.
  intros Hn. unfold Binary64.truediv. rewrite FloatAxioms.div_spec.
  destruct (of_Z_pos n Hn) as [m2 [e2 [E2 _]]].
  rewrite E2, of_Z_0. reflexivity.
Qed.

Lemma truediv_good a n :
  0 <= a <= 2 ^ 53 -> 0 < n <= 2 ^ 53 ->
  good64 (Prim2SF (Binary64.truediv a n)).
Proof.
  intros Ha Hn. destruct (Z.eq_dec a 0) as [->|Hne].
  - left. apply truediv_zero. exact Hn.
  - right. apply (Rounds_normal (IZR a / IZR n)). apply truediv_rounds; lia.
Qed.

(** Division by a positive int is monotone in the numerator: for ints up
    to 2^53, [a <= b] gives [a / n <= b / n] on the floats. *)
Lemma binary64_truediv_monotone a b n :
  0 <= a <= b -> b <= 2 ^ 53 -> 0 < n <= 2 ^ 53 ->
  PrimFloat.leb (Binary64.truediv a n) (Binary64.truediv b n) = true /\
  PrimFloat.ltb (Binary64.truediv b n) (Binary64.truediv a n) = false.
Proof.
  intros Hab Hb Hn. rewrite FloatAxioms.ltb_spec, FloatAxioms.leb_spec.
  assert (Hle : (SF2R (Prim2SF (Binary64.truediv a n))
                 <= SF2R (Prim2SF (Binary64.truediv b n)))%R);
    [|split; [apply SFleb_true | apply SFltb_false];
      try (apply truediv_good; lia); exact Hle].
  assert (Pn : (0 < IZR n)%R) by (apply IZR_lt; lia).
  destruct (Z.eq_dec a 0) as [->|Ha].
  - rewrite (truediv_zero n Hn). cbn [SF2R].
    apply good_nonneg, truediv_good; lia.
  - apply (Rounds_mono (IZR a / IZR n) _ (IZR b / IZR n)).
    + apply truediv_rounds; lia.
    + apply truediv_rounds; lia.
    + apply Rmult_le_compat_r; [|apply IZR_le; lia].
      pose proof (Rinv_0_lt_compat _ Pn). lra.
Qed.

Lemma between64_of_int_0 : between64 0 0 (Binary64.of_Z 0).
Proof. unfold between64. rewrite of_Z_0. simpl. split; [left; reflexivity | lra]. Qed.

Lemma between64_truediv lo hi a n :
  0 < n <= 2 ^ 53 -> 0 <= a <= 2 ^ 53 -> hi <= 2 ^ 53 ->
  lo * n <= a <= hi * n ->
  between64 lo hi (Binary64.truediv a n).
Proof.
  intros Hn Ha Hhi Hb. unfold between64.
  assert (Pn : (0 < IZR n)%R) by (apply IZR_lt; lia).
  destruct (Z.eq_dec a 0) as [->|Hne].
  - rewrite (truediv_zero n Hn). cbn [SF2R].
    split; [left; reflexivity|].
    split; apply IZR_le; nia.
  - pose proof (truediv_rounds a n ltac:(lia) Hn) as Hr.
    assert (Hq : (IZR lo <= IZR a / IZR n <= IZR hi)%R).
    { destruct Hb as [H1 H2]. apply IZR_le in H1, H2. rewrite mult_IZR in H1, H2.
      split.
      - apply Rmult_le_reg_r with (IZR n); [exact Pn|].
        unfold Rdiv. rewrite Rmult_assoc, Rinv_l by lra. lra.
      - apply Rmult_le_reg_r with (IZR n); [exact Pn|].
        unfold Rdiv. rewrite Rmult_assoc, Rinv_l by lra. lra. }
    split.
    + right. split; [exact (Rounds_normal _ _ Hr)|].
      rewrite <- (Rmult_1_l (bpow (-53))).
      apply (Rounds_ge _ _ 1 (-53) Hr); [lia|].
      rewrite Rmult_1_l.
      apply Rmult_le_reg_r with (IZR n); [exact Pn|].
      unfold Rdiv. rewrite Rmult_assoc, Rinv_l by lra.
      assert (IZR n <= IZR (2 ^ 53))%R by (apply IZR_le; lia).
      assert (1 <= IZR a)%R by (apply IZR_le; lia).
      assert (E : (bpow (-53) * IZR (2 ^ 53) = 1)%R).
      { rewrite <- bpow_IZR by lia. exact (bpow_opp_l 53). }
      pose proof (bpow_gt_0 (-53)). nra.
    + split.
      * apply (Rounds_ge_int _ _ _ Hr); [|apply Hq].
        destruct (Z_le_gt_dec lo 0); [lia|].
        assert (lo <= lo * n) by nia. lia.
      * apply (Rounds_le_int _ _ _ Hr); [lia | apply Hq].
Qed.

Lemma between64_fadd lo1 hi1 lo2 hi2 x y :
  between64 lo1 hi1 x -> between64 lo2 hi2 y ->
  hi1 + hi2 <= 2 ^ 53 ->
  between64 (lo1 + lo2) (hi1 + hi2) (PrimFloat.add x y).
Proof.
  unfold between64. intros [Gx Bx] [Gy By] Hhi. rewrite FloatAxioms.add_spec.
  unfold SF64add. rewrite !plus_IZR.
  destruct Gx as [Ex|[Nx Lx]]; destruct Gy as [Ey|[Ny Ly]].
  - rewrite Ex, Ey in *. cbn [SFadd SF2R] in *. split; [left; reflexivity | lra].
  - rewrite Ex in *. pose proof Ny as [m [e [Ey _]]].
    rewrite Ey in *. cbn [SFadd] in *.
    split; [right; split; [exact Ny | exact Ly]|].
    cbn [SF2R] in *. lra.
  - rewrite Ey in *. pose proof Nx as [m [e [Ex _]]].
    rewrite Ex in *. cbn [SFadd] in *.
    split; [right; split; [exact Nx | exact Lx]|].
    cbn [SF2R] in *. lra.
  - destruct Nx as [m1 [e1 [Ex [Hm1 He1]]]]. destruct Ny as [m2 [e2 [Ey [Hm2 He2]]]].
    rewrite Ex, Ey in *. cbn [SF2R] in Bx, By, Lx, Ly.
    assert (H53 : (IZR (hi1 + hi2) <= bpow 53)%R).
    { rewrite bpow_IZR by lia. apply IZR_le. exact Hhi. }
    rewrite plus_IZR in H53. pose proof (bpow_gt_0 (-53)) as P53.
    assert (He1' : e1 <= 53 - 52).
    { apply normal_exp_le with (m := Z.pos m1); [lia|]. lra. }
    assert (He2' : e2 <= 53 - 52).
    { apply normal_exp_le with (m := Z.pos m2); [lia|]. lra. }
    pose proof (SFadd_correct m1 e1 m2 e2 Hm1 Hm2 ltac:(lia) ltac:(lia)) as Hr.
    split; [right; split; [exact (Rounds_normal _ _ Hr)|]|split].
    + rewrite <- (Rmult_1_l (bpow (-53))).
      apply (Rounds_ge _ _ 1 (-53) Hr); [lia|]. lra.
    + rewrite <- plus_IZR. apply (Rounds_ge_int _ _ _ Hr).
      * assert (IZR (lo1 + lo2) <= IZR (hi1 + hi2))%R
          by (rewrite !plus_IZR; lra).
        apply le_IZR in H. lia.
      * rewrite plus_IZR. lra.
    + rewrite <- plus_IZR. apply (Rounds_le_int _ _ _ Hr); [exact Hhi|].
      rewrite plus_IZR. lra.
Qed.

Lemma between64_int_fdiv lo hi n x :
  0 < n <= 2 ^ 53 -> hi * n <= 2 ^ 53 ->
  between64 (lo * n) (hi * n) x ->
  lo <= Binary64.to_Z (PrimFloat.div x (Binary64.of_Z n)) <= hi.
Proof.
  unfold between64. intros Hn Hhi [Gx Bx].
  assert (Pn : (0 < IZR n)%R) by (apply IZR_lt; lia).
  rewrite !mult_IZR in Bx.
  assert (H0 : (0 <= SF2R (Prim2SF x))%R).
  { destruct Gx as [->|[Nx _]]; [simpl; lra|]. apply normal_pos in Nx. lra. }
  assert (Hhi0 : 0 <= hi).
  { apply le_IZR. nra. }
  destruct (of_Z_pos n ltac:(lia)) as [m2 [e2 [E2 [Hm2 [He2 V2]]]]].
  assert (Hq : forall v, (IZR lo * IZR n <= v <= IZR hi * IZR n)%R ->
                         (IZR lo <= v / IZR n <= IZR hi)%R).
  { intros v [H1 H2]. split.
    - apply Rmult_le_reg_r with (IZR n); [exact Pn|].
      unfold Rdiv. rewrite Rmult_assoc, Rinv_l by lra. lra.
    - apply Rmult_le_reg_r with (IZR n); [exact Pn|].
      unfold Rdiv. rewrite Rmult_assoc, Rinv_l by lra. lra. }
  apply to_Z_bounds; rewrite FloatAxioms.div_spec; unfold SF64div; rewrite E2.
  - destruct Gx as [Ex|[[m1 [e1 [Ex [Hm1 He1]]]] Lx]]; rewrite Ex in *.
    + left. reflexivity.
    + right. cbn [SF2R] in *.
      apply (Rounds_normal (IZR (Z.pos m1) * bpow e1 / (IZR (Z.pos m2) * bpow e2))).
      apply SFdiv_correct; try assumption.
      assert (-53 - 52 <= e1) by (apply normal_exp_ge with (m := Z.pos m1); [lia | exact Lx]).
      assert (e1 <= 53 - 52).
      { apply normal_exp_le with (m := Z.pos m1); [lia|].
        rewrite (bpow_IZR 53) by lia.
        assert (Hh : (IZR (hi * n) <= IZR (2 ^ 53))%R) by (apply IZR_le; lia).
        rewrite mult_IZR in Hh. lra. }
      lia.
  - destruct Gx as [Ex|[[m1 [e1 [Ex [Hm1 He1]]]] Lx]]; rewrite Ex in *.
    + cbn [SFdiv xorb SF2R] in *.
      assert (IZR lo <= 0)%R by nra. assert (0 <= IZR hi)%R by nra. lra.
    + cbn [SF2R] in Bx, Lx, H0.
      assert (Hr : Rounds (IZR (Z.pos m1) * bpow e1 / (IZR (Z.pos m2) * bpow e2))
                     (SFdiv prec emax (S754_finite false m1 e1)
                                      (S754_finite false m2 e2))).
      { apply SFdiv_correct; try assumption.
        assert (-53 - 52 <= e1) by (apply normal_exp_ge with (m := Z.pos m1); [lia | exact Lx]).
        assert (e1 <= 53 - 52).
        { apply normal_exp_le with (m := Z.pos m1); [lia|].
          rewrite (bpow_IZR 53) by lia.
          assert (Hh : (IZR (hi * n) <= IZR (2 ^ 53))%R) by (apply IZR_le; lia).
          rewrite mult_IZR in Hh. lra. }
        lia. }
      rewrite V2 in Hr. pose proof (Hq _ Bx) as [Hq1 Hq2].
      split.
      * apply (Rounds_ge_int _ _ _ Hr); [|exact Hq1].
        assert (IZR lo <= IZR hi)%R by lra. apply le_IZR in H. nia.
      * apply (Rounds_le_int _ _ _ Hr); [nia | exact Hq2].
Qed.

(* ===================================================================== *)
(** ** Loops *)
(* ===================================================================== *)

Section LoopLemmas.
Context {A : Type}.

(** An invariant indexed by the number of turns of [for i in range(n)]. *)
Lemma fold_left_seq_inv (f : A -> nat -> A) (Inv : nat -> A -> Prop) :
  forall n a,
    Inv O a ->
    (forall i a, (i < n)%nat -> Inv i a -> Inv (S i) (f a i)) ->
    Inv n (fold_left f (seq 0 n) a).
Proof.
  induction n as [|n IH]; intros a H0 Hstep.
  - exact H0.
  - rewrite seq_S, fold_left_app. simpl.
    apply Hstep; [lia|].
    apply IH; [exact H0|].
    intros i a' Hi. apply Hstep. lia.
Qed.

(** The invariant of the nested loops: [Inv y x] holds when the rows above
    [y] and the pixels left of [x] in row [y] have been visited. *)
Lemma for_each_pixel_inv (w h : nat) (f : A -> nat -> nat -> A)
    (Inv : nat -> nat -> A -> Prop) (a : A) :
  Inv O O a ->
  (forall x y a, (x < w)%nat -> (y < h)%nat ->
                 Inv y x a -> Inv y (S x) (f a x y)) ->
  (forall y a, (y < h)%nat -> Inv y w a -> Inv (S y) O a) ->
  Inv h O (for_each_pixel w h f a).
Proof.
  intros H0 Hstep Hrow. unfold for_each_pixel.
  apply (fold_left_seq_inv _ (fun y a => Inv y O a)); [exact H0|].
  intros y a' Hy Ha'.
  apply Hrow; [exact Hy|].
  apply (fold_left_seq_inv (fun acc x => f acc x y) (fun x a => Inv y x a));
    [exact Ha'|].
  intros x a'' Hx. apply Hstep; assumption.
Qed.
End LoopLemmas.

Section LoopRelation.
Context {A B : Type} (R : A -> B -> Prop).

Lemma fold_left_rel {X} (f : A -> X -> A) (g : B -> X -> B) (l : list X) :
  forall a b,
    R a b ->
    (forall a b x, In x l -> R a b -> R (f a x) (g b x)) ->
    R (fold_left f l a) (fold_left g l b).
Proof.
  induction l as [|x l IH]; intros a b Hab Hstep; simpl.
  - exact Hab.
  - apply IH.
    + apply Hstep; [left; reflexivity | exact Hab].
    + intros a' b' x' Hin. apply Hstep. right. exact Hin.
Qed.

(** Two runs of the nested loops stay related when each step keeps them
    so. *)
Lemma for_each_pixel_rel (w h : nat) (f : A -> nat -> nat -> A)
    (g : B -> nat -> nat -> B) (a : A) (b : B) :
  R a b ->
  (forall a b x y, (x < w)%nat -> (y < h)%nat ->
                   R a b -> R (f a x y) (g b x y)) ->
  R (for_each_pixel w h f a) (for_each_pixel w h g b).
Proof.
  intros Hab Hstep. unfold for_each_pixel.
  apply fold_left_rel; [exact Hab|].
  intros a' b' y Hy Hab'. apply in_seq in Hy.
  apply fold_left_rel; [exact Hab'|].
  intros a'' b'' x Hx. apply in_seq in Hx.
  apply Hstep; lia.
Qed.
End LoopRelation.

(* ===================================================================== *)
(** ** The mask builder *)
(* ===================================================================== *)

Lemma classify_pixel_mask pix bg thr_sq mask fg_count x y :
  fst (classify_pixel pix bg thr_sq (mask, fg_count) x y) =
  putpixel mask x y
    (if thr_sq <? color_distance_sq (pix x y) bg then 255 else 0).
Proof.
  unfold classify_pixel.
  destruct (pix x y) as [[r g] b].
  destruct (thr_sq <? _); reflexivity.
Qed.

Lemma classify_pixel_count pix bg thr_sq mask fg_count x y :
  snd (classify_pixel pix bg thr_sq (mask, fg_count) x y) =
  fg_count + (if thr_sq <? color_distance_sq (pix x y) bg then 1 else 0).
Proof.
  unfold classify_pixel.
  destruct (pix x y) as [[r g] b].
  destruct (thr_sq <? _); simpl; lia.
Qed.

Lemma build_mask_inv rgb bg threshold w h :
  let mask := fst (build_mask rgb bg threshold w h) in
  size mask = (w, h) /\
  forall x y, (x < w)%nat -> (y < h)%nat ->
              load mask x y = pixel_class rgb bg threshold x y.
Proof.
  unfold build_mask.
  set (Inv := fun (j i : nat) (st : Image L * Z) =>
    size (fst st) = (w, h) /\
    forall x y, (x < w)%nat ->
                ((y < j)%nat \/ (y = j /\ (x < i)%nat)) ->
                load (fst st) x y = pixel_class rgb bg threshold x y).
  assert (HInv : Inv h O
    (for_each_pixel w h
       (classify_pixel (load rgb) bg (threshold * threshold))
       (Image_new (w, h) 0, 0))).
  { apply for_each_pixel_inv.
    - split; [reflexivity|]. intros x y _ [Hy|[_ Hx]]; lia.
    - intros x y [mask c] Hx Hy [Hsz Hpx].
      unfold Inv. rewrite classify_pixel_mask. split; [exact Hsz|].
      intros x' y' Hx' Hpos. simpl.
      destruct (Nat.eqb_spec x' x) as [->|Hne];
        destruct (Nat.eqb_spec y' y) as [->|Hne']; simpl;
        try reflexivity; apply Hpx; try assumption; lia.
    - intros y [mask c] Hy [Hsz Hpx]. split; [exact Hsz|].
      intros x' y' Hx' [Hlt|[_ Hx0]]; [|lia].
      apply Hpx; [exact Hx'|].
      destruct (Nat.eq_dec y' y) as [->|]; [right; split; auto | left; lia]. }
  destruct HInv as [Hsz Hpx]. simpl. split; [exact Hsz|].
  intros x y Hx Hy. apply Hpx; [exact Hx | left; exact Hy].
Qed.


Lemma build_mask_count_nonneg rgb bg threshold w h :
  0 <= snd (build_mask rgb bg threshold w h).
Proof.
  unfold build_mask.
  apply (for_each_pixel_inv w h _ (fun _ _ st => 0 <= snd st)).
  - simpl. lia.
  - intros x y [mask c] _ _ Hc. rewrite classify_pixel_count. simpl in Hc.
    destruct (_ <? _); lia.
  - intros y a _ Ha. exact Ha.
Qed.

(** A lower threshold (in absolute value) classifies at least the same
    pixels as foreground. *)
Lemma build_mask_count_antitone rgb bg t1 t2 w h :
  Z.abs t1 <= Z.abs t2 ->
  snd (build_mask rgb bg t2 w h) <= snd (build_mask rgb bg t1 w h).
Proof.
  intros Habs. unfold build_mask.
  apply (for_each_pixel_rel (fun st2 st1 : Image L * Z => snd st2 <= snd st1)).
  - simpl. lia.
  - intros [m2 c2] [m1 c1] x y _ _ Hc. simpl in Hc.
    rewrite !classify_pixel_count.
    assert (Hsq : t1 * t1 <= t2 * t2) by nia.
    destruct (Z.ltb_spec (t2 * t2) (color_distance_sq (load rgb x y) bg));
      destruct (Z.ltb_spec (t1 * t1) (color_distance_sq (load rgb x y) bg));
      lia.
Qed.

(** The foreground count is at most the number of pixels. *)
Lemma build_mask_count_le rgb bg threshold w h :
  snd (build_mask rgb bg threshold w h) <= Z.of_nat (w * h).
Proof.
  unfold build_mask.
  set (Inv := fun (y x : nat) (st : Image L * Z) =>
    snd st <= Z.of_nat y * Z.of_nat w + Z.of_nat x).
  assert (HInv : Inv h O
    (for_each_pixel w h
       (classify_pixel (load rgb) bg (threshold * threshold))
       (Image_new (w, h) 0, 0))).
  { apply for_each_pixel_inv; unfold Inv.
    - simpl. lia.
    - intros x y [m c] Hx Hy Hc. simpl in Hc.
      rewrite classify_pixel_count. destruct (_ <? _); lia.
    - intros y a Hy Ha. rewrite Nat2Z.inj_succ, Z.mul_succ_l. lia. }
  unfold Inv in HInv. rewrite Nat2Z.inj_mul. lia.
Qed.

(** C7 (amended to thresholds that are not negative): for a fixed image
    and background colour and thresholds [0 <= t1 <= t2], the foreground
    count at [t1] is at least the count at [t2], and so is the foreground
    fraction [fg_count / (w * h)] on Python's floats: the fraction at [t2]
    is less than or equal to the fraction at [t1], and the fraction at [t1]
    is not less than the fraction at [t2].  The image has at most 2^53
    pixels, so that the count and [w * h] are floats. *)
Theorem fg_fraction_antitone (rgb : Image RGB) (bg_color : RGB)
    (t1 t2 : Z) (w h : nat) :
  0 <= t1 <= t2 ->
  (0 < w * h)%nat ->
  Z.of_nat (w * h) <= 2 ^ 53 ->
  let c1 := snd (build_mask rgb bg_color t1 w h) in
  let c2 := snd (build_mask rgb bg_color t2 w h) in
  c2 <= c1 /\
  exists f1 f2 : float,
    fg_fraction_of (H := binary64) c1 w h = Ok f1 /\
    fg_fraction_of (H := binary64) c2 w h = Ok f2 /\
    PrimFloat.leb f2 f1 = true /\
    PrimFloat.ltb f1 f2 = false.
Proof.
  intros Ht Hwh Hsmall c1 c2.
  assert (Hle : c2 <= c1)
    by (apply build_mask_count_antitone; lia).
  split; [exact Hle|].
  unfold fg_fraction_of.
  destruct (Z.eqb_spec (Z.of_nat (w * h)) 0) as [H0|_]; [lia|].
  eexists. eexists. split; [reflexivity|]. split; [reflexivity|].
  apply binary64_truediv_monotone.
  - split; [apply build_mask_count_nonneg | exact Hle].
  - pose proof (build_mask_count_le rgb bg_color t1 w h). fold c1 in H. lia.
  - lia.
Qed.

(** C7 as stated, for every pair [t1 <= t2], fails on negative thresholds:
    on one pixel at distance 10 from the background colour, threshold -100
    gives the fraction 0 and threshold 0 gives the fraction 1. *)
Lemma fg_fraction_not_antitone_below_zero :
  let rgb := Image_new (1, 1)%nat (10, 0, 0) in
  let c1 := snd (build_mask rgb (0, 0, 0) (-100) 1 1) in
  let c2 := snd (build_mask rgb (0, 0, 0) 0 1 1) in
  -100 <= 0 /\
  c1 = 0 /\ c2 = 1 /\
  fg_fraction_of (H := binary64) c1 1 1 = Ok 0%float /\
  fg_fraction_of (H := binary64) c2 1 1 = Ok 1%float /\
  flt (PyFloat := binary64) 0%float 1%float = true.
Proof.
  vm_compute. repeat split; try reflexivity. discriminate.
Qed.

(* ===================================================================== *)
(** ** The adaptive retry *)
(* ===================================================================== *)

Section Retry.
Context {F : Type} `{PyFloat F} `{Pillow}.

Lemma calls_raise im t r mf e :
  fraction_at im t = Raise e ->
  pillow_bg_remove_calls im t r mf =
  ([mkCall t r mf (bg_color_of im)], Raise e).
Proof.
  intros Hfr. rewrite pillow_bg_remove_calls_equation_1. cbv zeta.
  unfold fraction_at, mask_at, bg_color_of in Hfr. rewrite Hfr.
  reflexivity.
Qed.

Lemma calls_retry im t r mf fr :
  fraction_at im t = Ok fr ->
  retry_test fr mf t = true ->
  pillow_bg_remove_calls im t r mf =
  (mkCall t r mf (bg_color_of im)
     :: fst (pillow_bg_remove_calls im (Z.max 20 (t - 15)) r mf),
   snd (pillow_bg_remove_calls im (Z.max 20 (t - 15)) r mf)).
Proof.
  intros Hfr Htest. rewrite pillow_bg_remove_calls_equation_1. cbv zeta.
  unfold fraction_at, mask_at, bg_color_of in Hfr. rewrite Hfr.
  destruct (Sumbool.sumbool_of_bool (retry_test fr mf t)) as [_|Hf];
    [reflexivity | congruence].
Qed.

Lemma calls_final im t r mf fr :
  fraction_at im t = Ok fr ->
  retry_test fr mf t = false ->
  pillow_bg_remove_calls im t r mf =
  ([mkCall t r mf (bg_color_of im)],
   refine_and_composite im (fst (mask_at im t)) r).
Proof.
  intros Hfr Htest. rewrite pillow_bg_remove_calls_equation_1. cbv zeta.
  unfold fraction_at, mask_at, bg_color_of in Hfr. rewrite Hfr.
  destruct (Sumbool.sumbool_of_bool (retry_test fr mf t)) as [Ht|_];
    [congruence | reflexivity].
Qed.

(** Induction on the calls of [pillow_bg_remove]: a property that holds
    for the calls that do not recurse, and passes from the retry to the
    call that makes it, holds for every call. *)
Lemma calls_ind (im : Image RGBA) (r : Z) (mf : F) (P : Z -> Prop) :
  (forall t, (forall fr, fraction_at im t = Ok fr ->
                         retry_test fr mf t = true ->
                         P (Z.max 20 (t - 15))) -> P t) ->
  forall t, P t.
Proof.
  intros Hstep t.
  remember (Z.to_nat (t - 20)) as n eqn:Hn.
  revert t Hn. induction n as [n IH] using lt_wf_ind. intros t Hn.
  apply Hstep. intros fr _ Htest.
  unfold retry_test in Htest. apply andb_prop in Htest as [_ Hthr].
  apply Z.ltb_lt in Hthr.
  apply (IH (Z.to_nat (Z.max 20 (t - 15) - 20))); [lia | reflexivity].
Qed.

Lemma calls_head im t r mf :
  exists rest,
    fst (pillow_bg_remove_calls im t r mf) =
    mkCall t r mf (bg_color_of im) :: rest.
Proof.
  destruct (fraction_at im t) as [fr|e] eqn:Hfr.
  - destruct (retry_test fr mf t) eqn:Htest.
    + rewrite (calls_retry _ _ _ _ _ Hfr Htest). simpl. eauto.
    + rewrite (calls_final _ _ _ _ _ Hfr Htest). simpl. eauto.
  - rewrite (calls_raise _ _ _ _ _ Hfr). simpl. eauto.
Qed.

Lemma calls_same_parameters im r mf :
  forall t,
    Forall (fun c => call_smooth_radius c = r /\
                     call_min_fg_fraction c = mf /\
                     call_bg_color c = bg_color_of im)
           (fst (pillow_bg_remove_calls im t r mf)).
Proof.
  apply (calls_ind im r mf). intros t IH.
  destruct (fraction_at im t) as [fr|e] eqn:Hfr.
  - destruct (retry_test fr mf t) eqn:Htest.
    + rewrite (calls_retry _ _ _ _ _ Hfr Htest). simpl.
      constructor; [simpl; auto | exact (IH fr eq_refl Htest)].
    + rewrite (calls_final _ _ _ _ _ Hfr Htest). simpl.
      constructor; [simpl; auto | constructor].
  - rewrite (calls_raise _ _ _ _ _ Hfr). simpl.
    constructor; [simpl; auto | constructor].
Qed.

(** C1: when the foreground fraction is below [min_fg_fraction] and the
    threshold exceeds 20, the call returns what the call at threshold
    [max(20, threshold - 15)] returns; that retry is made with the same
    smoothing radius and minimum fraction, builds its mask from the same
    background colour, and so does every later retry. *)
Theorem pillow_bg_remove_retry (im : Image RGBA) (threshold : Z)
    (smooth_radius : Z) (min_fg_fraction fg_fraction : F) :
  fraction_at im threshold = Ok fg_fraction ->
  flt fg_fraction min_fg_fraction = true ->
  threshold > 20 ->
  let lowered := Z.max 20 (threshold - 15) in
  let bg_color := bg_color_of im in
  pillow_bg_remove im threshold smooth_radius min_fg_fraction =
  pillow_bg_remove im lowered smooth_radius min_fg_fraction /\
  (exists later,
      fst (pillow_bg_remove_calls im threshold smooth_radius
                                  min_fg_fraction) =
      mkCall threshold smooth_radius min_fg_fraction bg_color
        :: mkCall lowered smooth_radius min_fg_fraction bg_color
        :: later /\
      Forall (fun c => call_smooth_radius c = smooth_radius /\
                       call_min_fg_fraction c = min_fg_fraction /\
                       call_bg_color c = bg_color) later) /\
  (forall fr',
      fraction_at im lowered = Ok fr' ->
      retry_test fr' min_fg_fraction lowered = false ->
      pillow_bg_remove im threshold smooth_radius min_fg_fraction =
      refine_and_composite im
        (fst (build_mask (convert_RGB im) bg_color lowered
                         (width im) (height im)))
        smooth_radius).
Proof.
  intros Hfr Hlt Hthr lowered bg_color.
  assert (Htest : retry_test fg_fraction min_fg_fraction threshold = true).
  { unfold retry_test. rewrite Hlt. simpl. apply Z.ltb_lt. lia. }
  pose proof (calls_retry im threshold smooth_radius min_fg_fraction
                fg_fraction Hfr Htest) as Hcalls.
  fold lowered in Hcalls.
  split; [|split].
  - unfold pillow_bg_remove. rewrite Hcalls. reflexivity.
  - destruct (calls_head im lowered smooth_radius min_fg_fraction)
      as [later Hlater].
    exists later. rewrite Hcalls. simpl. rewrite Hlater.
    split; [reflexivity|].
    pose proof (calls_same_parameters im smooth_radius min_fg_fraction
                  lowered) as Hall.
    rewrite Hlater in Hall. inversion Hall; assumption.
  - intros fr' Hfr' Htest'.
    unfold pillow_bg_remove. rewrite Hcalls. simpl.
    rewrite (calls_final _ _ _ _ _ Hfr' Htest'). reflexivity.
Qed.

Lemma thresholds_at_floor im t r mf :
  t <= 20 -> thresholds_tried im t r mf = [t].
Proof.
  intros Ht. unfold thresholds_tried.
  destruct (fraction_at im t) as [fr|e] eqn:Hfr.
  - assert (Htest : retry_test fr mf t = false).
    { unfold retry_test. apply andb_false_iff. right.
      apply Z.ltb_ge. exact Ht. }
    rewrite (calls_final _ _ _ _ _ Hfr Htest). reflexivity.
  - rewrite (calls_raise _ _ _ _ _ Hfr). reflexivity.
Qed.

Lemma thresholds_step im t r mf :
  thresholds_tried im t r mf = [t] \/
  (t > 20 /\
   thresholds_tried im t r mf =
   t :: thresholds_tried im (Z.max 20 (t - 15)) r mf).
Proof.
  unfold thresholds_tried.
  destruct (fraction_at im t) as [fr|e] eqn:Hfr.
  - destruct (retry_test fr mf t) eqn:Htest.
    + right. rewrite (calls_retry _ _ _ _ _ Hfr Htest). simpl.
      split; [|reflexivity].
      unfold retry_test in Htest. apply andb_prop in Htest as [_ Hthr].
      apply Z.ltb_lt in Hthr. lia.
    + left. rewrite (calls_final _ _ _ _ _ Hfr Htest). reflexivity.
  - left. rewrite (calls_raise _ _ _ _ _ Hfr). reflexivity.
Qed.

(** C2 (amended: a retry lowers the threshold by 15 or to the floor, not
    always by at least 15): from the threshold 45 the builder makes at
    most two retries, at 30 and then at 20; a retry goes to
    [max(20, t - 15)], which is [t - 15] or the floor 20 and strictly below
    [t] in both cases; at a threshold of 20 or less there is no retry,
    whatever the foreground fraction. *)
Theorem retry_terminates (im : Image RGBA) (smooth_radius : Z)
    (min_fg_fraction : F) :
  let tried t := thresholds_tried im t smooth_radius min_fg_fraction in
  (tried 45 = [45] \/ tried 45 = [45; 30] \/ tried 45 = [45; 30; 20]) /\
  (List.length (tried 45%Z) <= 1 + 2)%nat /\
  (forall t t' rest,
      tried t = t :: t' :: rest ->
      t > 20 /\ t' = Z.max 20 (t - 15) /\ 20 <= t' < t /\
      (t' = t - 15 \/ t' = 20)) /\
  (forall t, t <= 20 -> tried t = [t]).
Proof.
  intros tried.
  assert (H45 : tried 45 = [45] \/ tried 45 = [45; 30] \/
                tried 45 = [45; 30; 20]).
  { unfold tried.
    destruct (thresholds_step im 45 smooth_radius min_fg_fraction)
      as [H45|[_ H45]]; [left; exact H45|].
    right. change (Z.max 20 (45 - 15)) with 30 in H45.
    destruct (thresholds_step im 30 smooth_radius min_fg_fraction)
      as [H30|[_ H30]].
    - left. rewrite H45, H30. reflexivity.
    - right. change (Z.max 20 (30 - 15)) with 20 in H30.
      rewrite H45, H30, (thresholds_at_floor im 20) by lia.
      reflexivity. }
  split; [exact H45|]. split; [|split].
  - destruct H45 as [E|[E|E]]; rewrite E; simpl; lia.
  - intros t t' rest Htried. unfold tried in Htried.
    destruct (thresholds_step im t smooth_radius min_fg_fraction)
      as [E|[Hthr E]]; [congruence|].
    rewrite E in Htried. injection Htried as Htl.
    destruct (thresholds_step im (Z.max 20 (t - 15)) smooth_radius
                min_fg_fraction) as [E'|[_ E']];
      rewrite E' in Htl; injection Htl as Ht' _; lia.
  - intros t Ht. apply thresholds_at_floor. exact Ht.
Qed.
End Retry.

(** C2 as stated, with every retry lowering the threshold by at least 15,
    fails on the second retry: on a uniform grey image of 5x5 pixels no
    pixel is foreground, the thresholds tried from 45 are 45, 30 and 20,
    and the retry from 30 lowers the threshold by 10. *)
Lemma retry_lowers_by_less_than_15 :
  let im := Image_new (5, 5)%nat (128, 128, 128, 255) in
  let tried t :=
    thresholds_tried (H := binary64) (H0 := Reference.pillow)
      im t 3 default_min_fg_fraction in
  tried 45 = [45; 30; 20] /\
  tried 30 = [30; 20] /\
  30 - 20 < 15 /\
  ~ (forall t t' rest, tried t = t :: t' :: rest -> t' <= t - 15).
Proof.
  intros im tried.
  assert (E : tried 30 = [30; 20]) by (vm_compute; reflexivity).
  split; [vm_compute; reflexivity|]. split; [exact E|]. split; [lia|].
  intros Hall. specialize (Hall 30 20 [] E). lia.
Qed.

(* ===================================================================== *)
(** ** The refiner and the compositing *)
(* ===================================================================== *)

Section Refiner.
Context {F : Type} `{PyFloat F} `{Pillow}.

Lemma apply_filters_app ks1 ks2 mask :
  apply_filters (ks1 ++ ks2) mask =
  bindR (apply_filters ks1 mask) (apply_filters ks2).
Proof.
  revert mask. induction ks1 as [|k ks1 IH]; intros mask; simpl.
  - reflexivity.
  - destruct (Image_filter k mask); [apply IH | reflexivity].
Qed.

Lemma Image_filter_size k mask mask' :
  Image_filter k mask = Ok mask' -> size mask' = size mask.
Proof.
  unfold Image_filter. destruct (k (size mask) (load mask)); intros E.
  - injection E as <-. reflexivity.
  - discriminate.
Qed.

(** A run of [for i in range(n): mask = mask.filter(k)]: either all [n]
    applications return and the variable holds their result, or the first
    [j < n] return, the next one raises, and the variable holds the result
    of those [j]. *)
Lemma for_range_filter k n mask :
  (exists mask',
      StxM.for_range n (filter_step k) mask = (Ok tt, mask') /\
      apply_filters (repeat k n) mask = Ok mask') \/
  (exists j e mask',
      (j < n)%nat /\
      StxM.for_range n (filter_step k) mask = (Raise e, mask') /\
      apply_filters (repeat k j) mask = Ok mask' /\
      Image_filter k mask' = Raise e).
Proof.
  revert mask. induction n as [|n IH]; intros mask.
  - left. exists mask. split; reflexivity.
  - cbn [StxM.for_range]. unfold StxM.seq_, StxM.bind.
    change (filter_step k mask)
      with (match Image_filter k mask with
            | Ok mask' => (Ok tt, mask')
            | Raise e => (Raise e, mask)
            end).
    destruct (Image_filter k mask) as [m1|e] eqn:Hk.
    + destruct (IH m1) as [[m' [Hrun Happ]]|[j [e [m' [Hj [Hrun [Happ Hf]]]]]]].
      * left. exists m'. split; [exact Hrun|].
        simpl. rewrite Hk. exact Happ.
      * right. exists (S j), e, m'. repeat split; try assumption; try lia.
        simpl. rewrite Hk. exact Happ.
    + right. exists O, e, mask. repeat split; try assumption; try lia.
Qed.

Lemma apply_filters_size ks : forall mask mask',
  apply_filters ks mask = Ok mask' -> size mask' = size mask.
Proof.
  induction ks as [|k ks IH]; intros mask mask'; simpl.
  - intros E. injection E as <-. reflexivity.
  - destruct (Image_filter k mask) as [m1|e] eqn:Hk; [|discriminate].
    intros E. rewrite (IH _ _ E). eapply Image_filter_size; eauto.
Qed.

(** What the [try] leaves in [mask]: the outcome of the body and the
    prefix of the closing that was applied. *)
Lemma closing_body_cases r mask :
  (fst (closing_body r mask) = Ok tt /\
   apply_filters (closing_filters r) mask = Ok (snd (closing_body r mask)))
  \/
  (exists e done k rest,
      fst (closing_body r mask) = Raise e /\
      closing_filters r = done ++ k :: rest /\
      apply_filters done mask = Ok (snd (closing_body r mask)) /\
      Image_filter k (snd (closing_body r mask)) = Raise e).
Proof.
  unfold closing_body, closing_filters, StxM.seq_, StxM.bind.
  set (n := Z.to_nat r).
  destruct (for_range_filter MaxFilter3 n mask)
    as [[m1 [Hrun Happ]]|[j [e [m1 [Hj [Hrun [Happ Hf]]]]]]];
    rewrite Hrun.
  - destruct (for_range_filter MinFilter3 n m1)
      as [[m2 [Hrun2 Happ2]]|[j [e [m2 [Hj [Hrun2 [Happ2 Hf]]]]]]];
      rewrite Hrun2; simpl.
    + left. split; [reflexivity|].
      rewrite apply_filters_app, Happ. exact Happ2.
    + right. exists e, (repeat MaxFilter3 n ++ repeat MinFilter3 j),
               MinFilter3, (repeat MinFilter3 (n - S j)).
      repeat split; try assumption.
      * rewrite <- app_assoc. f_equal.
        change (MinFilter3 :: repeat MinFilter3 (n - S j))
          with (repeat MinFilter3 (S (n - S j))).
        rewrite <- repeat_app. f_equal. lia.
      * rewrite apply_filters_app, Happ. exact Happ2.
  - simpl. right.
    exists e, (repeat MaxFilter3 j), MaxFilter3,
           (repeat MaxFilter3 (n - S j) ++ repeat MinFilter3 n).
    repeat split; try assumption.
    rewrite app_comm_cons.
    change (MaxFilter3 :: repeat MaxFilter3 (n - S j))
      with (repeat MaxFilter3 (S (n - S j))).
    rewrite app_assoc, <- repeat_app. do 2 f_equal. lia.
Qed.

Lemma closing_size r mask : size (closing r mask) = size mask.
Proof.
  unfold closing, StxM.try_except_pass.
  destruct (closing_body r mask) as [res m'] eqn:Hbody. simpl.
  destruct (closing_body_cases r mask)
    as [[_ Happ]|[e [done [k [rest [_ [_ [Happ _]]]]]]]];
    rewrite Hbody in Happ; simpl in Happ;
    eapply apply_filters_size; eauto.
Qed.

Lemma closing_snd r mask : closing r mask = snd (closing_body r mask).
Proof.
  unfold closing, StxM.try_except_pass.
  destruct (closing_body r mask); reflexivity.
Qed.

(** The compositing returns: the pixels of the input with the blurred
    mask as alpha. *)
Lemma refine_and_composite_ok im mask r :
  size mask = size im ->
  refine_and_composite im mask r =
  Ok (mkImage (size im)
        (fun x y => let '(r0, g0, b0, _) := load im x y in
                    (r0, g0, b0, load (gaussian_blur (closing r mask)) x y))).
Proof.
  intros Hsz. unfold refine_and_composite, putalpha, width, height.
  simpl. rewrite closing_size, Hsz, !Nat.eqb_refl. reflexivity.
Qed.
End Refiner.

Section RefinerFailure.
Context `{Pillow}.

(** C6 (amended): when an application of the rank filters raises inside
    the [try], the pipeline still reaches the Gaussian blur and returns;
    the blurred mask is the result of the applications that returned
    before the failure, and it is the unrefined mask when the first
    dilation is the one that raises. *)
Theorem closing_failure_keeps_applied_prefix (smooth_radius : Z)
    (mask : Image L) (e : exn) :
  fst (closing_body smooth_radius mask) = Raise e ->
  (forall im : Image RGBA,
      size mask = size im ->
      exists out,
        refine_and_composite im mask smooth_radius = Ok out /\
        forall x y,
          alpha_of (load out x y) =
          load (gaussian_blur (closing smooth_radius mask)) x y) /\
  (exists done k rest,
      closing_filters smooth_radius = done ++ k :: rest /\
      apply_filters done mask = Ok (closing smooth_radius mask) /\
      Image_filter k (closing smooth_radius mask) = Raise e) /\
  (forall e', Image_filter MaxFilter3 mask = Raise e' ->
              closing smooth_radius mask = mask).
Proof.
  intros Hfail.
  assert (Hprefix : exists done k rest,
             closing_filters smooth_radius = done ++ k :: rest /\
             apply_filters done mask = Ok (closing smooth_radius mask) /\
             Image_filter k (closing smooth_radius mask) = Raise e).
  { rewrite closing_snd.
    destruct (closing_body_cases smooth_radius mask)
      as [[Hok _]|[e0 [done [k [rest [He0 [Hfs [Happ Hk]]]]]]]];
      [congruence|].
    exists done, k, rest. repeat split; try assumption.
    rewrite He0 in Hfail. injection Hfail as <-. exact Hk. }
  split; [|split].
  - intros im Hsz. eexists. split.
    + apply refine_and_composite_ok. exact Hsz.
    + intros x y. simpl. destruct (load im x y) as [[[r0 g0] b0] a0].
      reflexivity.
  - exact Hprefix.
  - intros e' Hfirst.
    destruct Hprefix as [done [k [rest [Hfs [Happ _]]]]].
    destruct done as [|k0 done].
    + simpl in Happ. injection Happ as <-. reflexivity.
    + exfalso. unfold closing_filters in Hfs.
      destruct (Z.to_nat smooth_radius) as [|n]; simpl in Hfs;
        [discriminate|].
      injection Hfs as <- _. simpl in Happ. rewrite Hfirst in Happ.
      discriminate.
Qed.
End RefinerFailure.

(** C6 as stated fails: on a platform whose erosion raises, the dilation
    that was already applied is kept, and the blur receives the dilated
    mask, not the unrefined one. *)
Lemma closing_failure_keeps_dilation :
  fst (@closing_body Reference.pillow_without_min 3 Reference.dot_mask) =
  Raise (OtherException "filter not supported") /\
  load Reference.dot_mask 0 0 = 0 /\
  load (@closing Reference.pillow_without_min 3 Reference.dot_mask) 0 0 = 255 /\
  @closing Reference.pillow_without_min 3 Reference.dot_mask <> Reference.dot_mask.
Proof.
  repeat split; try reflexivity.
  intros Heq.
  assert (Hpx : load (@closing Reference.pillow_without_min 3 Reference.dot_mask) 0 0
                = load Reference.dot_mask 0 0) by (rewrite Heq; reflexivity).
  vm_compute in Hpx. discriminate.
Qed.

(* ===================================================================== *)
(** ** The heuristic pipeline as a whole *)
(* ===================================================================== *)

Section Pipeline.
Context {F : Type} `{PyFloat F} `{Pillow}.

Lemma mask_at_size im t : size (fst (mask_at im t)) = size im.
Proof.
  unfold mask_at.
  destruct (build_mask_inv (convert_RGB im) (bg_color_of im) t
              (width im) (height im)) as [Hsz _].
  rewrite Hsz. unfold width, height. destruct (size im); reflexivity.
Qed.

Lemma fraction_at_cases im t :
  ((width im * height im = 0)%nat /\
   fraction_at im t = Raise ZeroDivisionError) \/
  ((0 < width im * height im)%nat /\ exists fr, fraction_at im t = Ok fr).
Proof.
  unfold fraction_at, fg_fraction_of.
  destruct (Z.eqb_spec (Z.of_nat (width im * height im)) 0) as [E|E].
  - left. split; [lia | reflexivity].
  - right. split; [lia | eauto].
Qed.

(** Every call ends in one of two ways: the division by [w * h] raises on
    an image without pixels, or the mask of the last threshold tried is
    refined and composited. *)
Lemma pillow_bg_remove_cases im r mf :
  forall t,
    ((width im * height im = 0)%nat /\
     pillow_bg_remove im t r mf = Raise ZeroDivisionError) \/
    ((0 < width im * height im)%nat /\
     exists t', In t' (thresholds_tried im t r mf) /\
                pillow_bg_remove im t r mf =
                refine_and_composite im (fst (mask_at im t')) r).
Proof.
  apply (calls_ind im r mf). intros t IH.
  unfold pillow_bg_remove, thresholds_tried.
  destruct (fraction_at_cases im t) as [[Hz Hfr]|[Hpos [fr Hfr]]].
  - left. rewrite (calls_raise _ _ _ _ _ Hfr). auto.
  - right. split; [exact Hpos|].
    destruct (retry_test fr mf t) eqn:Htest.
    + rewrite (calls_retry _ _ _ _ _ Hfr Htest). simpl.
      destruct (IH fr Hfr Htest) as [[Hz _]|[_ [t' [Hin Hres]]]]; [lia|].
      exists t'. split; [right; exact Hin | exact Hres].
    + rewrite (calls_final _ _ _ _ _ Hfr Htest). simpl.
      exists t. split; [left; reflexivity | reflexivity].
Qed.

(** C9: the image [pillow_bg_remove] returns has the size and the red,
    green and blue values of its input; only the alpha band is new, the
    refined mask of the last threshold tried.  On an input with at least
    one pixel the function does return. *)
Theorem pillow_bg_remove_keeps_colours (im : Image RGBA)
    (threshold smooth_radius : Z) (min_fg_fraction : F) :
  (forall out,
      pillow_bg_remove im threshold smooth_radius min_fg_fraction = Ok out ->
      size out = size im /\
      exists t',
        In t' (thresholds_tried im threshold smooth_radius
                                min_fg_fraction) /\
        forall x y,
          rgb_of (load out x y) = rgb_of (load im x y) /\
          alpha_of (load out x y) =
          load (gaussian_blur
                  (closing smooth_radius (fst (mask_at im t')))) x y) /\
  ((1 <= width im)%nat -> (1 <= height im)%nat ->
   exists out,
     pillow_bg_remove im threshold smooth_radius min_fg_fraction = Ok out).
Proof.
  destruct (pillow_bg_remove_cases im smooth_radius min_fg_fraction
              threshold) as [[Hz Hres]|[Hpos [t' [Hin Hres]]]].
  - split.
    + intros out Hout. congruence.
    + intros Hw Hh. nia.
  - rewrite (refine_and_composite_ok im _ smooth_radius (mask_at_size im t'))
      in Hres.
    split.
    + intros out Hout. rewrite Hres in Hout. injection Hout as <-.
      split; [reflexivity|].
      exists t'. split; [exact Hin|].
      intros x y. simpl. destruct (load im x y) as [[[r0 g0] b0] a0].
      split; reflexivity.
    + intros _ _. eexists. exact Hres.
Qed.
End Pipeline.

Section OrchestratorFacts.
Context {F : Type} `{PyFloat F} `{Pillow} `{Services}.

(** C5: on an input with at least one pixel [remove_background] returns
    an RGBA image and never raises; when rembg is not installed, or not
    requested, or the attempt raises at any of its three steps (encoding,
    the rembg call, decoding its output), the result is the one of the
    heuristic pipeline with threshold 45 and radius 3. *)
Theorem remove_background_never_raises (im : Image RGBA) (do_rembg : bool) :
  (1 <= width im)%nat -> (1 <= height im)%nat ->
  (exists out, remove_background im do_rembg = Ok out) /\
  (REMBG_AVAILABLE = false \/ do_rembg = false \/
   (exists e, save_PNG im = Raise e) \/
   (exists buf e, save_PNG im = Ok buf /\ rembg_remove buf = Raise e) \/
   (exists buf out_bytes e,
       save_PNG im = Ok buf /\ rembg_remove buf = Ok out_bytes /\
       Image_open_RGBA out_bytes = Raise e) ->
   remove_background im do_rembg =
   pillow_bg_remove im 45 3 default_min_fg_fraction /\
   exists out,
     pillow_bg_remove im 45 3 default_min_fg_fraction = Ok out /\
     size out = size im).
Proof.
  intros Hw Hh.
  assert (Hheur : exists out,
             pillow_bg_remove im 45 3 default_min_fg_fraction = Ok out /\
             size out = size im).
  { destruct (pillow_bg_remove_cases im 3 default_min_fg_fraction 45)
      as [[Hz _]|[_ [t' [_ Hres]]]]; [nia|].
    rewrite (refine_and_composite_ok im _ 3 (mask_at_size im t')) in Hres.
    eexists. split; [exact Hres | reflexivity]. }
  destruct Hheur as [out [Hout Hsize]].
  split.
  - unfold remove_background.
    destruct (REMBG_AVAILABLE && do_rembg); [|eauto].
    destruct (rembg_attempt im); eauto.
  - intros Hcase. split; [|exists out; split; [exact Hout | exact Hsize]].
    unfold remove_background, rembg_attempt.
    destruct Hcase as [E|[E|[[e E]|[[buf [e [E1 E2]]]|
                                     [buf [ob [e [E1 [E2 E3]]]]]]]]].
    + rewrite E. reflexivity.
    + rewrite E, andb_false_r. reflexivity.
    + rewrite E. simpl. destruct (_ && _); reflexivity.
    + rewrite E1. simpl. rewrite E2. simpl. destruct (_ && _); reflexivity.
    + rewrite E1. simpl. rewrite E2. simpl. rewrite E3.
      destruct (_ && _); reflexivity.
Qed.
End OrchestratorFacts.

(* ===================================================================== *)
(** ** The background colour estimator against its description *)
(* ===================================================================== *)

Section EstimateSpec.
Context {F : Type} `{PyFloat F}.

Lemma corner_crops_spec im S : corner_crops im S = spec_corners im S.
Proof.
  unfold corner_crops, spec_corners, width, height, crop, sub_rectangle.
  destruct (size im) as [w h]. cbn [fst snd Nat.max].
  rewrite !Nat.sub_0_r.
  replace (w - (w - S))%nat with (Nat.min S w) by lia.
  replace (h - (h - S))%nat with (Nat.min S h) by lia.
  replace (w - Nat.min S w)%nat with (w - S)%nat by lia.
  replace (h - Nat.min S h)%nat with (h - S)%nat by lia.
  reflexivity.
Qed.

Lemma add_corner_eq s0 s1 s2 count c :
  add_corner ((s0, s1, s2), count) c =
  if has_pixels c
  then ((fadd s0 (ImageStat.mean c 0),
         fadd s1 (ImageStat.mean c 1),
         fadd s2 (ImageStat.mean c 2)), count + 1)
  else ((s0, s1, s2), count).
Proof.
  unfold add_corner, ImageStat.count, has_pixels.
  destruct (Nat.ltb_spec 0 (width c * height c));
    destruct (Z.ltb_spec 0 (Z.of_nat (width c * height c)));
    try lia; reflexivity.
Qed.

Lemma add_corner_fold l : forall s0 s1 s2 count,
  fold_left add_corner l ((s0, s1, s2), count) =
  let valid := filter has_pixels l in
  ((fold_left fadd (map (fun c => ImageStat.mean c 0) valid) s0,
    fold_left fadd (map (fun c => ImageStat.mean c 1) valid) s1,
    fold_left fadd (map (fun c => ImageStat.mean c 2) valid) s2),
   count + Z.of_nat (List.length valid)).
Proof.
  induction l as [|c l IH]; intros s0 s1 s2 count.
  - simpl. f_equal. lia.
  - cbn [fold_left filter]. rewrite add_corner_eq.
    destruct (has_pixels c); rewrite IH; cbv zeta;
      cbn [map fold_left List.length]; f_equal; lia.
Qed.

Lemma estimate_refines_spec im S :
  estimate_background_color im S = spec_estimate im S.
Proof.
  unfold estimate_background_color, spec_estimate.
  rewrite corner_crops_spec, add_corner_fold. cbv zeta.
  rewrite Z.add_0_l.
  destruct (filter has_pixels (spec_corners im S)) as [|c valid].
  - reflexivity.
  - destruct (Z.eqb_spec (Z.of_nat (List.length (c :: valid))) 0)
      as [E|_]; [simpl in E; lia|].
    unfold average. rewrite !length_map. reflexivity.
Qed.
End EstimateSpec.

Lemma band_in_range i p : rgb_in_range p -> 0 <= band i p <= 255.
Proof.
  destruct p as [[r g] b]. unfold rgb_in_range, band.
  intros (Hr & Hg & Hb). destruct i as [|[|i]]; assumption.
Qed.


(** The sum of a band over an image whose values lie in [lo, hi]. *)
Lemma ImageStat_sum_between c i lo hi :
  (forall x y, (x < width c)%nat -> (y < height c)%nat ->
               lo <= band i (load c x y) <= hi) ->
  lo * Z.of_nat (width c * height c) <= ImageStat.sum c i
  <= hi * Z.of_nat (width c * height c).
Proof.
  intros Hpx. unfold ImageStat.sum.
  set (Inv := fun (y x : nat) (acc : Z) =>
    lo * (Z.of_nat y * Z.of_nat (width c) + Z.of_nat x) <= acc
    <= hi * (Z.of_nat y * Z.of_nat (width c) + Z.of_nat x)).
  assert (Hinv : Inv (height c) O
                 (for_each_pixel (width c) (height c)
                    (fun acc x y => acc + band i (load c x y)) 0)).
  { apply for_each_pixel_inv; unfold Inv.
    - lia.
    - intros x y acc Hx Hy Hacc. pose proof (Hpx x y Hx Hy). lia.
    - intros y acc Hy Hacc. rewrite Nat2Z.inj_succ, Z.mul_succ_l. lia. }
  unfold Inv in Hinv. rewrite Nat2Z.inj_mul. lia.
Qed.

Lemma has_pixels_sub_rectangle im x0 y0 cw ch :
  has_pixels (sub_rectangle im x0 y0 cw ch) = (0 <? cw * ch)%nat.
Proof. reflexivity. Qed.

Section EstimateRange.
Context {F : Type} `{FloatBounds F}.








Lemma fold_fadd_between_general l lo hi : forall s a b,
  0 <= lo <= hi ->
  Forall (fbetween lo hi) l ->
  fbetween a b s ->
  0 <= a -> b + hi * Z.of_nat (List.length l) <= 2 ^ 53 ->
  fbetween (a + lo * Z.of_nat (List.length l))
           (b + hi * Z.of_nat (List.length l)) (fold_left fadd l s).
Proof.
  induction l as [|x l IH]; intros s a b Hlh Hall Hs Ha Hbig;
    cbn [fold_left List.length] in *.
  - replace (a + lo * Z.of_nat 0) with a by lia.
    replace (b + hi * Z.of_nat 0) with b by lia. exact Hs.
  - inversion Hall as [|? ? Hx Hl]; subst.
    replace (a + lo * Z.of_nat (S (List.length l)))
      with ((a + lo) + lo * Z.of_nat (List.length l)) by lia.
    replace (b + hi * Z.of_nat (S (List.length l)))
      with ((b + hi) + hi * Z.of_nat (List.length l)) by lia.
    apply IH; [exact Hlh | exact Hl | | lia | lia].
    apply fbetween_fadd; [exact Hs | exact Hx | nia].
Qed.

(** A band of the estimate lies between bounds that hold for that band on
    the whole image. *)
Lemma estimate_band_between (im : Image RGB) (S i : nat) (lo hi : Z) :
  (i < 3)%nat ->
  (1 <= width im)%nat -> (1 <= height im)%nat -> (1 <= S)%nat ->
  255 * Z.of_nat (width im * height im) <= 2 ^ 53 ->
  0 <= lo <= hi -> hi <= 255 ->
  (forall x y, (x < width im)%nat -> (y < height im)%nat ->
               lo <= band i (load im x y) <= hi) ->
  lo <= band i (estimate_background_color im S) <= hi.
Proof.
  intros Hi Hw Hh HS Hsmall Hlh Hhi Hpx.
  rewrite estimate_refines_spec. unfold spec_estimate, spec_corners.
  cbn [filter]. rewrite !has_pixels_sub_rectangle.
  destruct (Nat.ltb_spec 0 (Nat.min S (width im) * Nat.min S (height im)))
    as [Hpos|]; [|nia].
  assert (Hle : (Nat.min S (width im) * Nat.min S (height im)
                 <= width im * height im)%nat)
    by (apply Nat.mul_le_mono; apply Nat.le_min_r).
  assert (Hmean : forall x0 y0,
             (x0 + Nat.min S (width im) <= width im)%nat ->
             (y0 + Nat.min S (height im) <= height im)%nat ->
             forall j, j = i ->
             fbetween lo hi
               (ImageStat.mean
                  (sub_rectangle im x0 y0 (Nat.min S (width im))
                                 (Nat.min S (height im))) j)).
  { intros x0 y0 Hx0 Hy0 j ->. unfold ImageStat.mean, ImageStat.count.
    set (c := sub_rectangle im x0 y0 (Nat.min S (width im))
                            (Nat.min S (height im))).
    assert (Hsum : lo * Z.of_nat (width c * height c) <= ImageStat.sum c i
                   <= hi * Z.of_nat (width c * height c)).
    { apply ImageStat_sum_between.
      intros x y Hx Hy. unfold c, sub_rectangle, width, height in *.
      cbn [size fst snd load] in *. apply Hpx; lia. }
    change (width c * height c)%nat
      with (Nat.min S (width im) * Nat.min S (height im))%nat in *.
    set (n := Z.of_nat (Nat.min S (width im) * Nat.min S (height im))) in *.
    assert (Hn : 0 < n) by (unfold n; lia).
    assert (Hbig : 255 * n <= 2 ^ 53) by (unfold n; lia).
    assert (hi * n <= 255 * n) by (apply Z.mul_le_mono_nonneg_r; lia).
    assert (0 <= lo * n) by (apply Z.mul_nonneg_nonneg; lia).
    apply fbetween_truediv; [lia | lia | lia | exact Hsum]. }
  assert (Havg : forall j, j = i ->
             lo <= int_of_float
                     (average
                        (map (fun c => ImageStat.mean c j)
                           [sub_rectangle im 0 0 (Nat.min S (width im))
                              (Nat.min S (height im));
                            sub_rectangle im
                              (width im - Nat.min S (width im)) 0
                              (Nat.min S (width im)) (Nat.min S (height im));
                            sub_rectangle im 0
                              (height im - Nat.min S (height im))
                              (Nat.min S (width im)) (Nat.min S (height im));
                            sub_rectangle im
                              (width im - Nat.min S (width im))
                              (height im - Nat.min S (height im))
                              (Nat.min S (width im))
                              (Nat.min S (height im))])) <= hi).
  { intros j Hj. unfold average. cbn [map List.length].
    apply fbetween_int_fdiv; [lia | lia |].
    replace (lo * Z.of_nat 4) with (0 + lo * Z.of_nat 4) by lia.
    replace (hi * Z.of_nat 4) with (0 + hi * Z.of_nat 4) by lia.
    apply (fold_fadd_between_general
             [_; _; _; _] lo hi (float_of_int 0) 0 0);
      [exact Hlh | | apply fbetween_zero | lia | simpl; lia].
    repeat constructor; apply Hmean; try exact Hj; lia. }
  destruct i as [|[|[|i]]]; [| | |lia]; cbn [band]; apply Havg; reflexivity.
Qed.
End EstimateRange.


(* ===================================================================== *)
(** ** Exact arithmetic satisfies the bounds *)
(* ===================================================================== *)

Lemma Qbetween_div lo hi (x : Q) n :
  0 < n ->
  Qbetween (lo * n) (hi * n) x ->
  Qbetween lo hi (Qred (x / inject_Z n)).
Proof.
  intros Hn [Hlo Hhi]. unfold Qbetween. rewrite Qred_correct.
  assert (Hn' : (0 < inject_Z n)%Q)
    by (change 0%Q with (inject_Z 0); rewrite <- Zlt_Qlt; exact Hn).
  rewrite inject_Z_mult in Hlo, Hhi.
  split.
  - apply Qle_shift_div_l; assumption.
  - apply Qle_shift_div_r; assumption.
Qed.

Lemma Qbetween_inject z : Qbetween z z (inject_Z z).
Proof. split; apply Qle_refl. Qed.

Lemma Qbetween_truediv lo hi a n :
  0 < n -> lo * n <= a <= hi * n ->
  Qbetween lo hi (Exact.truediv a n).
Proof.
  intros Hn [Hlo Hhi]. unfold Exact.truediv.
  apply Qbetween_div; [exact Hn|].
  split; rewrite <- Zle_Qle; assumption.
Qed.

Lemma Qbetween_add lo1 hi1 lo2 hi2 x y :
  Qbetween lo1 hi1 x -> Qbetween lo2 hi2 y ->
  Qbetween (lo1 + lo2) (hi1 + hi2) (Exact.add x y).
Proof.
  intros [Hx1 Hx2] [Hy1 Hy2]. unfold Qbetween, Exact.add.
  rewrite Qred_correct, !inject_Z_plus.
  split; apply Qplus_le_compat; assumption.
Qed.

Lemma Qbetween_to_Z lo hi x :
  Qbetween lo hi x -> lo <= Exact.to_Z x <= hi.
Proof.
  intros [Hlo Hhi]. unfold Exact.to_Z.
  destruct x as [num den]. unfold Qle in *. simpl in *.
  rewrite Z.mul_1_r in *.
  destruct (Z.le_gt_cases 0 num) as [Hpos|Hneg].
  - rewrite Z.quot_div_nonneg by lia.
    split.
    + apply Z.div_le_lower_bound; lia.
    + apply Z.div_le_upper_bound; lia.
  - replace num with (- (- num)) by lia.
    rewrite Z.quot_opp_l by lia.
    rewrite Z.quot_div_nonneg by lia.
    split.
    + assert (- num / Z.pos den <= - lo); [|lia].
      apply Z.div_le_upper_bound; lia.
    + assert (- hi <= - num / Z.pos den); [|lia].
      apply Z.div_le_lower_bound; lia.
Qed.

Lemma Qbetween_int_div lo hi n (x : Q) :
  0 < n -> Qbetween (lo * n) (hi * n) x ->
  lo <= Exact.to_Z (Exact.div x (inject_Z n)) <= hi.
Proof.
  intros Hn Hx. apply Qbetween_to_Z. unfold Exact.div.
  apply Qbetween_div; assumption.
Qed.

#[export] Instance exact_bounds : FloatBounds Q := {|
  fbetween := Qbetween;
  fbetween_zero := Qbetween_inject 0;
  fbetween_truediv := fun lo hi a n Hn _ _ Ha =>
    Qbetween_truediv lo hi a n (proj1 Hn) Ha;
  fbetween_fadd := fun lo1 hi1 lo2 hi2 x y Hx Hy _ =>
    Qbetween_add lo1 hi1 lo2 hi2 x y Hx Hy;
  fbetween_int_fdiv := fun lo hi n x Hn _ Hx =>
    Qbetween_int_div lo hi n x (proj1 Hn) Hx
|}.

(* ===================================================================== *)
(** ** Binary64 satisfies the bounds *)
(* ===================================================================== *)

#[export] Instance binary64_bounds : FloatBounds float := {|
  fbetween := between64;
  fbetween_zero := between64_of_int_0;
  fbetween_truediv := between64_truediv;
  fbetween_fadd := between64_fadd;
  fbetween_int_fdiv := between64_int_fdiv
|}.

(* ===================================================================== *)
(** ** The downscaling *)
(* ===================================================================== *)

Section DownscaleFacts.
Context {F : Type} `{PyFloat F} `{Pillow}.

(** An image that fits is returned as it is. *)
Lemma downscale_if_needed_fits (im : Image RGBA) (max_dim : Z) :
  Z.max (Z.of_nat (width im)) (Z.of_nat (height im)) <= max_dim ->
  downscale_if_needed im max_dim = Ok im.
Proof.
  intros Hfit. unfold downscale_if_needed.
  destruct (Z.leb_spec (Z.max (Z.of_nat (width im)) (Z.of_nat (height im)))
                       max_dim); [reflexivity | lia].
Qed.
End DownscaleFacts.

(** Truncation of an exact quotient of non-negative ints. *)
Lemma exact_to_Z_quotient (x : Q) (a m : Z) :
  0 <= a -> 0 < m ->
  (x == inject_Z a / inject_Z m)%Q ->
  Exact.to_Z (Qred x) = a / m.
Proof.
  intros Ha Hm Hx. unfold Exact.to_Z.
  assert (Hq : (Qred x == inject_Z a / inject_Z m)%Q)
    by (rewrite Qred_correct; exact Hx).
  destruct (Qred x) as [num den].
  assert (Hm' : ~ (inject_Z m == 0)%Q).
  { intros E. unfold Qeq in E. simpl in E. lia. }
  assert (Hcross : num * m = a * Z.pos den).
  { assert (E : ((num # den) * inject_Z m == inject_Z a)%Q).
    { rewrite Hq. field. exact Hm'. }
    unfold Qeq, Qmult, inject_Z in E. simpl in E. lia. }
  simpl.
  assert (Hnum : 0 <= num) by nia.
  rewrite Z.quot_div_nonneg by lia.
  rewrite <- (Z.div_mul_cancel_r num (Z.pos den) m) by lia.
  rewrite Hcross, (Z.mul_comm a).
  apply Z.div_mul_cancel_l; lia.
Qed.

Section DownscaleExact.
Context `{Pillow}.

(** In exact arithmetic the requested size is [(w * max_dim / m,
    h * max_dim / m)] with [m = max(w, h)], whose larger side is the
    maximum dimension: the formula of [downscale_if_needed] aims at it. *)
Lemma downscale_if_needed_exact (im : Image RGBA) (max_dim : Z) :
  let w := Z.of_nat (width im) in
  let h := Z.of_nat (height im) in
  0 < max_dim < Z.max w h ->
  downscale_if_needed (H := exactQ) im max_dim =
  Image_resize im (w * max_dim / Z.max w h, h * max_dim / Z.max w h) /\
  Z.max (w * max_dim / Z.max w h) (h * max_dim / Z.max w h) = max_dim.
Proof.
  intros w h Hmax. split.
  - unfold downscale_if_needed. fold w h.
    destruct (Z.leb_spec (Z.max w h) max_dim); [lia|].
    destruct (Z.eqb_spec (Z.max w h) 0); [lia|].
    cbn [int_of_float fmul float_of_int truediv exactQ].
    unfold Exact.mul, Exact.truediv.
    rewrite (exact_to_Z_quotient _ (w * max_dim) (Z.max w h)),
            (exact_to_Z_quotient _ (h * max_dim) (Z.max w h)); try nia.
    + reflexivity.
    + rewrite Qred_correct, inject_Z_mult. unfold Qdiv. ring.
    + rewrite Qred_correct, inject_Z_mult. unfold Qdiv. ring.
  - destruct (Z.max_spec w h) as [[Hlt ->]|[Hle ->]].
    + assert (Hh : h * max_dim / h = max_dim)
        by (rewrite Z.mul_comm; apply Z.div_mul; lia).
      rewrite Hh. apply Z.max_r. apply Z.div_le_upper_bound; nia.
    + assert (Hw : w * max_dim / w = max_dim)
        by (rewrite Z.mul_comm; apply Z.div_mul; lia).
      rewrite Hw. apply Z.max_l. apply Z.div_le_upper_bound; nia.
Qed.
End DownscaleExact.

(** C8, where the code departs from it: with Python's floats an image of
    2215 by 100 pixels is resized to 2047 by 92, since
    [2215 * (2048 / 2215)] is the float just below 2048 and [int]
    truncates; the larger side is not the maximum dimension 2048. *)
Theorem downscale_if_needed_2215_gives_2047 (P : Pillow)
    (px : nat -> nat -> RGBA) :
  let im := mkImage (2215, 100)%nat px in
  Binary64.truediv 2048 2215 = 0x1.d965d27694a15p-1%float /\
  int_of_float (fmul (float_of_int 2215) (Binary64.truediv 2048 2215)) = 2047 /\
  downscale_if_needed (H := binary64) im MAX_DIMENSION =
  Ok (mkImage (2047, 92)%nat (LANCZOS im (2047, 92)%nat)).
Proof.
  intros im. split; [|split]; vm_compute; reflexivity.
Qed.

(* ===================================================================== *)
(** ** The sources of the /upload endpoint *)
(* ===================================================================== *)

Section UploadFacts.
Context {F : Type} `{PyFloat F} `{Pillow} `{Services}.

(** After the input is read the endpoint calls no source any more: its
    log is the log of [read_input]. *)
Lemma upload_garment_log file image_url base64_image garment_type gender
    do_remove_bg log :
  snd (upload_garment file image_url base64_image garment_type gender
                      do_remove_bg log) =
  snd (read_input file image_url base64_image log).
Proof.
  unfold upload_garment, StxM.try_except, StxM.bind, StxM.ret, StxM.raise,
    lift.
  destruct (read_input file image_url base64_image log) as [[data|e] log'].
  - destruct (pil_open_image data) as [im|e]; [|destruct e; reflexivity].
    destruct (downscale_if_needed im MAX_DIMENSION) as [im'|e];
      [|destruct e; reflexivity].
    destruct do_remove_bg as [[|]|].
    + destruct (remove_background im' true) as [im''|e];
        [|destruct e; reflexivity].
      destruct (pil_to_base64_png im'') as [s|e];
        [reflexivity | destruct e; reflexivity].
    + destruct (pil_to_base64_png im') as [s|e];
        [reflexivity | destruct e; reflexivity].
    + destruct (pil_to_base64_png im') as [s|e];
        [reflexivity | destruct e; reflexivity].
  - destruct e; reflexivity.
Qed.

(** The input is a function of the first source present. *)
Lemma read_input_file f image_url base64_image :
  read_input (Some f) image_url base64_image = read_input (Some f) None None.
Proof. reflexivity. Qed.

Lemma read_input_url image_url base64_image :
  truthy image_url = true ->
  read_input None image_url base64_image = read_input None image_url None.
Proof. intros Hu. unfold read_input. rewrite Hu. reflexivity. Qed.

Lemma read_input_base64 image_url base64_image :
  truthy image_url = false ->
  read_input None image_url base64_image = read_input None None base64_image.
Proof. intros Hu. unfold read_input. rewrite Hu. reflexivity. Qed.

Lemma read_input_file_log f image_url base64_image :
  snd (read_input (Some f) image_url base64_image []) = [FileRead].
Proof.
  unfold read_input, file_read, StxM.bind, StxM.seq_, emit, StxM.ret,
    StxM.raise. simpl.
  destruct (_ =? 0); [reflexivity|].
  destruct (MAX_UPLOAD_BYTES <? _); reflexivity.
Qed.

Lemma read_input_url_log u base64_image :
  truthy (Some u) = true ->
  snd (read_input None (Some u) base64_image []) = [] \/
  snd (read_input None (Some u) base64_image []) = [Fetch u].
Proof.
  intros Hu. unfold read_input. rewrite Hu.
  destruct (negb _); [left; reflexivity|].
  right.
  unfold fetch_image_from_url.
  cbv [StxM.bind StxM.seq_ emit StxM.ret StxM.raise].
  destruct (requests_get u) as [content|e]; [|reflexivity].
  simpl. destruct (MAX_UPLOAD_BYTES <? _); reflexivity.
Qed.

Lemma read_input_base64_log image_url b :
  truthy image_url = false ->
  truthy (Some b) = true ->
  snd (read_input None image_url (Some b) []) = [] \/
  exists s, snd (read_input None image_url (Some b) []) = [B64Decode s].
Proof.
  intros Hu Hb. unfold read_input. rewrite Hu, Hb.
  unfold base64_b64decode, StxM.try_except, StxM.bind, StxM.seq_, emit,
    StxM.ret, StxM.raise, lift.
  destruct (String.prefix _ b).
  - destruct (split_comma b) as [[hd b64]|]; [|left; reflexivity].
    right. exists b64. reflexivity.
  - right. exists b. simpl. destruct (b64decode b); reflexivity.
Qed.

(** The endpoint answers from the bytes that [read_input] returns, and
    with the exception it raises otherwise. *)
Lemma upload_garment_from_bytes file image_url base64_image garment_type
    gender do_remove_bg log :
  upload_garment file image_url base64_image garment_type gender
                 do_remove_bg log =
  match read_input file image_url base64_image log with
  | (Ok img_bytes, log') =>
      upload_from_bytes img_bytes garment_type gender do_remove_bg log'
  | (Raise (HTTPException status_code detail), log') =>
      (Raise (HTTPException status_code detail), log')
  | (Raise e, log') => (Ok (JSONResponse (Error (str_exn e)) 500), log')
  end.
Proof.
  unfold upload_garment, upload_from_bytes, StxM.try_except, StxM.bind.
  destruct (read_input file image_url base64_image log) as [[data|e] log'].
  - reflexivity.
  - destruct e; reflexivity.
Qed.

(** A source that delivers bytes within the limits is what is read. *)
Lemma read_input_file_ok f image_url base64_image :
  1 <= Z.of_nat (List.length (file_content f)) <= MAX_UPLOAD_BYTES ->
  read_input (Some f) image_url base64_image []
  = (Ok (file_content f), [FileRead]).
Proof.
  intros Hlen.
  unfold read_input, file_read, StxM.bind, StxM.seq_, emit, StxM.ret,
    StxM.raise. simpl.
  destruct (_ =? 0) eqn:E0; [apply Z.eqb_eq in E0; lia|].
  destruct (MAX_UPLOAD_BYTES <? _) eqn:E1; [apply Z.ltb_lt in E1; lia|].
  reflexivity.
Qed.

Lemma read_input_url_ok u base64_image content :
  truthy (Some u) = true ->
  urlparse_scheme u = "http"%string \/ urlparse_scheme u = "https"%string ->
  requests_get u = Ok content ->
  Z.of_nat (List.length content) <= MAX_UPLOAD_BYTES ->
  read_input None (Some u) base64_image [] = (Ok content, [Fetch u]).
Proof.
  intros Hu Hscheme Hget Hlen. unfold read_input. rewrite Hu.
  assert (Hs : (String.eqb (urlparse_scheme u) "http"
                || String.eqb (urlparse_scheme u) "https")%bool = true).
  { destruct Hscheme as [E|E]; rewrite E; reflexivity. }
  rewrite Hs. cbn [negb].
  unfold fetch_image_from_url.
  cbv [StxM.bind StxM.seq_ emit StxM.ret StxM.raise].
  rewrite Hget. simpl.
  destruct (MAX_UPLOAD_BYTES <? _) eqn:E1; [apply Z.ltb_lt in E1; lia|].
  reflexivity.
Qed.

Lemma read_input_base64_ok image_url b payload data :
  truthy image_url = false ->
  truthy (Some b) = true ->
  base64_payload b = Some payload ->
  b64decode payload = Ok data ->
  read_input None image_url (Some b) [] = (Ok data, [B64Decode payload]).
Proof.
  intros Hu Hb Hpay Hdec. unfold read_input. rewrite Hu, Hb.
  unfold base64_payload in Hpay.
  unfold base64_b64decode, StxM.try_except, StxM.bind, StxM.seq_, emit,
    StxM.ret, StxM.raise, lift.
  destruct (String.prefix "data:" b).
  - destruct (split_comma b) as [[hd b64]|]; [|discriminate].
    injection Hpay as ->. rewrite Hdec. reflexivity.
  - injection Hpay as ->. cbn [app]. rewrite Hdec. reflexivity.
Qed.

(** An http(s) URL is fetched, and a base64 text with a payload is
    decoded, whatever comes of it. *)
Lemma read_input_url_fetched u base64_image :
  truthy (Some u) = true ->
  urlparse_scheme u = "http"%string \/ urlparse_scheme u = "https"%string ->
  snd (read_input None (Some u) base64_image []) = [Fetch u].
Proof.
  intros Hu Hscheme. unfold read_input. rewrite Hu.
  assert (Hs : (String.eqb (urlparse_scheme u) "http"
                || String.eqb (urlparse_scheme u) "https")%bool = true).
  { destruct Hscheme as [E|E]; rewrite E; reflexivity. }
  rewrite Hs. cbn [negb].
  unfold fetch_image_from_url.
  cbv [StxM.bind StxM.seq_ emit StxM.ret StxM.raise].
  destruct (requests_get u) as [content|e]; [|reflexivity].
  simpl. destruct (MAX_UPLOAD_BYTES <? _); reflexivity.
Qed.

Lemma read_input_base64_decoded image_url b payload :
  truthy image_url = false ->
  truthy (Some b) = true ->
  base64_payload b = Some payload ->
  snd (read_input None image_url (Some b) []) = [B64Decode payload].
Proof.
  intros Hu Hb Hpay. unfold read_input. rewrite Hu, Hb.
  unfold base64_payload in Hpay.
  unfold base64_b64decode, StxM.try_except, StxM.bind, StxM.seq_, emit,
    StxM.ret, StxM.raise, lift.
  destruct (String.prefix "data:" b).
  - destruct (split_comma b) as [[hd b64]|]; [|discriminate].
    injection Hpay as ->. reflexivity.
  - injection Hpay as ->. simpl. destruct (b64decode payload); reflexivity.
Qed.

(** C10: the endpoint uses one source, the first present among the file,
    a non-empty [image_url] and a non-empty [base64_image]: its outcome
    does not depend on the sources after that one, which are neither
    fetched nor decoded; that source is accessed (the file is read, an
    http(s) URL is fetched, the base64 text is decoded) and, when it
    delivers bytes within the limits, the answer is the one the rest of
    the endpoint computes from these bytes; without any source the request
    is refused with status 400. *)
Theorem upload_source_precedence (file : option UploadFile)
    (image_url base64_image garment_type gender : option string)
    (do_remove_bg : option bool) :
  let run f u b :=
    upload_garment f u b garment_type gender do_remove_bg [] in
  let answer img_bytes log :=
    upload_from_bytes img_bytes garment_type gender do_remove_bg log in
  match file with
  | Some f =>
      run file image_url base64_image = run file None None /\
      snd (run file image_url base64_image) = [FileRead] /\
      (1 <= Z.of_nat (List.length (file_content f)) <= MAX_UPLOAD_BYTES ->
       run file image_url base64_image = answer (file_content f) [FileRead])
  | None =>
      if truthy image_url then
        run None image_url base64_image = run None image_url None /\
        (snd (run None image_url base64_image) = [] \/
         exists u, image_url = Some u /\
                   snd (run None image_url base64_image) = [Fetch u]) /\
        (forall u,
            image_url = Some u ->
            urlparse_scheme u = "http"%string \/
            urlparse_scheme u = "https"%string ->
            snd (run None image_url base64_image) = [Fetch u] /\
            forall content,
              requests_get u = Ok content ->
              Z.of_nat (List.length content) <= MAX_UPLOAD_BYTES ->
              run None image_url base64_image = answer content [Fetch u])
      else if truthy base64_image then
        run None image_url base64_image = run None None base64_image /\
        (snd (run None image_url base64_image) = [] \/
         exists s, snd (run None image_url base64_image) = [B64Decode s]) /\
        (forall b payload,
            base64_image = Some b ->
            base64_payload b = Some payload ->
            snd (run None image_url base64_image) = [B64Decode payload] /\
            forall data,
              b64decode payload = Ok data ->
              run None image_url base64_image
              = answer data [B64Decode payload])
      else
        run None image_url base64_image =
        (Raise (HTTPException 400 "No file/image_url/base64_image provided"),
         [])
  end.
Proof.
  intros run answer. unfold run, answer.
  destruct file as [f|].
  - split; [|split].
    + unfold upload_garment. rewrite read_input_file. reflexivity.
    + rewrite upload_garment_log. apply read_input_file_log.
    + intros Hlen.
      rewrite upload_garment_from_bytes, (read_input_file_ok _ _ _ Hlen).
      reflexivity.
  - destruct (truthy image_url) eqn:Hu.
    + split; [|split].
      * unfold upload_garment. rewrite (read_input_url _ _ Hu). reflexivity.
      * rewrite upload_garment_log.
        destruct image_url as [u|]; [|discriminate].
        destruct (read_input_url_log u base64_image Hu) as [E|E];
          [left; exact E | right; exists u; split; [reflexivity | exact E]].
      * intros u -> Hscheme. split.
        -- rewrite upload_garment_log.
           apply read_input_url_fetched; assumption.
        -- intros content Hget Hlen.
           rewrite upload_garment_from_bytes,
             (read_input_url_ok _ _ _ Hu Hscheme Hget Hlen).
           reflexivity.
    + destruct (truthy base64_image) eqn:Hb.
      * split; [|split].
        -- unfold upload_garment. rewrite (read_input_base64 _ _ Hu).
           reflexivity.
        -- rewrite upload_garment_log.
           destruct base64_image as [b|]; [|discriminate].
           apply read_input_base64_log; assumption.
        -- intros b payload -> Hpay. split.
           ++ rewrite upload_garment_log.
              apply read_input_base64_decoded; assumption.
           ++ intros data Hdec.
              rewrite upload_garment_from_bytes,
                (read_input_base64_ok _ _ _ _ Hu Hb Hpay Hdec).
              reflexivity.
      * unfold upload_garment, StxM.try_except, StxM.bind, read_input.
        rewrite Hu, Hb. reflexivity.
Qed.
End UploadFacts.

(* ===================================================================== *)
(** ** The theorems at concrete inputs *)
(* ===================================================================== *)


(** A uniformly white 3x3 image: no pixel is foreground at threshold 45,
    so the call retries at 30. *)
Lemma pillow_bg_remove_retry_witness :
  let im := Image_new (3, 3)%nat Reference.white in
  pillow_bg_remove (H := binary64) (H0 := Reference.pillow)
    im 45 3 default_min_fg_fraction =
  pillow_bg_remove (H := binary64) (H0 := Reference.pillow)
    im 30 3 default_min_fg_fraction.
Proof.
  refine (proj1 (pillow_bg_remove_retry (H := binary64)
                   (H0 := Reference.pillow)
                   (Image_new (3, 3)%nat Reference.white) 45 3
                   default_min_fg_fraction 0%float _ _ _)).
  - vm_compute. reflexivity.
  - vm_compute. reflexivity.
  - lia.
Defined.

Lemma remove_background_never_raises_witness :
  (exists out,
      remove_background (H := binary64) (H0 := Reference.pillow)
        (H1 := Reference.failing_rembg) Reference.red_square true = Ok out).
Proof.
  refine (proj1 (remove_background_never_raises (H := binary64)
                   (H0 := Reference.pillow) (H1 := Reference.failing_rembg)
                   Reference.red_square true _ _)).
  - vm_compute. lia.
  - vm_compute. lia.
Defined.

(** The erosion raises after three dilations. *)
Lemma closing_failure_keeps_applied_prefix_witness :
  exists done k rest,
    @closing_filters Reference.pillow_without_min 3 = done ++ k :: rest /\
    @apply_filters done Reference.dot_mask =
    Ok (@closing Reference.pillow_without_min 3 Reference.dot_mask) /\
    Image_filter k (@closing Reference.pillow_without_min 3 Reference.dot_mask) =
    Raise (OtherException "filter not supported").
Proof.
  apply (@closing_failure_keeps_applied_prefix
           Reference.pillow_without_min 3 Reference.dot_mask
           (OtherException "filter not supported")).
  reflexivity.
Defined.

(** On the white image with the red square: 4 foreground pixels out of
    16 at the threshold 20, none at 400. *)
Lemma fg_fraction_antitone_witness :
  let rgb := convert_RGB Reference.red_square in
  let c1 := snd (build_mask rgb (255, 255, 255) 20 4 4) in
  let c2 := snd (build_mask rgb (255, 255, 255) 400 4 4) in
  c2 <= c1 /\
  exists f1 f2 : float,
    fg_fraction_of (H := binary64) c1 4 4 = Ok f1 /\
    fg_fraction_of (H := binary64) c2 4 4 = Ok f2 /\
    PrimFloat.leb f2 f1 = true /\
    PrimFloat.ltb f1 f2 = false.
Proof.
  apply (fg_fraction_antitone
           (convert_RGB Reference.red_square) (255, 255, 255) 20 400 4 4).
  - lia.
  - simpl. lia.
  - vm_compute. intros Hcmp. discriminate Hcmp.
Defined.

Lemma red_square_wf : wf_rgb (convert_RGB Reference.red_square).
Proof.
  intros x y Hx Hy.
  change (x < 4)%nat in Hx. change (y < 4)%nat in Hy.
  destruct x as [|[|[|[|x]]]]; try lia;
    destruct y as [|[|[|[|y]]]]; try lia;
    vm_compute; repeat split; intros Hcmp; discriminate Hcmp.
Qed.



(* ===================================================================== *)
(** ** The definitions at work *)
(* ===================================================================== *)

(** [1 / 1000] is the float that Python reads from [0.001]. *)
Example default_min_fg_fraction_binary64 :
  default_min_fg_fraction (F := float) = 0x1.0624dd2f1a9fcp-10%float.
Proof. vm_compute. reflexivity. Qed.

(** A 5x5 uniform grey image, smaller than the sample size: the estimate is
    the grey, no pixel is foreground, and the builder goes down to 20. *)
Example grey_5x5 :
  let im := Image_new (5, 5)%nat (128, 128, 128, 255) in
  estimate_background_color (H := binary64) (convert_RGB im) 10
  = (128, 128, 128) /\
  thresholds_tried (H := binary64) (H0 := Reference.pillow)
    im 45 3 default_min_fg_fraction = [45; 30; 20] /\
  snd (mask_at (H := binary64) im 20) = 0.
Proof. vm_compute. repeat split; reflexivity. Qed.

(** The strip at sample size 3: the corner means are 4/3 and 2/3, whose
    floats add up to just below 4, so that Python's estimate of the red is
    0 where exact arithmetic gives 1. *)
Example strip_estimate :
  estimate_background_color (H := binary64) Reference.strip 3 = (0, 0, 0) /\
  estimate_background_color (H := exactQ) Reference.strip 3 = (1, 0, 0).
Proof. vm_compute. split; reflexivity. Qed.

(** On the white image with a red square every pixel is far from the
    estimated background colour: a single call, and the output keeps the
    colours with full opacity. *)
Example red_square_heuristic :
  estimate_background_color (H := binary64)
    (convert_RGB Reference.red_square) 10 = (255, 191, 191) /\
  thresholds_tried (H := binary64) (H0 := Reference.pillow)
    Reference.red_square 45 3 default_min_fg_fraction = [45] /\
  match pillow_bg_remove (H := binary64) (H0 := Reference.pillow)
          Reference.red_square 45 3 default_min_fg_fraction with
  | Ok out => to_rows out = to_rows Reference.red_square
  | Raise _ => False
  end.
Proof. vm_compute. repeat split; reflexivity. Qed.

(** An image without pixels: the division by [w * h] raises. *)
Example empty_image_raises :
  pillow_bg_remove (H := binary64) (H0 := Reference.pillow)
    (Image_new (0, 7)%nat Reference.white) 45 3 default_min_fg_fraction
  = Raise ZeroDivisionError.
Proof. vm_compute. reflexivity. Qed.

(** Without rank filters the closing leaves the mask as it was. *)
Example closing_without_rank_filters :
  @closing Reference.pillow_without_rank 3 Reference.dot_mask
  = Reference.dot_mask.
Proof. reflexivity. Qed.

(** With them, one dilation and one erosion fill a hole of one pixel. *)
Example closing_fills_hole :
  let ring := of_rows 0 7 [ [0; 0; 0; 0; 0; 0; 0];
                            [0; 0; 0; 0; 0; 0; 0];
                            [0; 0; 255; 255; 255; 0; 0];
                            [0; 0; 255; 0; 255; 0; 0];
                            [0; 0; 255; 255; 255; 0; 0];
                            [0; 0; 0; 0; 0; 0; 0];
                            [0; 0; 0; 0; 0; 0; 0] ] in
  to_rows (@closing Reference.pillow 1 ring)
  = [ [0; 0; 0; 0; 0; 0; 0];
      [0; 0; 0; 0; 0; 0; 0];
      [0; 0; 255; 255; 255; 0; 0];
      [0; 0; 255; 255; 255; 0; 0];
      [0; 0; 255; 255; 255; 0; 0];
      [0; 0; 0; 0; 0; 0; 0];
      [0; 0; 0; 0; 0; 0; 0] ].
Proof. vm_compute. reflexivity. Qed.

(** A request without any source. *)
Example upload_without_source :
  upload_garment (H := binary64) (H0 := Reference.pillow)
    (H1 := Reference.offline) None None (Some EmptyString) None None
    (Some true) []
  = (Raise (HTTPException 400 "No file/image_url/base64_image provided"), []).
Proof. reflexivity. Qed.

(** A file wins over a URL, which is not fetched; the bytes are no image
    for the offline codec, so the request is refused. *)
Example upload_file_before_url :
  upload_garment (H := binary64) (H0 := Reference.pillow)
    (H1 := Reference.offline)
    (Some {| file_content := [Byte.x89; Byte.x50] |})
    (Some "https://example.org/shirt.png"%string) None None None (Some true) []
  = (Raise (HTTPException 400 "File is not a valid image"), [FileRead]).
Proof. reflexivity. Qed.

(** With the three sources present the file is the one that is used: the
    answer shows its single byte, and nothing is fetched or decoded.
    Without the file it is the URL, whose body has two bytes, and without
    both the base64 text, decoded to three. *)
Example upload_uses_first_source :
  let run f u b :=
    upload_garment (H := binary64) (H0 := Reference.pillow)
      (H1 := Reference.studio) f u b None None (Some false) [] in
  let file := Some {| file_content := [Byte.x89] |} in
  let image_url := Some "https://example.org/shirt.png"%string in
  let base64_image := Some "iVBORw=="%string in
  let garment b64 :=
    Ok (JSONResponse
          (Garment b64 ("data:image/png;base64," ++ b64) "upper" "male")
          200) in
  run file image_url base64_image = (garment "A"%string, [FileRead]) /\
  run None image_url base64_image =
    (garment "AA"%string, [Fetch "https://example.org/shirt.png"]) /\
  run None None base64_image =
    (garment "AAA"%string, [B64Decode "iVBORw=="]).
Proof. vm_compute. repeat split; reflexivity. Qed.

(* ===================================================================== *)
(** ** Further properties: colour distance and mask *)
(* ===================================================================== *)

(** X1: the squared colour distance is symmetric, never negative, and zero
    exactly between equal colours. *)
Theorem color_distance_sq_metric (c1 c2 : RGB) :
  color_distance_sq c1 c2 = color_distance_sq c2 c1 /\
  0 <= color_distance_sq c1 c2 /\
  (color_distance_sq c1 c2 = 0 <-> c1 = c2).
Proof.
  destruct c1 as [[r1 g1] b1], c2 as [[r2 g2] b2].
  cbv [color_distance_sq band].
  pose proof (Z.square_nonneg (r1 - r2)) as Hr.
  pose proof (Z.square_nonneg (g1 - g2)) as Hg.
  pose proof (Z.square_nonneg (b1 - b2)) as Hb.
  split; [ring|]. split; [lia|]. split.
  - intros Hz.
    assert (Er : (r1 - r2) * (r1 - r2) = 0) by lia.
    assert (Eg : (g1 - g2) * (g1 - g2) = 0) by lia.
    assert (Eb : (b1 - b2) * (b1 - b2) = 0) by lia.
    apply Z.mul_eq_0 in Er, Eg, Eb.
    assert (r1 = r2) by lia. assert (g1 = g2) by lia.
    assert (b1 = b2) by lia. congruence.
  - intros E. injection E as -> -> ->. ring.
Qed.

Lemma color_distance_sq_8bit (c1 c2 : RGB) :
  rgb_in_range c1 -> rgb_in_range c2 ->
  color_distance_sq c1 c2 <= 195075.
Proof.
  destruct c1 as [[r1 g1] b1], c2 as [[r2 g2] b2].
  cbv [color_distance_sq band rgb_in_range].
  intros (Hr1 & Hg1 & Hb1) (Hr2 & Hg2 & Hb2).
  assert ((r1 - r2) * (r1 - r2) <= 255 * 255) by nia.
  assert ((g1 - g2) * (g1 - g2) <= 255 * 255) by nia.
  assert ((b1 - b2) * (b1 - b2) <= 255 * 255) by nia.
  lia.
Qed.

(** X2: on 8-bit colours a threshold of 442 or more (in absolute value)
    leaves the mask empty: every pixel is 0 and [fg_count] is 0, since no
    squared distance exceeds 3 * 255^2 = 195075 < 442^2. *)
Theorem build_mask_empty_from_442 (rgb : Image RGB) (bg_color : RGB)
    (threshold : Z) (w h : nat) :
  (forall x y, (x < w)%nat -> (y < h)%nat -> rgb_in_range (load rgb x y)) ->
  rgb_in_range bg_color ->
  442 <= Z.abs threshold ->
  snd (build_mask rgb bg_color threshold w h) = 0 /\
  forall x y, (x < w)%nat -> (y < h)%nat ->
              load (fst (build_mask rgb bg_color threshold w h)) x y = 0.
Proof.
  intros Hwf Hbg Hthr.
  assert (Hfar : forall x y, (x < w)%nat -> (y < h)%nat ->
            (threshold * threshold
             <? color_distance_sq (load rgb x y) bg_color) = false).
  { intros x y Hx Hy. apply Z.ltb_ge.
    pose proof (color_distance_sq_8bit _ _ (Hwf x y Hx Hy) Hbg). nia. }
  split.
  - unfold build_mask.
    apply (for_each_pixel_inv w h _ (fun _ _ st => snd st = 0)).
    + reflexivity.
    + intros x y [mask c] Hx Hy Hc. simpl in Hc.
      rewrite classify_pixel_count, (Hfar x y Hx Hy). lia.
    + intros y a _ Ha. exact Ha.
  - intros x y Hx Hy.
    destruct (build_mask_inv rgb bg_color threshold w h) as [_ Hpx].
    rewrite (Hpx x y Hx Hy). unfold pixel_class.
    rewrite (Hfar x y Hx Hy). reflexivity.
Qed.

Lemma build_mask_empty_from_442_witness :
  snd (build_mask (convert_RGB Reference.red_square) (255, 255, 255)
                  442 4 4) = 0.
Proof.
  refine (proj1 (build_mask_empty_from_442 (convert_RGB Reference.red_square)
                   (255, 255, 255) 442 4 4 _ _ _)).
  - intros x y Hx Hy.
    destruct x as [|[|[|[|x]]]]; try lia;
      destruct y as [|[|[|[|y]]]]; try lia;
      vm_compute; repeat split; intros Hcmp; discriminate Hcmp.
  - vm_compute. repeat split; intros Hcmp; discriminate Hcmp.
  - vm_compute. intros Hcmp; discriminate Hcmp.
Defined.

(** X3: [fg_count] is the number of pixels of value 255 in the mask the
    loops have written, and lies between 0 and [w * h]. *)
Theorem build_mask_count_is_foreground (rgb : Image RGB) (bg_color : RGB)
    (threshold : Z) (w h : nat) :
  let '(mask, fg_count) := build_mask rgb bg_color threshold w h in
  fg_count = count_foreground mask w h /\
  0 <= fg_count <= Z.of_nat (w * h).
Proof.
  destruct (build_mask rgb bg_color threshold w h) as [mask fg_count] eqn:Hbm.
  assert (Hmask : mask = fst (build_mask rgb bg_color threshold w h))
    by (rewrite Hbm; reflexivity).
  assert (Hcount : fg_count = snd (build_mask rgb bg_color threshold w h))
    by (rewrite Hbm; reflexivity).
  destruct (build_mask_inv rgb bg_color threshold w h) as [_ Hpx].
  rewrite <- Hmask in Hpx. clear Hbm.
  split.
  - rewrite Hcount. unfold build_mask, count_foreground.
    apply (for_each_pixel_rel (fun (st : Image L * Z) (c : Z) => snd st = c)).
    + reflexivity.
    + intros [m c0] c x y Hx Hy Hc. simpl in Hc. subst c.
      rewrite classify_pixel_count, (Hpx x y Hx Hy). unfold pixel_class.
      destruct (_ <? _); reflexivity.
  - rewrite Hcount. split; [apply build_mask_count_nonneg|].
    unfold build_mask.
    set (Inv := fun (y x : nat) (st : Image L * Z) =>
      snd st <= Z.of_nat y * Z.of_nat w + Z.of_nat x).
    assert (HInv : Inv h O
      (for_each_pixel w h
         (classify_pixel (load rgb) bg_color (threshold * threshold))
         (Image_new (w, h) 0, 0))).
    { apply for_each_pixel_inv; unfold Inv.
      - simpl. lia.
      - intros x y [m c] Hx Hy Hc. simpl in Hc.
        rewrite classify_pixel_count. destruct (_ <? _); lia.
      - intros y a Hy Ha. rewrite Nat2Z.inj_succ, Z.mul_succ_l. lia. }
    unfold Inv in HInv. rewrite Nat2Z.inj_mul. lia.
Qed.

(** X4: between thresholds [0 <= t1 <= t2] the masks are nested: a pixel
    that is foreground at the higher threshold is foreground at the lower
    one. *)
Theorem build_mask_pointwise_antitone (rgb : Image RGB) (bg_color : RGB)
    (t1 t2 : Z) (w h x y : nat) :
  0 <= t1 <= t2 ->
  (x < w)%nat -> (y < h)%nat ->
  load (fst (build_mask rgb bg_color t2 w h)) x y = 255 ->
  load (fst (build_mask rgb bg_color t1 w h)) x y = 255.
Proof.
  intros Ht Hx Hy.
  destruct (build_mask_inv rgb bg_color t1 w h) as [_ Hpx1].
  destruct (build_mask_inv rgb bg_color t2 w h) as [_ Hpx2].
  rewrite (Hpx1 x y Hx Hy), (Hpx2 x y Hx Hy). unfold pixel_class.
  destruct (Z.ltb_spec (t2 * t2) (color_distance_sq (load rgb x y) bg_color));
    [|discriminate].
  destruct (Z.ltb_spec (t1 * t1) (color_distance_sq (load rgb x y) bg_color));
    [reflexivity | nia].
Qed.

Lemma build_mask_pointwise_antitone_witness :
  load (fst (build_mask (convert_RGB Reference.red_square) (255, 255, 255)
                        20 4 4)) 1 1 = 255.
Proof.
  apply (build_mask_pointwise_antitone (convert_RGB Reference.red_square)
           (255, 255, 255) 20 45 4 4 1 1).
  - lia.
  - lia.
  - lia.
  - reflexivity.
Defined.

(* ===================================================================== *)
(** ** Further properties: the background colour estimator *)
(* ===================================================================== *)

Section EstimateCorners.
Context {F : Type} `{PyFloat F}.

(** X5: the corners are valid all together or not at all.  When the image
    has no pixel or the sample size is 0 the estimate is white; otherwise
    each of the four crops has [min(S, W) * min(S, H)] pixels, at least
    one, so that the average is always over four corners. *)
Theorem estimate_corners_all_or_none (im : Image RGB) (S : nat) :
  ((width im = 0 \/ height im = 0 \/ S = 0)%nat ->
   estimate_background_color im S = (255, 255, 255)) /\
  ((1 <= width im)%nat -> (1 <= height im)%nat -> (1 <= S)%nat ->
   List.length (corner_crops im S) = 4%nat /\
   Forall (fun c =>
             ImageStat.count c 0 =
             Z.of_nat (Nat.min S (width im) * Nat.min S (height im)) /\
             0 < ImageStat.count c 0)
          (corner_crops im S)).
Proof.
  split.
  - intros Hdeg. rewrite estimate_refines_spec. unfold spec_estimate.
    unfold spec_corners. cbn [filter].
    rewrite !has_pixels_sub_rectangle.
    destruct (Nat.ltb_spec 0 (Nat.min S (width im) * Nat.min S (height im)));
      [nia | reflexivity].
  - intros Hw Hh HS. rewrite corner_crops_spec. unfold spec_corners.
    split; [reflexivity|].
    assert (Hmw : (1 <= Nat.min S (width im))%nat) by lia.
    assert (Hmh : (1 <= Nat.min S (height im))%nat) by lia.
    assert (Hpos : (0 < Nat.min S (width im) * Nat.min S (height im))%nat)
      by nia.
    assert (Hone : forall x0 y0,
               ImageStat.count
                 (sub_rectangle im x0 y0 (Nat.min S (width im))
                                (Nat.min S (height im))) 0 =
               Z.of_nat (Nat.min S (width im) * Nat.min S (height im)))
      by reflexivity.
    repeat (apply Forall_cons; [rewrite Hone; split; [reflexivity | lia] |]).
    apply Forall_nil.
Qed.
End EstimateCorners.

Section EstimateBetween.
Context {F : Type} `{FloatBounds F}.

(** X6: on an image of one colour (8-bit, at least one pixel and at most
    [2^53 / 255], sample size at least 1) the estimate is that colour. *)
Theorem estimate_uniform (im : Image RGB) (S : nat) (c : RGB) :
  (1 <= width im)%nat -> (1 <= height im)%nat -> (1 <= S)%nat ->
  255 * Z.of_nat (width im * height im) <= 2 ^ 53 ->
  rgb_in_range c ->
  (forall x y, (x < width im)%nat -> (y < height im)%nat ->
               load im x y = c) ->
  estimate_background_color im S = c.
Proof.
  intros Hw Hh HS Hsmall Hc Hpx.
  assert (Hband : forall i, (i < 3)%nat ->
             band i (estimate_background_color im S) = band i c).
  { intros i Hlt. pose proof (band_in_range i c Hc) as Hi.
    assert (band i c <= band i (estimate_background_color im S) <= band i c);
      [|lia].
    apply estimate_band_between; try assumption; try lia.
    intros x y Hx Hy. rewrite (Hpx x y Hx Hy). lia. }
  assert (Eb0 := Hband 0%nat ltac:(lia)).
  assert (Eb1 := Hband 1%nat ltac:(lia)).
  assert (Eb2 := Hband 2%nat ltac:(lia)).
  destruct (estimate_background_color im S) as [[r g] b].
  destruct c as [[cr cg] cb]. cbn [band] in *. congruence.
Qed.

(** X7: each band of the estimate lies between the smallest and the
    largest value the band takes on the image: bounds [lo <= hi] within
    [0, 255] that hold for every pixel hold for the estimate (image of at
    least one pixel and at most [2^53 / 255]). *)
Theorem estimate_within_image_range (im : Image RGB) (S i : nat)
    (lo hi : Z) :
  (i < 3)%nat ->
  (1 <= width im)%nat -> (1 <= height im)%nat -> (1 <= S)%nat ->
  255 * Z.of_nat (width im * height im) <= 2 ^ 53 ->
  0 <= lo <= hi -> hi <= 255 ->
  (forall x y, (x < width im)%nat -> (y < height im)%nat ->
               lo <= band i (load im x y) <= hi) ->
  lo <= band i (estimate_background_color im S) <= hi.
Proof. apply estimate_band_between. Qed.
End EstimateBetween.

(** On Python's floats a grey image gives its grey. *)
Lemma estimate_uniform_witness :
  estimate_background_color (H := binary64)
    (Image_new (5, 5)%nat (128, 128, 128)) 10 = (128, 128, 128).
Proof.
  apply (estimate_uniform (H := binary64) (H0 := binary64_bounds)
           (Image_new (5, 5)%nat (128, 128, 128)) 10 (128, 128, 128)).
  - vm_compute. lia.
  - vm_compute. lia.
  - lia.
  - vm_compute. intros Hcmp. discriminate Hcmp.
  - vm_compute. repeat split; intros Hcmp; discriminate Hcmp.
  - intros x y _ _. reflexivity.
Defined.

(** On Python's floats the red band of the estimate of the strip, whose
    reds are between 0 and 3, is between 0 and 3. *)
Lemma estimate_within_image_range_witness :
  0 <= band 0 (estimate_background_color (H := binary64)
                 Reference.strip 3) <= 3.
Proof.
  apply (estimate_within_image_range (H := binary64) (H0 := binary64_bounds)
           Reference.strip 3 0 0 3);
    try lia; try (vm_compute; lia);
    try (vm_compute; intros Hcmp; discriminate Hcmp).
  intros x y Hx Hy. change (x < 6)%nat in Hx. change (y < 1)%nat in Hy.
  destruct x as [|[|[|[|[|[|x]]]]]]; try lia;
    destruct y as [|y]; try lia; vm_compute;
    split; intros Hcmp; discriminate Hcmp.
Defined.

Section EstimateLocality.
Context {F : Type} `{PyFloat F}.

Lemma ImageStat_mean_agree (c1 c2 : Image RGB) (i : nat) :
  size c1 = size c2 ->
  (forall x y, (x < width c1)%nat -> (y < height c1)%nat ->
               load c1 x y = load c2 x y) ->
  ImageStat.mean c1 i = ImageStat.mean c2 i.
Proof.
  intros Hsz Hpx.
  unfold ImageStat.mean, ImageStat.count, ImageStat.sum, width, height in *.
  rewrite <- Hsz. f_equal.
  apply (for_each_pixel_rel (fun a b : Z => a = b)); [reflexivity|].
  intros a b x y Hx Hy ->. rewrite (Hpx x y Hx Hy). reflexivity.
Qed.

(** X8: the estimate reads the corners only: two images of the same size
    that agree on the pixels within [sample_size] of a vertical and of a
    horizontal border have the same estimate, whatever lies elsewhere. *)
Theorem estimate_reads_corners_only (im1 im2 : Image RGB) (S : nat) :
  size im1 = size im2 ->
  (forall x y, (x < width im1)%nat -> (y < height im1)%nat ->
               in_corner (width im1) (height im1) S x y ->
               load im1 x y = load im2 x y) ->
  estimate_background_color im1 S = estimate_background_color im2 S.
Proof.
  intros Hsz Hpx.
  assert (Hw : width im2 = width im1) by (unfold width; rewrite Hsz; reflexivity).
  assert (Hh : height im2 = height im1)
    by (unfold height; rewrite Hsz; reflexivity).
  rewrite !estimate_refines_spec. unfold spec_estimate, spec_corners.
  rewrite Hw, Hh. cbn [filter]. rewrite !has_pixels_sub_rectangle.
  assert (Hmean : forall x0 y0 i,
             (x0 = 0 \/ x0 = width im1 - Nat.min S (width im1))%nat ->
             (y0 = 0 \/ y0 = height im1 - Nat.min S (height im1))%nat ->
             ImageStat.mean
               (sub_rectangle im1 x0 y0 (Nat.min S (width im1))
                              (Nat.min S (height im1))) i =
             ImageStat.mean
               (sub_rectangle im2 x0 y0 (Nat.min S (width im1))
                              (Nat.min S (height im1))) i).
  { intros x0 y0 i Hx0 Hy0. apply ImageStat_mean_agree; [reflexivity|].
    intros x y Hx Hy.
    change (x < Nat.min S (width im1))%nat in Hx.
    change (y < Nat.min S (height im1))%nat in Hy.
    cbn [sub_rectangle load].
    apply Hpx; unfold in_corner; lia. }
  destruct (0 <? Nat.min S (width im1) * Nat.min S (height im1))%nat;
    [|reflexivity].
  cbn [map]. unfold average. cbn [fold_left List.length].
  rewrite !(Hmean 0%nat 0%nat), !(Hmean (width im1 - Nat.min S (width im1))%nat 0%nat),
    !(Hmean 0%nat (height im1 - Nat.min S (height im1))%nat),
    !(Hmean (width im1 - Nat.min S (width im1))%nat
            (height im1 - Nat.min S (height im1))%nat); auto.
Qed.
End EstimateLocality.

(** A white image, and the same image with a red pixel in its centre. *)
Lemma estimate_reads_corners_only_witness :
  estimate_background_color (H := binary64)
    (Image_new (30, 30)%nat (255, 255, 255)) 10 =
  estimate_background_color (H := binary64)
    (putpixel (Image_new (30, 30)%nat (255, 255, 255)) 15 15 (255, 0, 0)) 10.
Proof.
  apply (estimate_reads_corners_only (H := binary64)
           (Image_new (30, 30)%nat (255, 255, 255))
           (putpixel (Image_new (30, 30)%nat (255, 255, 255)) 15 15
                     (255, 0, 0)) 10).
  - reflexivity.
  - intros x y Hx Hy [Hcx Hcy].
    change (width (Image_new (30, 30)%nat (255, 255, 255))) with 30%nat in *.
    change (height (Image_new (30, 30)%nat (255, 255, 255))) with 30%nat in *.
    cbn [putpixel load Image_new].
    destruct (Nat.eqb_spec x 15) as [->|_]; [lia | reflexivity].
Defined.

(* ===================================================================== *)
(** ** Further properties: the heuristic pipeline *)
(* ===================================================================== *)

Section RetryBound.
Context {F : Type} `{PyFloat F} `{Pillow}.

(** X9: from any threshold the calls stop: their number is at most
    [1 + ceil((threshold - 20) / 15)] (one call from 20 or less), the first
    call is at the given threshold and every retry is at a threshold in
    [20, threshold). *)
Theorem thresholds_tried_bound (im : Image RGBA) (smooth_radius : Z)
    (min_fg_fraction : F) (threshold : Z) :
  let tried := thresholds_tried im threshold smooth_radius min_fg_fraction in
  (List.length tried <= 1 + Z.to_nat ((threshold - 20 + 14) / 15))%nat /\
  (exists retries,
      tried = threshold :: retries /\
      Forall (fun t' => 20 <= t' < threshold) retries).
Proof.
  revert threshold.
  apply (calls_ind im smooth_radius min_fg_fraction). intros t IH. cbv zeta.
  destruct (thresholds_step im t smooth_radius min_fg_fraction)
    as [E|[Hthr E]].
  - rewrite E. split; [simpl; lia|].
    exists []. split; [reflexivity | constructor].
  - assert (IH' :
      (List.length (thresholds_tried im (Z.max 20 (t - 15)) smooth_radius
                      min_fg_fraction)
       <= 1 + Z.to_nat ((Z.max 20 (t - 15) - 20 + 14) / 15))%nat /\
      (exists retries,
          thresholds_tried im (Z.max 20 (t - 15)) smooth_radius
            min_fg_fraction = Z.max 20 (t - 15) :: retries /\
          Forall (fun t' => 20 <= t' < Z.max 20 (t - 15)) retries)).
    { unfold thresholds_tried in E.
      destruct (fraction_at im t) as [fr|e] eqn:Hfr.
      - destruct (retry_test fr min_fg_fraction t) eqn:Htest.
        + exact (IH fr eq_refl Htest).
        + rewrite (calls_final _ _ _ _ _ Hfr Htest) in E. simpl in E.
          injection E as E.
          destruct (calls_head im (Z.max 20 (t - 15)) smooth_radius
                      min_fg_fraction) as [rest Hrest].
          rewrite Hrest in E. discriminate.
      - rewrite (calls_raise _ _ _ _ _ Hfr) in E. simpl in E.
        injection E as E.
        destruct (calls_head im (Z.max 20 (t - 15)) smooth_radius
                    min_fg_fraction) as [rest Hrest].
        rewrite Hrest in E. discriminate. }
    destruct IH' as [Hlen [retries [Etail Hall]]].
    rewrite E. split.
    + cbn [List.length].
      assert (Hdiv : (Z.max 20 (t - 15) - 20 + 14) / 15 + 1
                     <= (t - 20 + 14) / 15).
      { destruct (Z.max_spec 20 (t - 15)) as [[Hlt ->]|[Hle ->]].
        - replace (t - 20 + 14) with (t - 15 - 20 + 14 + 1 * 15) by lia.
          rewrite Z.div_add by lia. lia.
        - replace (20 - 20 + 14) with 14 by lia.
          change (14 / 15) with 0.
          assert (1 <= (t - 20 + 14) / 15); [|lia].
          apply Z.div_le_lower_bound; lia. }
      assert (0 <= (Z.max 20 (t - 15) - 20 + 14) / 15)
        by (apply Z.div_pos; lia).
      lia.
    + exists (thresholds_tried im (Z.max 20 (t - 15)) smooth_radius
                min_fg_fraction).
      split; [reflexivity|].
      rewrite Etail. constructor; [lia|].
      eapply Forall_impl; [|exact Hall]. intros t'. cbv beta. lia.
Qed.

(** X10: from the threshold 45 the program starts with, or a lower one
    (at most two nested retries), the only exception of [pillow_bg_remove]
    is the division by [w * h]: it raises exactly on an image without
    pixels, and then it is [ZeroDivisionError], raised by the first
    call. *)
Theorem pillow_bg_remove_raises_iff_empty (im : Image RGBA)
    (threshold smooth_radius : Z) (min_fg_fraction : F) :
  threshold <= 45 ->
  ((width im * height im = 0)%nat <->
   exists e, pillow_bg_remove im threshold smooth_radius min_fg_fraction
             = Raise e) /\
  (forall e,
      pillow_bg_remove im threshold smooth_radius min_fg_fraction = Raise e ->
      e = ZeroDivisionError /\
      thresholds_tried im threshold smooth_radius min_fg_fraction
      = [threshold]).
Proof.
  intros _.
  destruct (pillow_bg_remove_cases im smooth_radius min_fg_fraction threshold)
    as [[Hz Hres]|[Hpos [t' [_ Hres]]]].
  - split.
    + split; [intros _; eauto | intros _; exact Hz].
    + intros e He. rewrite Hres in He. injection He as <-.
      split; [reflexivity|].
      destruct (fraction_at_cases im threshold) as [[_ Hfr]|[Hp _]]; [|lia].
      unfold thresholds_tried.
      rewrite (calls_raise _ _ _ _ _ Hfr). reflexivity.
  - rewrite (refine_and_composite_ok im _ smooth_radius (mask_at_size im t'))
      in Hres.
    split.
    + split; [lia | intros [e He]; congruence].
    + intros e He. congruence.
Qed.
End RetryBound.

(** An image without pixels, at the threshold 45. *)
Lemma pillow_bg_remove_raises_iff_empty_witness :
  let im := Image_new (0, 0)%nat Reference.white in
  let result :=
    pillow_bg_remove (H := binary64) (H0 := Reference.pillow)
      im 45 3 default_min_fg_fraction in
  ((width im * height im = 0)%nat <-> exists e, result = Raise e) /\
  (forall e,
      result = Raise e ->
      e = ZeroDivisionError /\
      thresholds_tried (H := binary64) (H0 := Reference.pillow)
        im 45 3 default_min_fg_fraction = [45]).
Proof.
  apply (pillow_bg_remove_raises_iff_empty (H := binary64)
           (H0 := Reference.pillow)
           (Image_new (0, 0)%nat Reference.white) 45 3
           default_min_fg_fraction).
  lia.
Defined.

Section ClosingSuccess.
Context `{Pillow}.

Lemma apply_filters_prefix_fails done k rest mask mask' e :
  apply_filters done mask = Ok mask' ->
  Image_filter k mask' = Raise e ->
  apply_filters (done ++ k :: rest) mask = Raise e.
Proof.
  intros Hdone Hk. rewrite apply_filters_app, Hdone. simpl.
  rewrite Hk. reflexivity.
Qed.

(** X11: when no filter raises, the closing is [smooth_radius] dilations
    followed by [smooth_radius] erosions, of the same size as the mask; a
    radius of 0 or less leaves the mask as it is. *)
Theorem closing_applies_all_filters (smooth_radius : Z) (mask : Image L) :
  (forall mask',
      apply_filters (closing_filters smooth_radius) mask = Ok mask' ->
      closing smooth_radius mask = mask' /\ size mask' = size mask) /\
  (smooth_radius <= 0 -> closing smooth_radius mask = mask).
Proof.
  assert (Hall : forall mask',
             apply_filters (closing_filters smooth_radius) mask = Ok mask' ->
             closing smooth_radius mask = mask').
  { intros mask' Happ. rewrite closing_snd.
    destruct (closing_body_cases smooth_radius mask)
      as [[_ Hok]|[e [done [k [rest [_ [Hfs [Hdone Hk]]]]]]]].
    - congruence.
    - rewrite Hfs in Happ.
      rewrite (apply_filters_prefix_fails _ _ _ _ _ _ Hdone Hk) in Happ.
      discriminate. }
  split.
  - intros mask' Happ. split; [apply Hall, Happ|].
    eapply apply_filters_size; eauto.
  - intros Hr. apply Hall. unfold closing_filters.
    replace (Z.to_nat smooth_radius) with O by lia. reflexivity.
Qed.
End ClosingSuccess.

Section AlphaIgnored.
Context {F : Type} `{PyFloat F} `{Pillow}.

Lemma convert_RGB_same_colours (im1 im2 : Image RGBA) :
  size im1 = size im2 ->
  (forall x y, rgb_of (load im1 x y) = rgb_of (load im2 x y)) ->
  convert_RGB im1 = convert_RGB im2.
Proof.
  intros Hsz Hpx. unfold convert_RGB. rewrite Hsz. f_equal.
  apply functional_extensionality. intros x.
  apply functional_extensionality. intros y.
  exact (Hpx x y).
Qed.

(** X12: the alpha band of the input plays no part: two images of the same
    size with the same red, green and blue values get the same pixels,
    alpha included, from [pillow_bg_remove], or the same exception. *)
Theorem pillow_bg_remove_ignores_alpha (im1 im2 : Image RGBA)
    (threshold smooth_radius : Z) (min_fg_fraction : F) :
  size im1 = size im2 ->
  (forall x y, rgb_of (load im1 x y) = rgb_of (load im2 x y)) ->
  match pillow_bg_remove im1 threshold smooth_radius min_fg_fraction,
        pillow_bg_remove im2 threshold smooth_radius min_fg_fraction with
  | Ok out1, Ok out2 =>
      size out1 = size out2 /\ forall x y, load out1 x y = load out2 x y
  | Raise e1, Raise e2 => e1 = e2
  | _, _ => False
  end.
Proof.
  intros Hsz Hpx.
  pose proof (convert_RGB_same_colours im1 im2 Hsz Hpx) as Hconv.
  assert (Hw : width im1 = width im2) by (unfold width; rewrite Hsz; reflexivity).
  assert (Hh : height im1 = height im2)
    by (unfold height; rewrite Hsz; reflexivity).
  assert (Hmask : forall t, mask_at im1 t = mask_at im2 t).
  { intros t. unfold mask_at, bg_color_of. rewrite Hconv, Hw, Hh.
    reflexivity. }
  assert (Hfr : forall t, fraction_at im1 t = fraction_at im2 t).
  { intros t. unfold fraction_at. rewrite Hmask, Hw, Hh. reflexivity. }
  revert threshold.
  apply (calls_ind im1 smooth_radius min_fg_fraction). intros t IH.
  unfold pillow_bg_remove in *.
  destruct (fraction_at im1 t) as [fr|e] eqn:Hfr1.
  - assert (Hfr2 : fraction_at im2 t = Ok fr) by (rewrite <- Hfr; exact Hfr1).
    destruct (retry_test fr min_fg_fraction t) eqn:Htest.
    + rewrite (calls_retry _ _ _ _ _ Hfr1 Htest),
        (calls_retry _ _ _ _ _ Hfr2 Htest). cbn [snd].
      exact (IH fr eq_refl Htest).
    + rewrite (calls_final _ _ _ _ _ Hfr1 Htest),
        (calls_final _ _ _ _ _ Hfr2 Htest). cbn [snd].
      rewrite (refine_and_composite_ok im1 _ smooth_radius
                 (mask_at_size im1 t)),
        (refine_and_composite_ok im2 _ smooth_radius (mask_at_size im2 t)).
      split; [exact Hsz|].
      intros x y. cbn [load]. rewrite (Hmask t).
      specialize (Hpx x y).
      destruct (load im1 x y) as [[[r1 g1] b1] a1].
      destruct (load im2 x y) as [[[r2 g2] b2] a2].
      cbn [rgb_of] in Hpx. injection Hpx as -> -> ->. reflexivity.
  - assert (Hfr2 : fraction_at im2 t = Raise e)
      by (rewrite <- Hfr; exact Hfr1).
    rewrite (calls_raise _ _ _ _ _ Hfr1), (calls_raise _ _ _ _ _ Hfr2).
    reflexivity.
Qed.
End AlphaIgnored.

(** The red square, opaque and fully transparent. *)
Lemma pillow_bg_remove_ignores_alpha_witness :
  let clear := mkImage (size Reference.red_square)
                 (fun x y => let '(r, g, b, _) := load Reference.red_square x y
                             in (r, g, b, 0)) in
  match pillow_bg_remove (H := binary64) (H0 := Reference.pillow)
          Reference.red_square 45 3 default_min_fg_fraction,
        pillow_bg_remove (H := binary64) (H0 := Reference.pillow)
          clear 45 3 default_min_fg_fraction with
  | Ok out1, Ok out2 =>
      size out1 = size out2 /\ forall x y, load out1 x y = load out2 x y
  | Raise e1, Raise e2 => e1 = e2
  | _, _ => False
  end.
Proof.
  intros clear.
  apply (pillow_bg_remove_ignores_alpha (H := binary64)
           (H0 := Reference.pillow) Reference.red_square clear 45 3
           default_min_fg_fraction).
  - reflexivity.
  - intros x y. unfold clear. cbn [load].
    destruct (load Reference.red_square x y) as [[[r g] b] a]. reflexivity.
Defined.

(* ===================================================================== *)
(** ** Further properties: the downscaling on Python's floats *)
(* ===================================================================== *)

Lemma requested_sides_near_max_spec (n : nat) : forall m,
  requested_sides_near_max n m = true ->
  forall k, m <= k < m + Z.of_nat n ->
            requested_larger_side k = 2047 \/ requested_larger_side k = 2048.
Proof.
  induction n as [|n IH]; intros m Hcheck k Hk.
  - simpl in Hk. lia.
  - cbn [requested_sides_near_max] in Hcheck.
    apply andb_prop in Hcheck as [Hm Hrest].
    destruct (Z.eq_dec k m) as [->|Hne].
    + apply orb_prop in Hm as [E|E]; apply Z.eqb_eq in E; auto.
    + apply (IH (m + 1) Hrest). lia.
Qed.

Lemma requested_sides_checked :
  requested_sides_near_max (Z.to_nat 63487) 2049 = true.
Proof. vm_compute. reflexivity. Qed.

(** X13: on Python's floats, for an image whose larger side is between
    2049 and 65535, [downscale_if_needed] with the maximum dimension 2048
    either raises [ValueError] (the smaller side would be 0) or returns an
    image whose side along the larger input side is 2047 or 2048: never
    more than the maximum, and at most one less. *)
Theorem downscale_larger_side_near_max (P : Pillow) (im : Image RGBA) :
  let w := Z.of_nat (width im) in
  let h := Z.of_nat (height im) in
  2048 < Z.max w h <= 65535 ->
  match downscale_if_needed (H := binary64) im MAX_DIMENSION with
  | Ok out =>
      let side := if h <=? w then Z.of_nat (width out)
                  else Z.of_nat (height out) in
      side = 2047 \/ side = 2048
  | Raise e => exists msg, e = ValueError msg
  end.
Proof.
  intros w h Hmax.
  assert (Hside : requested_larger_side (Z.max w h) = 2047 \/
                  requested_larger_side (Z.max w h) = 2048).
  { apply (requested_sides_near_max_spec _ 2049 requested_sides_checked).
    lia. }
  unfold downscale_if_needed. fold w h. unfold MAX_DIMENSION at 1.
  destruct (Z.leb_spec (Z.max w h) 2048); [lia|].
  destruct (Z.eqb_spec (Z.max w h) 0); [lia|].
  unfold Image_resize.
  set (new_w := int_of_float (fmul (float_of_int w)
                                   (truediv MAX_DIMENSION (Z.max w h)))).
  set (new_h := int_of_float (fmul (float_of_int h)
                                   (truediv MAX_DIMENSION (Z.max w h)))).
  destruct ((new_w <? 1) || (new_h <? 1)) eqn:Hsmall; [eauto|].
  apply orb_false_elim in Hsmall as [Hnw Hnh].
  apply Z.ltb_ge in Hnw, Hnh.
  cbv zeta. unfold width, height. cbn [size fst snd].
  destruct (Z.leb_spec h w) as [Hle|Hlt].
  - rewrite Z2Nat.id by lia. subst new_w.
    replace (Z.max w h) with w in * by lia. exact Hside.
  - rewrite Z2Nat.id by lia. subst new_h.
    replace (Z.max w h) with h in * by lia. exact Hside.
Qed.

Lemma downscale_larger_side_near_max_witness :
  match downscale_if_needed (H := binary64) (H0 := Reference.pillow)
          (Image_new (2215, 100)%nat Reference.white) MAX_DIMENSION with
  | Ok out => Z.of_nat (width out) = 2047 \/ Z.of_nat (width out) = 2048
  | Raise e => exists msg, e = ValueError msg
  end.
Proof.
  apply (downscale_larger_side_near_max Reference.pillow
           (Image_new (2215, 100)%nat Reference.white)).
  vm_compute. split; [reflexivity | intros Hcmp; discriminate Hcmp].
Defined.

(* ===================================================================== *)
(** ** Further properties: the /upload endpoint *)
(* ===================================================================== *)

Lemma split_comma_append (a b : string) :
  no_comma a -> split_comma (a ++ String ","%char b)%string = Some (a, b).
Proof.
  induction a as [|c a IH]; intros Hno.
  - reflexivity.
  - destruct Hno as [Hc Hno]. cbn [append split_comma].
    destruct (Ascii.eqb_spec c ","%char) as [E|_]; [contradiction|].
    rewrite (IH Hno). reflexivity.
Qed.

Lemma split_comma_none (s : string) : no_comma s -> split_comma s = None.
Proof.
  induction s as [|c s IH]; intros Hno.
  - reflexivity.
  - destruct Hno as [Hc Hno]. cbn [split_comma].
    destruct (Ascii.eqb_spec c ","%char) as [E|_]; [contradiction|].
    rewrite (IH Hno). reflexivity.
Qed.

Lemma prefix_data_truthy (s : string) :
  String.prefix "data:" s = true -> truthy (Some s) = true.
Proof. destruct s; [discriminate | reflexivity]. Qed.

Section UploadMore.
Context {F : Type} `{PyFloat F} `{Pillow} `{Services}.

(** X14: of a data URL the endpoint decodes the text after the first
    comma, whatever the header says; a data URL without comma is refused
    with status 400 and nothing is decoded. *)
Theorem read_input_data_url (image_url : option string) (s : string) :
  truthy image_url = false ->
  String.prefix "data:" s = true ->
  (forall header payload,
      s = (header ++ String ","%char payload)%string ->
      no_comma header ->
      read_input None image_url (Some s) [] =
      (b64decode payload, [B64Decode payload])) /\
  (no_comma s ->
   read_input None image_url (Some s) [] =
   (Raise (HTTPException 400 "Invalid data URL"), [])).
Proof.
  intros Hu Hdata.
  pose proof (prefix_data_truthy s Hdata) as Hb.
  split.
  - intros header payload -> Hno.
    unfold read_input. rewrite Hu, Hb, Hdata, (split_comma_append _ _ Hno).
    reflexivity.
  - intros Hno. unfold read_input.
    rewrite Hu, Hb, Hdata, (split_comma_none _ Hno). reflexivity.
Qed.

(** X15: the two base64 paths treat a payload that does not decode
    differently: in a data URL the exception of [b64decode] reaches the
    endpoint's last handler and the answer is a JSON error with status
    500; as plain base64 it is refused with status 400. *)
Theorem upload_undecodable_base64 (image_url garment_type gender : option string)
    (do_remove_bg : option bool) (s : string) (e : exn) :
  truthy image_url = false ->
  truthy (Some s) = true ->
  no_HTTPException (Raise (A := bytes) e) ->
  (forall header payload,
      String.prefix "data:" s = true ->
      split_comma s = Some (header, payload) ->
      b64decode payload = Raise e ->
      upload_garment None image_url (Some s) garment_type gender
                     do_remove_bg [] =
      (Ok (JSONResponse (Error (str_exn e)) 500), [B64Decode payload])) /\
  (String.prefix "data:" s = false ->
   b64decode s = Raise e ->
   upload_garment None image_url (Some s) garment_type gender
                  do_remove_bg [] =
   (Raise (HTTPException 400 "Provided base64_image is not valid base64"),
    [B64Decode s])).
Proof.
  intros Hu Hb Hnot. split.
  - intros header payload Hdata Hsplit Hdec.
    unfold upload_garment, StxM.try_except, StxM.bind, read_input.
    rewrite Hu, Hb, Hdata, Hsplit.
    unfold base64_b64decode, StxM.seq_, StxM.bind, emit, lift.
    rewrite Hdec. cbn [app].
    destruct e; try reflexivity.
    exfalso. eapply Hnot. reflexivity.
  - intros Hdata Hdec.
    unfold upload_garment, StxM.try_except, StxM.bind, read_input.
    rewrite Hu, Hb, Hdata.
    unfold base64_b64decode, StxM.seq_, StxM.bind, emit, lift, StxM.raise.
    rewrite Hdec. reflexivity.
Qed.

Lemma read_input_url_fetch (u u' : string) (base64_image : option string) :
  truthy (Some u) = true ->
  In (Fetch u') (snd (read_input None (Some u) base64_image [])) ->
  u' = u /\
  (urlparse_scheme u = "http"%string \/ urlparse_scheme u = "https"%string).
Proof.
  intros Hu Hin. unfold read_input in Hin. rewrite Hu in Hin.
  assert (Hlog : forall k : bytes -> IO bytes,
             (forall d l, snd (k d l) = l) ->
             snd (StxM.bind (fetch_image_from_url u) k []) = [Fetch u]).
  { intros k Hk. unfold fetch_image_from_url.
    cbv [StxM.bind StxM.seq_ emit StxM.ret StxM.raise].
    destruct (requests_get u) as [content|e]; cbn [app]; [|reflexivity].
    apply Hk. }
  destruct (String.eqb_spec (urlparse_scheme u) "http") as [Eh|Nh];
    destruct (String.eqb_spec (urlparse_scheme u) "https") as [Es|Ns];
    cbn [orb negb] in Hin;
    try (rewrite Hlog in Hin;
         [destruct Hin as [Ein|[]]; injection Ein as <-; auto
         |intros d l; destruct (MAX_UPLOAD_BYTES <? _); reflexivity]).
  destruct Hin.
Qed.

(** X16: a URL is fetched only when no file was sent and its scheme is
    [http] or [https]. *)
Theorem upload_fetches_http_only (file : option UploadFile)
    (image_url base64_image garment_type gender : option string)
    (do_remove_bg : option bool) (u : string) :
  In (Fetch u)
     (snd (upload_garment file image_url base64_image garment_type gender
                          do_remove_bg [])) ->
  file = None /\ image_url = Some u /\
  (urlparse_scheme u = "http"%string \/ urlparse_scheme u = "https"%string).
Proof.
  rewrite upload_garment_log. intros Hin.
  destruct file as [f|].
  - rewrite read_input_file_log in Hin.
    destruct Hin as [E|[]]. discriminate.
  - destruct (truthy image_url) eqn:Hu.
    + destruct image_url as [u0|]; [|discriminate].
      destruct (read_input_url_fetch u0 u base64_image Hu Hin) as [-> Hs].
      auto.
    + destruct (truthy base64_image) eqn:Hb.
      * destruct base64_image as [b|]; [|discriminate].
        destruct (read_input_base64_log image_url b Hu Hb) as [E|[s0 E]];
          rewrite E in Hin; [destruct Hin|].
        destruct Hin as [Ein|[]]; discriminate.
      * unfold read_input in Hin. rewrite Hu, Hb in Hin. destruct Hin.
Qed.

(** X17: the bytes the endpoint goes on with respect the size limit of
    their source: a file gives between 1 and [MAX_UPLOAD_BYTES] bytes, its
    content; a fetched URL gives at most [MAX_UPLOAD_BYTES] bytes. *)
Theorem read_input_size_limits (file : option UploadFile)
    (image_url base64_image : option string) (data : bytes)
    (log : list Event) :
  read_input file image_url base64_image [] = (Ok data, log) ->
  match file with
  | Some f =>
      data = file_content f /\
      1 <= Z.of_nat (List.length data) <= MAX_UPLOAD_BYTES
  | None =>
      truthy image_url = true ->
      Z.of_nat (List.length data) <= MAX_UPLOAD_BYTES /\
      exists u, image_url = Some u /\ requests_get u = Ok data
  end.
Proof.
  intros Hread. destruct file as [f|].
  - cbv [read_input file_read StxM.bind StxM.seq_ emit StxM.ret
           StxM.raise app] in Hread.
    destruct (Z.eqb_spec (Z.of_nat (List.length (file_content f))) 0);
      [discriminate|].
    destruct (Z.ltb_spec MAX_UPLOAD_BYTES
                (Z.of_nat (List.length (file_content f)))); [discriminate|].
    injection Hread as <- _. split; [reflexivity | lia].
  - intros Hu. destruct image_url as [u|]; [|discriminate].
    unfold read_input in Hread. rewrite Hu in Hread.
    destruct (negb _); [discriminate|].
    unfold fetch_image_from_url in Hread.
    cbv [StxM.bind StxM.seq_ emit StxM.ret StxM.raise] in Hread.
    destruct (requests_get u) as [content|e] eqn:Hget; [|discriminate].
    cbn [app] in Hread.
    destruct (Z.ltb_spec MAX_UPLOAD_BYTES (Z.of_nat (List.length content)));
      [discriminate|].
    injection Hread as <- _.
    split; [lia | exists u; split; [reflexivity | exact Hget]].
Qed.
End UploadMore.

Section UploadOutcomes.
Context {F : Type} `{PyFloat F} `{Pillow} `{Services}.

Lemma read_input_expected file image_url base64_image log :
  (forall s, no_HTTPException (b64decode s)) ->
  match fst (read_input file image_url base64_image log) with
  | Ok _ => True
  | Raise e => expected_exception e
  end.
Proof.
  intros Hdec. unfold read_input.
  destruct file as [f|].
  - cbv [file_read StxM.bind StxM.seq_ emit StxM.ret StxM.raise].
    destruct (_ =? 0); [cbn; auto|].
    destruct (MAX_UPLOAD_BYTES <? _); cbn; auto.
  - destruct (truthy image_url).
    + destruct (negb _); [cbn; auto|].
      unfold fetch_image_from_url.
      cbv [StxM.bind StxM.seq_ emit StxM.ret StxM.raise].
      destruct (requests_get _); [|cbn; auto].
      destruct (MAX_UPLOAD_BYTES <? _); cbn; auto.
    + destruct (truthy base64_image); [|cbn; auto].
      destruct (String.prefix _ _).
      * destruct (split_comma _) as [[hd b64]|]; [|cbn; auto].
        cbv [base64_b64decode StxM.bind StxM.seq_ emit lift]. cbn [fst].
        pose proof (Hdec b64) as Hb.
        destruct (b64decode b64) as [d|e]; [exact I|].
        destruct e; cbn; auto. exfalso. eapply Hb. reflexivity.
      * cbv [base64_b64decode StxM.try_except StxM.bind StxM.seq_ emit lift
               StxM.raise].
        destruct (b64decode _); cbn; auto.
Qed.

Lemma downscale_if_needed_expected im max_dim :
  match downscale_if_needed im max_dim with
  | Ok _ => True
  | Raise e => expected_exception e
  end.
Proof.
  unfold downscale_if_needed, Image_resize.
  destruct (_ <=? max_dim); [exact I|].
  destruct (_ =? 0); [exact I|].
  destruct (_ || _); exact I.
Qed.

Lemma remove_background_expected im do_rembg :
  match remove_background im do_rembg with
  | Ok _ => True
  | Raise e => expected_exception e
  end.
Proof.
  assert (Hheur : match pillow_bg_remove im 45 3 default_min_fg_fraction with
                  | Ok _ => True
                  | Raise e => expected_exception e
                  end).
  { destruct (pillow_bg_remove_cases im 3 default_min_fg_fraction 45)
      as [[_ Hres]|[_ [t' [_ Hres]]]]; rewrite Hres.
    - exact I.
    - rewrite (refine_and_composite_ok im _ 3 (mask_at_size im t')). exact I. }
  unfold remove_background.
  destruct (REMBG_AVAILABLE && do_rembg); [|exact Hheur].
  destruct (rembg_attempt im); [exact I | exact Hheur].
Qed.

(** X18: whatever is sent, the endpoint ends in one of four ways: a JSON
    body with status 200 (the garment) or 500 (an error), or an
    [HTTPException] with status 400 or 413; provided the decoder, the
    encoder and [b64decode] raise no [HTTPException] of their own. *)
Theorem upload_garment_outcomes (file : option UploadFile)
    (image_url base64_image garment_type gender : option string)
    (do_remove_bg : option bool) :
  (forall b, no_HTTPException (Image_open_RGBA b)) ->
  (forall im, no_HTTPException (save_PNG im)) ->
  (forall s, no_HTTPException (b64decode s)) ->
  upload_outcome
    (fst (upload_garment file image_url base64_image garment_type gender
                         do_remove_bg [])).
Proof.
  intros Hopen Hsave Hdec.
  assert (Hhandler : forall (e : exn) (log : list Event),
             expected_exception e ->
             upload_outcome
               (fst (match e with
                     | HTTPException _ _ => StxM.raise e
                     | _ => StxM.ret (JSONResponse (Error (str_exn e)) 500)
                     end log))).
  { intros e log He. destruct e; try exact I.
    cbn in He |- *. destruct He as [-> | ->]; exact I. }
  assert (Hpng : forall im log,
             upload_outcome
               (fst (StxM.try_except
                       (StxM.bind (lift (pil_to_base64_png im))
                          (fun b64_png =>
                             StxM.ret
                               (JSONResponse
                                  (Garment b64_png
                                     ("data:image/png;base64," ++ b64_png)
                                     (or_default garment_type "upper")
                                     (or_default gender "male")) 200)))
                       (fun exc =>
                          match exc with
                          | HTTPException _ _ => StxM.raise exc
                          | _ => StxM.ret
                                   (JSONResponse (Error (str_exn exc)) 500)
                          end) log))).
  { intros im log. unfold StxM.try_except, StxM.bind, lift, pil_to_base64_png.
    pose proof (Hsave im) as Hs.
    destruct (save_PNG im) as [png|e]; [exact I|].
    cbn [bindR]. apply Hhandler.
    destruct e; try exact I. exfalso. eapply Hs. reflexivity. }
  unfold upload_garment.
  unfold StxM.try_except at 1. unfold StxM.bind at 1.
  pose proof (read_input_expected file image_url base64_image [] Hdec) as Hin.
  destruct (read_input file image_url base64_image []) as [[data|e] log];
    cbn [fst] in Hin; [|apply Hhandler, Hin].
  unfold StxM.bind at 1. unfold lift at 1. unfold pil_open_image.
  pose proof (Hopen data) as Ho.
  destruct (Image_open_RGBA data) as [im|e].
  - unfold StxM.bind at 1. unfold lift at 1.
    pose proof (downscale_if_needed_expected im MAX_DIMENSION) as Hd.
    destruct (downscale_if_needed im MAX_DIMENSION) as [im'|e];
      [|apply Hhandler, Hd].
    destruct do_remove_bg as [[|]|].
    + unfold StxM.bind at 1. unfold lift at 1.
      pose proof (remove_background_expected im' true) as Hr.
      destruct (remove_background im' true) as [im''|e];
        [|apply Hhandler, Hr].
      apply (Hpng im'' log).
    + unfold StxM.bind at 1. unfold StxM.ret at 1. apply (Hpng im' log).
    + unfold StxM.bind at 1. unfold StxM.ret at 1. apply (Hpng im' log).
  - destruct e; cbn; try exact I.
    exfalso. eapply Ho. reflexivity.
Qed.
End UploadOutcomes.

(** The further properties of the endpoint on a host without network. *)
Lemma read_input_data_url_witness :
  read_input (H1 := Reference.offline) None None
    (Some "data:image/png;base64,AAAA"%string) [] =
  (b64decode (Services := Reference.offline) "AAAA",
   [B64Decode "AAAA"]).
Proof.
  apply (proj1 (read_input_data_url (H1 := Reference.offline) None
                  "data:image/png;base64,AAAA" eq_refl eq_refl)
               "data:image/png;base64"%string "AAAA"%string).
  - reflexivity.
  - cbn. repeat split; intros Hc; discriminate Hc.
Defined.

Lemma upload_undecodable_base64_witness :
  upload_garment (H := binary64) (H0 := Reference.pillow)
    (H1 := Reference.offline) None None (Some "AAA"%string) None None
    (Some true) [] =
  (Raise (HTTPException 400 "Provided base64_image is not valid base64"),
   [B64Decode "AAA"]).
Proof.
  apply (proj2 (upload_undecodable_base64 (H := binary64)
                  (H0 := Reference.pillow) (H1 := Reference.offline)
                  None None None (Some true) "AAA"
                  (OtherException "Incorrect padding") eq_refl eq_refl
                  ltac:(intros c d Hc; discriminate Hc))).
  - reflexivity.
  - reflexivity.
Defined.

Lemma upload_fetches_http_only_witness :
  @None UploadFile = None /\
  Some "https://example.org/shirt.png"%string
  = Some "https://example.org/shirt.png"%string /\
  (urlparse_scheme (Services := Reference.offline)
     "https://example.org/shirt.png" = "http"%string \/
   urlparse_scheme (Services := Reference.offline)
     "https://example.org/shirt.png" = "https"%string).
Proof.
  apply (upload_fetches_http_only (H := binary64) (H0 := Reference.pillow)
           (H1 := Reference.offline) None
           (Some "https://example.org/shirt.png"%string) None None None
           (Some true) "https://example.org/shirt.png").
  vm_compute. left. reflexivity.
Defined.

Lemma read_input_size_limits_witness :
  [Byte.x89; Byte.x50] = [Byte.x89; Byte.x50] /\
  1 <= Z.of_nat (List.length [Byte.x89; Byte.x50]) <= MAX_UPLOAD_BYTES.
Proof.
  apply (read_input_size_limits (H1 := Reference.offline)
           (Some {| file_content := [Byte.x89; Byte.x50] |}) None None
           [Byte.x89; Byte.x50] [FileRead]).
  reflexivity.
Defined.

Lemma upload_garment_outcomes_witness :
  upload_outcome
    (fst (upload_garment (H := binary64) (H0 := Reference.pillow)
            (H1 := Reference.offline)
            (Some {| file_content := [Byte.x89; Byte.x50] |}) None None
            None None (Some true) [])).
Proof.
  apply (upload_garment_outcomes (H := binary64) (H0 := Reference.pillow)
           (H1 := Reference.offline)).
  - intros b c d Hc. discriminate Hc.
  - intros im c d Hc. discriminate Hc.
  - intros s c d Hc. discriminate Hc.
Defined.
